(** * dbtpl: row-literal codec and pgx SQL builder

    A shallow embedding of the Go sources
      - [row_marshaler/errors.go], [row_marshaler/parser.go],
        [row_marshaler/tags.go], [row_marshaler/types.go],
        [row_marshaler/marshaler.go]
      - [templates/pgx/pgx.go]
    Go [string]s are byte sequences and are modelled by [string] (a list of
    8-bit [ascii] bytes); Go [int]s are modelled by [Z]; [map[int]T] by
    [gmap Z T]; fallible functions return [result]. *)

From Stdlib Require Import ZArith Ascii String List Lia Bool Permutation.
From Stdlib Require Import Decimal DecimalString DecimalZ DecimalPos DecimalN.
From stdpp Require Import base option list gmap strings sorting.

Local Open Scope Z_scope.

#[local] Arguments String.append !_ _ : simpl nomatch.
#[local] Set Warnings "-register-all".

(** ** Bytes and Go string helpers *)

Module Bytes.

Definition dquote    : ascii := "034"%char.
Definition backslash : ascii := "092"%char.
Definition newline   : ascii := "010"%char.
Definition creturn   : ascii := "013"%char.
Definition tab       : ascii := "009"%char.
Definition nul       : ascii := "000"%char.
Definition comma     : ascii := ","%char.
Definition lparen    : ascii := "("%char.
Definition rparen    : ascii := ")"%char.

Definition code (c : ascii) : N := N_of_ascii c.

(** [unicode.IsSpace(rune(c))] for a single byte [c]: the Latin-1 white
    space characters are TAB, LF, VT, FF, CR, SPACE, U+0085 and U+00A0. *)
Definition isSpace (c : ascii) : bool :=
  existsb (N.eqb (code c)) [9; 10; 11; 12; 13; 32; 133; 160]%N.

(** The [asciiSpace] table of package [strings]. *)
Definition isAsciiSpace (c : ascii) : bool :=
  existsb (N.eqb (code c)) [9; 10; 11; 12; 13; 32]%N.

Definition isUpper (c : ascii) : bool := (65 <=? code c)%N && (code c <=? 90)%N.
Definition isLower (c : ascii) : bool := (97 <=? code c)%N && (code c <=? 122)%N.
Definition isDigit (c : ascii) : bool := (48 <=? code c)%N && (code c <=? 57)%N.

Definition toLower (c : ascii) : ascii :=
  if isUpper c then ascii_of_N (code c + 32) else c.
Definition toUpper (c : ascii) : ascii :=
  if isLower c then ascii_of_N (code c - 32) else c.

End Bytes.

Module Str.

Definition len (s : string) : Z := Z.of_nat (String.length s).

Definition single (c : ascii) : string := String c EmptyString.

(** [s[i:]] *)
Fixpoint drop (n : nat) (s : string) : string :=
  match n, s with
  | O, _ => s
  | S n', String _ s' => drop n' s'
  | S _, EmptyString => EmptyString
  end.

(** [s[:i]] *)
Fixpoint take (n : nat) (s : string) : string :=
  match n, s with
  | S n', String c s' => String c (take n' s')
  | _, _ => EmptyString
  end.

(** [s[i:j]] *)
Definition slice (i j : Z) (s : string) : string :=
  take (Z.to_nat (j - i)) (drop (Z.to_nat i) s).

Fixpoint rev_onto (s acc : string) : string :=
  match s with
  | EmptyString => acc
  | String c s' => rev_onto s' (String c acc)
  end.
Definition rev (s : string) : string := rev_onto s EmptyString.

Fixpoint map (f : ascii -> ascii) (s : string) : string :=
  match s with
  | EmptyString => EmptyString
  | String c s' => String (f c) (map f s')
  end.

Fixpoint isPrefix (p s : string) : bool :=
  match p, s with
  | EmptyString, _ => true
  | String a p', String b s' => Ascii.eqb a b && isPrefix p' s'
  | String _ _, EmptyString => false
  end.

(** The longest prefix all of whose bytes satisfy [p], and what follows. *)
Fixpoint span (p : ascii -> bool) (s : string) : string * string :=
  match s with
  | EmptyString => (EmptyString, EmptyString)
  | String c s' =>
      if p c then let '(a, b) := span p s' in (String c a, b)
      else (EmptyString, s)
  end.

Fixpoint forallb (p : ascii -> bool) (s : string) : bool :=
  match s with
  | EmptyString => true
  | String c s' => p c && forallb p s'
  end.

Definition startsWith (c : ascii) (s : string) : bool :=
  match s with
  | String d _ => Ascii.eqb d c
  | EmptyString => false
  end.

Fixpoint join (sep : string) (l : list string) : string :=
  match l with
  | [] => EmptyString
  | [x] => x
  | x :: rest => x +:+ sep +:+ join sep rest
  end.

(** [strings.ToLower] / [strings.ToUpper] on ASCII letters; bytes of
    multi-byte runes are left alone. *)
Definition ToLower : string -> string := map Bytes.toLower.
Definition ToUpper : string -> string := map Bytes.toUpper.

(** [strings.EqualFold(s, t)] for an ASCII [t] none of whose letters has
    a non-ASCII simple case fold (no [k], [s]): byte-wise comparison up
    to ASCII case. *)
Definition EqualFoldAscii (s t : string) : bool := String.eqb (ToLower s) (ToLower t).

(** The UTF-8 encodings of the code points for which [unicode.IsSpace]
    holds.  A valid encoding is unique, so a string starts (ends) with a
    white-space rune iff it starts (ends) with one of these. *)
Definition spaceRunes : list string :=
  List.map (fun l => string_of_list_ascii (List.map ascii_of_N l))
    ([ [9]; [10]; [11]; [12]; [13]; [32];
       [194; 133]; [194; 160];
       [225; 154; 128];
       [226; 128; 128]; [226; 128; 129]; [226; 128; 130]; [226; 128; 131];
       [226; 128; 132]; [226; 128; 133]; [226; 128; 134]; [226; 128; 135];
       [226; 128; 136]; [226; 128; 137]; [226; 128; 138];
       [226; 128; 168]; [226; 128; 169]; [226; 128; 175];
       [226; 129; 159];
       [227; 128; 128] ])%N.

Definition spacePrefix (s : string) : option nat :=
  option_map String.length (find (fun p => isPrefix p s) spaceRunes).

Definition spacePrefixRev (r : string) : option nat :=
  option_map String.length (find (fun p => isPrefix (rev p) r) spaceRunes).

Fixpoint trimLeftFuel (fuel : nat) (s : string) : string :=
  match fuel with
  | O => s
  | S fuel' =>
      match spacePrefix s with
      | Some k => trimLeftFuel fuel' (drop k s)
      | None => s
      end
  end.

Fixpoint trimLeftRevFuel (fuel : nat) (r : string) : string :=
  match fuel with
  | O => r
  | S fuel' =>
      match spacePrefixRev r with
      | Some k => trimLeftRevFuel fuel' (drop k r)
      | None => r
      end
  end.

Definition TrimLeftSpace (s : string) : string := trimLeftFuel (String.length s) s.
Definition TrimRightSpace (s : string) : string :=
  rev (trimLeftRevFuel (String.length s) (rev s)).

(** [strings.TrimSpace]: all leading and trailing white-space runes are
    removed. *)
Definition TrimSpace (s : string) : string := TrimRightSpace (TrimLeftSpace s).

(** First bytes of the encodings in [Str.spaceRunes]. *)
Definition spaceFirst (c : ascii) : bool :=
  existsb (N.eqb (Bytes.code c)) [9; 10; 11; 12; 13; 32; 194; 225; 226; 227]%N.

(** Last bytes of the encodings in [Str.spaceRunes]. *)
Definition spaceLast (c : ascii) : bool :=
  existsb (N.eqb (Bytes.code c))
    [9; 10; 11; 12; 13; 32; 133; 160; 128; 129; 130; 131; 132; 134; 135;
     136; 137; 138; 168; 169; 175; 159]%N.

End Str.

(** ** errors.go *)

(** The text of an error produced by a callee ([err.Error()]) is kept in
    structured form. *)
Inductive NumErrorKind := ErrSyntax | ErrRange.

Inductive Reason :=
| ReasonText (msg : string)
| ReasonNumError (func num : string) (kind : NumErrorKind)
| ReasonExternal (msg : string).

Inductive error :=
| ParseError (Position : Z) (Message Input : string)
| TypeMismatchError (FieldName : string) (FieldPos : Z)
                    (Value ExpectedType : string) (reason : Reason)
| ValidationError (FieldName TagValue Message : string)
| MarshalError (FieldName : string) (FieldPos : Z) (reason : Reason)
| ErrNilPointer
| ErrNotStruct
| ErrEmptyInput.

Definition NewParseError := ParseError.
Definition NewTypeMismatchError := TypeMismatchError.
Definition NewValidationError := ValidationError.

Inductive res (E A : Type) :=
| Ok (a : A)
| Err (e : E).
Arguments Ok {E A} a.
Arguments Err {E A} e.

(** The result of a function that returns one of the errors of errors.go. *)
Abbreviation result := (res error).

Definition bind {E A B} (r : res E A) (k : A -> res E B) : res E B :=
  match r with
  | Ok a => k a
  | Err e => Err e
  end.

Notation "'try' x <- r ; k" := (bind r (fun x => k))
  (at level 10, x name, r at level 100, k at level 200).
Notation "'try' ' p <- r ; k" := (bind r (fun x => let 'p := x in k))
  (at level 10, p pattern, r at level 100, k at level 200).

(** ** parser.go *)

Record Token := mkToken {
  Value    : string;   (* the parsed value, escapes processed *)
  RawValue : string;   (* the raw slice of the input *)
  Quoted   : bool;
  Position : Z         (* offset in the input where the token started *)
}.

Section Lexer.

(** The content between the parentheses and the offset of its first byte
    in the input. *)
Variable content : string.
Variable startPos : Z.

(** The byte written for the escape sequence backslash-[ch]. *)
Definition unescape (ch : ascii) : string :=
  if Ascii.eqb ch "n" then Str.single Bytes.newline
  else if Ascii.eqb ch "r" then Str.single Bytes.creturn
  else if Ascii.eqb ch "t" then Str.single Bytes.tab
  else if Ascii.eqb ch Bytes.backslash then Str.single Bytes.backslash
  else if Ascii.eqb ch Bytes.dquote then Str.single Bytes.dquote
  else if Ascii.eqb ch Bytes.comma then Str.single Bytes.comma
  else if Ascii.eqb ch "0" then Str.single Bytes.nul
  else String Bytes.backslash (Str.single ch).

(** The scanning loop of [parseQuotedString]; [rest] is [content[pos:]]. *)
Fixpoint quotedLoop (tokenStart : Z) (rest : string) (pos : Z)
         (escaped : bool) (value : string) : result (Token * Z) :=
  match rest with
  | EmptyString =>
      Err (NewParseError (startPos + tokenStart) "unclosed quoted string" content)
  | String ch rest' =>
      if escaped then
        quotedLoop tokenStart rest' (pos + 1) false (value +:+ unescape ch)
      else if Ascii.eqb ch Bytes.backslash then
        quotedLoop tokenStart rest' (pos + 1) true value
      else if Ascii.eqb ch Bytes.dquote then
        let finish :=
          Ok (mkToken value (Str.slice tokenStart (pos + 1) content) true
                      (startPos + tokenStart), pos + 1) in
        match rest' with
        | String ch2 rest'' =>
            if Ascii.eqb ch2 Bytes.dquote
            then quotedLoop tokenStart rest'' (pos + 2) false
                            (value +:+ Str.single Bytes.dquote)
            else finish
        | EmptyString => finish
        end
      else quotedLoop tokenStart rest' (pos + 1) false (value +:+ Str.single ch)
  end.

Definition parseQuotedString (pos : Z) : result (Token * Z) :=
  match Str.drop (Z.to_nat pos) content with
  | String ch rest' =>
      if Ascii.eqb ch Bytes.dquote
      then quotedLoop pos rest' (pos + 1) false EmptyString
      else Err (NewParseError (startPos + pos) "expected opening quote" content)
  | EmptyString => Err (NewParseError (startPos + pos) "expected opening quote" content)
  end.

(** The scanning loop of [parseUnquotedValue]: [Ok (value, pos)] when the
    loop is left by [break] or by exhaustion of the input. *)
Fixpoint unquotedLoop (rest : string) (pos : Z) (value : string)
  : result (string * Z) :=
  match rest with
  | EmptyString => Ok (value, pos)
  | String ch rest' =>
      if Ascii.eqb ch Bytes.comma || Ascii.eqb ch Bytes.rparen || Bytes.isSpace ch
      then Ok (value, pos)
      else if Ascii.eqb ch Bytes.dquote
      then Err (NewParseError (startPos + pos)
                              "unexpected quote in unquoted value" content)
      else unquotedLoop rest' (pos + 1) (value +:+ Str.single ch)
  end.

Definition parseUnquotedValue (pos : Z) : result (Token * Z) :=
  let tokenStart := pos in
  try '(value, pos') <- unquotedLoop (Str.drop (Z.to_nat pos) content) pos EmptyString;
  Ok (mkToken (Str.TrimSpace value) (Str.slice tokenStart pos' content) false
              (startPos + tokenStart), pos').

(** [for pos < n && unicode.IsSpace(rune(content[pos])) { pos++ }] *)
Fixpoint skipSpace (rest : string) (pos : Z) : Z :=
  match rest with
  | String ch rest' => if Bytes.isSpace ch then skipSpace rest' (pos + 1) else pos
  | EmptyString => pos
  end.

Definition skipSpaceAt (pos : Z) : Z := skipSpace (Str.drop (Z.to_nat pos) content) pos.

Definition byteAt (pos : Z) : option ascii :=
  match Str.drop (Z.to_nat pos) content with
  | String ch _ => Some ch
  | EmptyString => None
  end.

(** The scanner picked at [pos]: [parseQuotedString] when the byte there
    is a double quote, [parseUnquotedValue] otherwise. *)
Definition scanAt (pos : Z) : result (Token * Z) :=
  match byteAt pos with
  | Some ch =>
      if Ascii.eqb ch Bytes.dquote
      then parseQuotedString pos
      else parseUnquotedValue pos
  | None => parseUnquotedValue pos
  end.

(** The main loop of [parseTokens].  Every iteration that does not leave
    the loop advances [pos], so [fuel] bounds the number of iterations
    (see [parseTokensLoop_fuel]). *)
Fixpoint parseTokensLoop (fuel : nat) (pos : Z) (tokens : list Token)
  : result (list Token) :=
  match fuel with
  | O => Ok tokens
  | S fuel' =>
      let n := Str.len content in
      if negb (pos <? n) then Ok tokens else
      let pos := skipSpaceAt pos in
      if n <=? pos then Ok tokens else
      try '(token, pos) <- scanAt pos;
      let tokens := tokens ++ [token] in
      let pos := skipSpaceAt pos in
      if pos <? n then
        match byteAt pos with
        | Some ch =>
            if Ascii.eqb ch Bytes.comma
            then parseTokensLoop fuel' (pos + 1) tokens
            else Err (NewParseError (startPos + pos) "expected ',' or end of row" content)
        | None => parseTokensLoop fuel' pos tokens
        end
      else parseTokensLoop fuel' pos tokens
  end.

End Lexer.

(** [parseTokens(content, startPos)] *)
Definition parseTokens (content : string) (startPos : Z) : result (list Token) :=
  parseTokensLoop content startPos (S (String.length content)) 0 [].

Fixpoint lastByte (s : string) : option ascii :=
  match s with
  | EmptyString => None
  | String c EmptyString => Some c
  | String _ s' => lastByte s'
  end.

(** [ParseRowLiteral(input)] *)
Definition ParseRowLiteral (input : string) : result (list Token) :=
  let input := Str.TrimSpace input in
  match input with
  | EmptyString => Err ErrEmptyInput
  | String first _ =>
      if negb (Ascii.eqb first Bytes.lparen)
      then Err (NewParseError 0 "expected opening parenthesis '('" input)
      else if negb (match lastByte input with
                    | Some last => Ascii.eqb last Bytes.rparen
                    | None => false
                    end)
      then Err (NewParseError (Str.len input - 1) "expected closing parenthesis ')'" input)
      else
        let content := Str.slice 1 (Str.len input - 1) input in
        if String.eqb (Str.TrimSpace content) EmptyString
        then Ok []
        else parseTokens content 1
  end.

(** [EscapeString(s)] *)
Fixpoint escapeBytes (s : string) : string :=
  match s with
  | EmptyString => EmptyString
  | String ch s' =>
      (if Ascii.eqb ch Bytes.dquote then String Bytes.backslash (Str.single Bytes.dquote)
       else if Ascii.eqb ch Bytes.backslash then String Bytes.backslash (Str.single Bytes.backslash)
       else if Ascii.eqb ch Bytes.newline then String Bytes.backslash "n"
       else if Ascii.eqb ch Bytes.creturn then String Bytes.backslash "r"
       else if Ascii.eqb ch Bytes.tab then String Bytes.backslash "t"
       else if Ascii.eqb ch Bytes.nul then String Bytes.backslash "0"
       else Str.single ch) +:+ escapeBytes s'
  end.

Definition EscapeString (s : string) : string :=
  String Bytes.dquote (escapeBytes s +:+ Str.single Bytes.dquote).

(** [BuildRowLiteral(values)] *)
Definition BuildRowLiteral (values : list string) : string :=
  "(" +:+ Str.join "," values +:+ ")".


(** *** Vocabulary for the properties of the unquoted scanner *)

(** The bytes at which [parseUnquotedValue] leaves its loop by [break]. *)
Definition isTerminator (ch : ascii) : bool :=
  Ascii.eqb ch Bytes.comma || Ascii.eqb ch Bytes.rparen || Bytes.isSpace ch.

(** A byte that the unquoted scanner copies into the value. *)
Definition plainByte (ch : ascii) : bool :=
  negb (isTerminator ch) && negb (Ascii.eqb ch Bytes.dquote).

(** The bytes of [content] from [pos] up to, and excluding, the next comma,
    closing parenthesis, white-space byte or double quote. *)
Definition unquotedRun (content : string) (pos : Z) : string :=
  fst (Str.span plainByte (Str.drop (Z.to_nat pos) content)).

(** What follows [unquotedRun]. *)
Definition unquotedRest (content : string) (pos : Z) : string :=
  snd (Str.span plainByte (Str.drop (Z.to_nat pos) content)).

(** The row literal of scenario S4, [(a,"b)"c)]; its quotes are at offsets 3
    and 6. *)
Definition strayQuoteRow : string :=
  "(a," +:+ Str.single Bytes.dquote +:+ "b)" +:+ Str.single Bytes.dquote +:+ "c)".

(** *** Vocabulary for the elements of a row literal *)

(** A byte of a bare word: an ASCII digit, an ASCII letter or the minus
    sign. *)
Definition wordByte (c : ascii) : bool :=
  Bytes.isDigit c || Bytes.isLower c || Bytes.isUpper c || Ascii.eqb c "-".

(** [element e v]: the text [e] is an element of a row literal that is read
    back as the value [v], either an escaped string or a bare word. *)
Inductive element : string -> string -> Prop :=
| element_quoted (s : string) : element (EscapeString s) s
| element_word (w : string) :
    w <> "" -> Str.forallb wordByte w = true -> element w w.

(** ** Package [strconv] (Go standard library), as used by the codec *)

Module strconv.

(** [ParseUint(s, 10, bitSize)]: digits are consumed left to right; an
    overflow is reported at the digit where it occurs. *)
Fixpoint parseUintLoop (maxVal : Z) (s : string) (n : Z) : NumErrorKind + Z :=
  match s with
  | EmptyString => inr n
  | String c rest =>
      if Bytes.isDigit c then
        let d := Z.of_N (Bytes.code c) - 48 in
        if (2 ^ 64 - 1) / 10 + 1 <=? n then inl ErrRange
        else
          let n1 := n * 10 + d in
          if (2 ^ 64 <=? n1) || (maxVal <? n1) then inl ErrRange
          else parseUintLoop maxVal rest n1
      else inl ErrSyntax
  end.

Definition ParseUint (s : string) (bitSize : Z) : NumErrorKind + Z :=
  match s with
  | EmptyString => inl ErrSyntax
  | _ => parseUintLoop (2 ^ bitSize - 1) s 0
  end.

(** [ParseInt(s, 10, bitSize)] *)
Definition ParseInt (s : string) (bitSize : Z) : NumErrorKind + Z :=
  match s with
  | EmptyString => inl ErrSyntax
  | String c rest =>
      let '(neg, digits) :=
        if Ascii.eqb c "+" then (false, rest)
        else if Ascii.eqb c "-" then (true, rest)
        else (false, s) in
      match ParseUint digits bitSize with
      | inl ErrSyntax => inl ErrSyntax
      | inl ErrRange => inl ErrRange
      | inr un =>
          let cutoff := 2 ^ (bitSize - 1) in
          if negb neg && (cutoff <=? un) then inl ErrRange
          else if neg && (cutoff <? un) then inl ErrRange
          else inr (if neg then - un else un)
      end
  end.

(** [strconv.IntSize] *)
Definition IntSize : Z := 64.

(** [Atoi(s)] agrees with [ParseInt(s, 10, 0)]. *)
Definition Atoi (s : string) : NumErrorKind + Z := ParseInt s IntSize.

(** [FormatInt(i, 10)], [FormatUint(i, 10)], [Itoa(i)] *)
Definition FormatInt (i : Z) : string := DecimalString.NilZero.string_of_int (Z.to_int i).
Definition FormatUint (i : Z) : string := FormatInt i.
Definition Itoa (i : Z) : string := FormatInt i.

End strconv.

(** ** tags.go *)

Module TagOptions.
Record t := mk {
  Position   : Z;       (* the 1-indexed position in the row *)
  OmitEmpty  : bool;
  Required   : bool;
  Default    : string;
  HasDefault : bool
}.
(** [TagOptions{}] *)
Definition zero : t := mk 0 false false "" false.
End TagOptions.
Abbreviation TagOptions := TagOptions.t.

(** The loop shared by [splitTagParts] and [splitSliceElements]: split at
    the commas that are neither inside double quotes nor escaped by a
    backslash; quotes and backslashes are kept.  [splitTagParts] ranges over
    runes and writes them back; the bytes of a well-formed UTF-8 tag are
    copied unchanged, and that is what is modelled. *)
Fixpoint splitLoop (s : string) (inQuote escaped : bool) (current : string)
         (parts : list string) : list string :=
  match s with
  | EmptyString =>
      match current with
      | EmptyString => parts
      | _ => parts ++ [current]
      end
  | String r s' =>
      if escaped then splitLoop s' inQuote false (current +:+ Str.single r) parts
      else if Ascii.eqb r Bytes.backslash
      then splitLoop s' inQuote true (current +:+ Str.single r) parts
      else if Ascii.eqb r Bytes.dquote
      then splitLoop s' (negb inQuote) false (current +:+ Str.single r) parts
      else if Ascii.eqb r Bytes.comma
      then if inQuote
           then splitLoop s' inQuote false (current +:+ Str.single r) parts
           else splitLoop s' inQuote false EmptyString (parts ++ [current])
      else splitLoop s' inQuote false (current +:+ Str.single r) parts
  end.

Definition splitTagParts (tag : string) : list string :=
  splitLoop tag false false EmptyString [].

(** [strings.Index(s, "=")] *)
Fixpoint indexEq (s : string) : option Z :=
  match s with
  | EmptyString => None
  | String c s' =>
      if Ascii.eqb c "=" then Some 0
      else option_map Z.succ (indexEq s')
  end.

(** One iteration of the option loop of [ParseTag]. *)
Definition parseOption (tagValue : string) (opts : TagOptions) (rawPart : string)
  : result TagOptions :=
  let part := Str.TrimSpace rawPart in
  if String.eqb part "" then Ok opts
  else
    match indexEq part with
    | Some idx =>
        let key := Str.TrimSpace (Str.slice 0 idx part) in
        let value := Str.TrimSpace (Str.slice (idx + 1) (Str.len part) part) in
        if String.eqb key "default"
        then Ok (TagOptions.mk (TagOptions.Position opts) (TagOptions.OmitEmpty opts)
                               (TagOptions.Required opts) value true)
        else Err (NewValidationError "" tagValue ("unknown option: " +:+ key))
    | None =>
        if String.eqb part "omitempty"
        then Ok (TagOptions.mk (TagOptions.Position opts) true
                               (TagOptions.Required opts) (TagOptions.Default opts)
                               (TagOptions.HasDefault opts))
        else if String.eqb part "required"
        then Ok (TagOptions.mk (TagOptions.Position opts) (TagOptions.OmitEmpty opts)
                               true (TagOptions.Default opts)
                               (TagOptions.HasDefault opts))
        else Err (NewValidationError "" tagValue ("unknown option: " +:+ part))
    end.

Fixpoint parseOptions (tagValue : string) (opts : TagOptions) (parts : list string)
  : result TagOptions :=
  match parts with
  | [] => Ok opts
  | part :: rest =>
      try opts' <- parseOption tagValue opts part;
      parseOptions tagValue opts' rest
  end.

(** [ParseTag(tagValue)] *)
Definition ParseTag (tagValue : string) : result TagOptions :=
  if String.eqb tagValue "" || String.eqb tagValue "-" then Ok TagOptions.zero
  else
    match splitTagParts tagValue with
    | [] => Err (NewValidationError "" tagValue "empty tag value")
    | first :: rest =>
        match strconv.Atoi (Str.TrimSpace first) with
        | inl _ =>
            Err (NewValidationError "" tagValue "position must be a positive integer")
        | inr pos =>
            if pos <? 1
            then Err (NewValidationError "" tagValue "position must be >= 1 (1-indexed)")
            else
              try opts <- parseOptions tagValue
                            (TagOptions.mk pos false false "" false) rest;
              if TagOptions.Required opts && TagOptions.OmitEmpty opts
              then Err (NewValidationError "" tagValue
                          "conflicting options: required and omitempty")
              else if TagOptions.Required opts && TagOptions.HasDefault opts
              then Err (NewValidationError "" tagValue
                          "conflicting options: required and default")
              else Ok opts
        end
    end.

(** ** Types and values seen through package [reflect]

    The universe of Go types covered by the model: the predeclared scalar
    types, pointers, slices, the [database/sql] null wrappers, [time.Time],
    named struct types, and an opaque remainder (arrays, maps, channels,
    functions, interfaces, complex numbers) that the codec does not
    support.  Methods are modelled on struct types only. *)

Inductive IntKind := Int | Int8 | Int16 | Int32 | Int64.
Inductive UintKind := Uint | Uint8 | Uint16 | Uint32 | Uint64.
Inductive NullKind :=
| NullString | NullBool | NullInt16 | NullInt32 | NullInt64
| NullByte | NullFloat64 | NullTime.

(** The interfaces a struct type may implement (through its pointer
    receiver for [sql.Scanner] and [StringParser]). *)
Record Methods := mkMethods {
  implScanner      : bool;   (* sql.Scanner *)
  implStringParser : bool;   (* StringParser *)
  implValuer       : bool;   (* driver.Valuer *)
  implStringer     : bool    (* fmt.Stringer *)
}.

Definition noMethods : Methods := mkMethods false false false false.

Module StructField.
(** [reflect.StructField]; [Tag] is the result of [Tag.Lookup("row")]. *)
Record t (T : Type) := mk {
  Name     : string;
  Exported : bool;
  Tag      : option string;
  Typ      : T
}.
Arguments mk {T}.
Arguments Name {T}.
Arguments Exported {T}.
Arguments Tag {T}.
Arguments Typ {T}.
End StructField.

Inductive GoType :=
| TString
| TBool
| TInt (k : IntKind)
| TUint (k : UintKind)
| TFloat32
| TFloat64
| TPtr (elem : GoType)
| TSlice (elem : GoType)
| TNull (k : NullKind)
| TTime
| TStruct (name : string) (methods : Methods) (fields : list (StructField.t GoType))
| TOther (name : string).

Abbreviation StructField := (StructField.t GoType).

Inductive Kind :=
| KString | KBool | KInt (k : IntKind) | KUint (k : UintKind)
| KFloat32 | KFloat64 | KPtr | KSlice | KStruct | KOther.

(** [t.Kind()] *)
Definition kindOf (t : GoType) : Kind :=
  match t with
  | TString => KString
  | TBool => KBool
  | TInt k => KInt k
  | TUint k => KUint k
  | TFloat32 => KFloat32
  | TFloat64 => KFloat64
  | TPtr _ => KPtr
  | TSlice _ => KSlice
  | TNull _ | TTime | TStruct _ _ _ => KStruct
  | TOther _ => KOther
  end.

Definition isStructKind (t : GoType) : bool :=
  match kindOf t with KStruct => true | _ => false end.

Definition intKindName (k : IntKind) : string :=
  match k with
  | Int => "int" | Int8 => "int8" | Int16 => "int16" | Int32 => "int32" | Int64 => "int64"
  end.

Definition uintKindName (k : UintKind) : string :=
  match k with
  | Uint => "uint" | Uint8 => "uint8" | Uint16 => "uint16"
  | Uint32 => "uint32" | Uint64 => "uint64"
  end.

Definition nullKindName (k : NullKind) : string :=
  match k with
  | NullString => "sql.NullString" | NullBool => "sql.NullBool"
  | NullInt16 => "sql.NullInt16" | NullInt32 => "sql.NullInt32"
  | NullInt64 => "sql.NullInt64" | NullByte => "sql.NullByte"
  | NullFloat64 => "sql.NullFloat64" | NullTime => "sql.NullTime"
  end.

(** [t.String()] *)
Fixpoint typeString (t : GoType) : string :=
  match t with
  | TString => "string"
  | TBool => "bool"
  | TInt k => intKindName k
  | TUint k => uintKindName k
  | TFloat32 => "float32"
  | TFloat64 => "float64"
  | TPtr e => "*" +:+ typeString e
  | TSlice e => "[]" +:+ typeString e
  | TNull k => nullKindName k
  | TTime => "time.Time"
  | TStruct name _ _ => name
  | TOther name => name
  end.

(** The fields [t.Field(0)], ..., [t.Field(t.NumField()-1)] of a type of
    kind struct.  The fields of the library types carry no [row] tag; the
    types of the unexported fields of [time.Time] are never inspected. *)
Definition structFields (t : GoType) : list StructField :=
  let untagged name ty := StructField.mk name true None ty in
  let hidden name ty := StructField.mk name false None ty in
  match t with
  | TStruct _ _ fields => fields
  | TNull NullString => [untagged "String" TString; untagged "Valid" TBool]
  | TNull NullBool => [untagged "Bool" TBool; untagged "Valid" TBool]
  | TNull NullInt16 => [untagged "Int16" (TInt Int16); untagged "Valid" TBool]
  | TNull NullInt32 => [untagged "Int32" (TInt Int32); untagged "Valid" TBool]
  | TNull NullInt64 => [untagged "Int64" (TInt Int64); untagged "Valid" TBool]
  | TNull NullByte => [untagged "Byte" (TUint Uint8); untagged "Valid" TBool]
  | TNull NullFloat64 => [untagged "Float64" TFloat64; untagged "Valid" TBool]
  | TNull NullTime => [untagged "Time" TTime; untagged "Valid" TBool]
  | TTime => [hidden "wall" (TUint Uint64); hidden "ext" (TInt Int64);
              hidden "loc" (TPtr (TOther "time.Location"))]
  | _ => []
  end.

(** *** tags.go, continued *)

Module FieldInfo.
Record t := mk {
  Name    : string;       (* field name *)
  Index   : nat;          (* index in struct *)
  Typ     : GoType;       (* field type *)
  Options : TagOptions;   (* parsed tag options *)
  HasTag  : bool
}.
End FieldInfo.
Abbreviation FieldInfo := FieldInfo.t.

(** The body of the loop of [GetStructFields] for field number [i]. *)
Definition getStructFieldsStep (i : nat) (field : StructField)
           (st : gmap Z FieldInfo * gmap Z string)
  : result (gmap Z FieldInfo * gmap Z string) :=
  let '(fields, positions) := st in
  if negb (StructField.Exported field) then Ok st
  else
    match StructField.Tag field with
    | None => Ok st
    | Some tagValue =>
        if String.eqb tagValue "-" then Ok st
        else
          match ParseTag tagValue with
          | Err (ValidationError _ tv msg) =>
              Err (ValidationError (StructField.Name field) tv msg)
          | Err e => Err e
          | Ok opts =>
              match positions !! TagOptions.Position opts with
              | Some existingField =>
                  Err (NewValidationError (StructField.Name field) tagValue
                         ("duplicate position " +:+ strconv.Itoa (TagOptions.Position opts)
                          +:+ " (also used by field " +:+ existingField +:+ ")"))
              | None =>
                  Ok (<[TagOptions.Position opts :=
                          FieldInfo.mk (StructField.Name field) i
                                       (StructField.Typ field) opts true]> fields,
                      <[TagOptions.Position opts := StructField.Name field]> positions)
              end
          end
    end.

Fixpoint getStructFieldsLoop (i : nat) (fs : list StructField)
         (st : gmap Z FieldInfo * gmap Z string)
  : result (gmap Z FieldInfo * gmap Z string) :=
  match fs with
  | [] => Ok st
  | field :: rest =>
      try st' <- getStructFieldsStep i field st;
      getStructFieldsLoop (S i) rest st'
  end.

(** [GetStructFields(t)] *)
Definition GetStructFields (t : GoType) : result (gmap Z FieldInfo) :=
  let t := match t with TPtr elem => elem | _ => t end in
  if negb (isStructKind t) then Err ErrNotStruct
  else
    try st <- getStructFieldsLoop 0 (structFields t) (∅, ∅);
    Ok (fst st).

(** [GetMaxPosition(fields)]; the result does not depend on the order in
    which the map is ranged over. *)
Definition GetMaxPosition (fields : gmap Z FieldInfo) : Z :=
  map_fold (fun pos _ max => if max <? pos then pos else max) 0 fields.

(** [GetSortedPositions(fields)] *)
Definition GetSortedPositions (fields : gmap Z FieldInfo) : list Z :=
  if bool_decide (size fields = 0%nat) then []
  else
    let max := GetMaxPosition fields in
    List.filter (fun i => bool_decide (is_Some (fields !! i))) (seqZ 1 max).

(** *** Vocabulary for the properties of the tag model *)

(** The option parts of a tag, as the loop of [ParseTag] sees them. *)
Definition optionParts (tag : string) : list string :=
  List.map Str.TrimSpace (List.tl (splitTagParts tag)).

(** A part of the form [default=<literal>]. *)
Definition isDefaultOption (part : string) : bool :=
  match indexEq part with
  | Some idx => String.eqb (Str.TrimSpace (Str.slice 0 idx part)) "default"
  | None => false
  end.

(** The position a struct field is registered under by [GetStructFields],
    if it is registered at all. *)
Definition taggedPosition (field : StructField) : option Z :=
  if StructField.Exported field then
    match StructField.Tag field with
    | Some tagValue =>
        if String.eqb tagValue "-" then None
        else match ParseTag tagValue with
             | Ok opts => Some (TagOptions.Position opts)
             | Err _ => None
             end
    | None => None
    end
  else None.

(** The type whose fields [GetStructFields] reads: one pointer is removed. *)
Definition derefOnce (t : GoType) : GoType :=
  match t with TPtr elem => elem | _ => t end.

(** A struct type with two fields on one position, a well-formed one, and a
    type that is not a struct. *)
Definition clashingStruct : GoType :=
  TStruct "Clash" noMethods
    [StructField.mk "A" true (Some "1") TString;
     StructField.mk "B" true (Some "1,omitempty") (TInt Int)].

Definition addressStruct : GoType :=
  TStruct "Address" noMethods
    [StructField.mk "Street" true (Some "1") TString;
     StructField.mk "City" true (Some "2") TString;
     StructField.mk "ZipCode" true (Some "3") (TInt Int)].

(** Every entry of the layout points into the first [bound] fields, and no
    two entries point to the same field. *)
Definition layoutIndexed (bound : nat) (fields : gmap Z FieldInfo) : Prop :=
  (forall q f, fields !! q = Some f -> (FieldInfo.Index f < bound)%nat)
  /\ (forall q1 q2 f1 f2,
         fields !! q1 = Some f1 -> fields !! q2 = Some f2 ->
         FieldInfo.Index f1 = FieldInfo.Index f2 -> q1 = q2).

(** ** Values seen through package [reflect] *)

(** Go values of the types of [GoType], over the representations [F] of
    floating-point numbers and [T] of [time.Time].  A nil pointer and a nil
    slice are [None]. *)
Inductive GoValue (F T : Type) :=
| VString (s : string)
| VBool (b : bool)
| VInt (k : IntKind) (n : Z)
| VUint (k : UintKind) (n : Z)
| VFloat32 (x : F)
| VFloat64 (x : F)
| VPtr (elem : GoType) (target : option (GoValue F T))
| VSlice (elem : GoType) (elems : option (list (GoValue F T)))
| VNullString (s : string) (valid : bool)
| VNullBool (b : bool) (valid : bool)
| VNullInt16 (n : Z) (valid : bool)
| VNullInt32 (n : Z) (valid : bool)
| VNullInt64 (n : Z) (valid : bool)
| VNullByte (n : Z) (valid : bool)
| VNullFloat64 (x : F) (valid : bool)
| VNullTime (t : T) (valid : bool)
| VTime (t : T)
| VStruct (name : string) (methods : Methods) (fields : list StructField)
          (vals : list (GoValue F T))
| VOther (name : string) (isZero : bool).

Arguments VString {F T}.
Arguments VBool {F T}.
Arguments VInt {F T}.
Arguments VUint {F T}.
Arguments VFloat32 {F T}.
Arguments VFloat64 {F T}.
Arguments VPtr {F T}.
Arguments VSlice {F T}.
Arguments VNullString {F T}.
Arguments VNullBool {F T}.
Arguments VNullInt16 {F T}.
Arguments VNullInt32 {F T}.
Arguments VNullInt64 {F T}.
Arguments VNullByte {F T}.
Arguments VNullFloat64 {F T}.
Arguments VNullTime {F T}.
Arguments VTime {F T}.
Arguments VStruct {F T}.
Arguments VOther {F T}.

(** What [Value()] of a [driver.Valuer] hands back. *)
Inductive DriverValue :=
| DVNil
| DVText (s : string)          (* a string or a []byte *)
| DVOther (printed : string).  (* any other value, as [fmt.Sprint] prints it *)

(** The standard library, [github.com/lib/pq] and the methods of user
    types, as far as the codec calls them. *)
Class GoLib := {
  float : Type;
  time : Type;
  (** [strconv.ParseFloat(s, bitSize)] *)
  ParseFloat : string -> Z -> NumErrorKind + float;
  (** [strconv.FormatFloat(x, 'f', -1, bitSize)] *)
  FormatFloat : float -> Z -> string;
  (** [float64(0)] *)
  floatZero : float;
  (** [math.Float64bits(x) == 0] *)
  floatIsZero : float -> bool;
  (** The text of a float is a decimal numeral, [NaN], [+Inf] or [-Inf]. *)
  FormatFloat_not_NULL : forall x bitSize, FormatFloat x bitSize <> "NULL";
  (** [time.Parse(layout, value)] *)
  timeParse : string -> string -> option time;
  (** [t.Format(layout)] *)
  timeFormat : time -> string -> string;
  (** [t.IsZero()] *)
  timeIsZero : time -> bool;
  (** [reflect.ValueOf(t).IsZero()] *)
  timeIsZeroValue : time -> bool;
  (** [time.Time{}] *)
  timeZero : time;
  (** [pq.Array(slice).Value()], when it succeeds with a string or bytes. *)
  pqArrayValue : GoValue float time -> option string;
  (** [new(T).Scan([]byte(value))] for the struct type named [T]: the
      error text, or the value scanned. *)
  userScan : string -> string -> string + GoValue float time;
  (** [new(T).ParseString(value)] *)
  userParseString : string -> string -> string + GoValue float time;
  (** [v.Value()] *)
  userValue : GoValue float time -> string + DriverValue;
  (** [v.String()] *)
  userString : GoValue float time -> string
}.

Abbreviation goValue := (GoValue float time).

Definition RFC3339 : string := "2006-01-02T15:04:05Z07:00".
Definition RFC3339Nano : string := "2006-01-02T15:04:05.999999999Z07:00".

Section Values.

Context {L : GoLib}.

(** [v.Type()] *)
Definition typeOf (v : goValue) : GoType :=
  match v with
  | VString _ => TString
  | VBool _ => TBool
  | VInt k _ => TInt k
  | VUint k _ => TUint k
  | VFloat32 _ => TFloat32
  | VFloat64 _ => TFloat64
  | VPtr elem _ => TPtr elem
  | VSlice elem _ => TSlice elem
  | VNullString _ _ => TNull NullString
  | VNullBool _ _ => TNull NullBool
  | VNullInt16 _ _ => TNull NullInt16
  | VNullInt32 _ _ => TNull NullInt32
  | VNullInt64 _ _ => TNull NullInt64
  | VNullByte _ _ => TNull NullByte
  | VNullFloat64 _ _ => TNull NullFloat64
  | VNullTime _ _ => TNull NullTime
  | VTime _ => TTime
  | VStruct name methods fields _ => TStruct name methods fields
  | VOther name _ => TOther name
  end.

(** [v.IsZero()] *)
Fixpoint IsZero (v : goValue) : bool :=
  match v with
  | VString s => String.eqb s ""
  | VBool b => negb b
  | VInt _ n | VUint _ n => n =? 0
  | VFloat32 x | VFloat64 x => floatIsZero x
  | VPtr _ target => match target with None => true | Some _ => false end
  | VSlice _ elems => match elems with None => true | Some _ => false end
  | VNullString s valid => String.eqb s "" && negb valid
  | VNullBool b valid => negb b && negb valid
  | VNullInt16 n valid | VNullInt32 n valid | VNullInt64 n valid
  | VNullByte n valid => (n =? 0) && negb valid
  | VNullFloat64 x valid => floatIsZero x && negb valid
  | VNullTime t valid => timeIsZeroValue t && negb valid
  | VTime t => timeIsZeroValue t
  | VStruct _ _ _ vals => forallb IsZero vals
  | VOther _ isZero => isZero
  end.

(** [IsZeroValue(v)]: nil for the kinds that can be nil, [IsZero]
    otherwise; on the values of the model the two coincide. *)
Definition IsZeroValue (v : goValue) : bool :=
  match v with
  | VPtr _ target => match target with None => true | Some _ => false end
  | VSlice _ elems => match elems with None => true | Some _ => false end
  | _ => IsZero v
  end.

(** [rv.Field(i)]; a struct value has one value per declared field (see
    [wfStruct]), outside of which the zero string is returned. *)
Definition fieldAt (vals : list goValue) (i : nat) : goValue :=
  default (VString "") (vals !! i).

End Values.

(** ** types.go: decoding *)

Section Convert.

Context {L : GoLib}.

Definition intBitSize (k : IntKind) : Z :=
  match k with
  | Int8 => 8 | Int16 => 16 | Int32 => 32 | Int64 => 64
  | Int => strconv.IntSize
  end.

Definition uintBitSize (k : UintKind) : Z :=
  match k with
  | Uint8 => 8 | Uint16 => 16 | Uint32 => 32 | Uint64 => 64
  | Uint => strconv.IntSize
  end.

(** [convertToInt(value, targetType, fieldName, fieldPos)], for a target
    type of the integer kind [k] *)
Definition convertToInt (value : string) (k : IntKind) (targetType : GoType)
           (fieldName : string) (fieldPos : Z) : result Z :=
  if String.eqb value "" then Ok 0
  else
    let value := Str.TrimSpace value in
    match strconv.ParseInt value (intBitSize k) with
    | inr parsed => Ok parsed
    | inl kind =>
        Err (NewTypeMismatchError fieldName fieldPos value (typeString targetType)
               (ReasonNumError "ParseInt" value kind))
    end.

(** [convertToUint] *)
Definition convertToUint (value : string) (k : UintKind) (targetType : GoType)
           (fieldName : string) (fieldPos : Z) : result Z :=
  if String.eqb value "" then Ok 0
  else
    let value := Str.TrimSpace value in
    match strconv.ParseUint value (uintBitSize k) with
    | inr parsed => Ok parsed
    | inl kind =>
        Err (NewTypeMismatchError fieldName fieldPos value (typeString targetType)
               (ReasonNumError "ParseUint" value kind))
    end.

(** [convertToFloat], for a target type of the given bit size *)
Definition convertToFloat (value : string) (bitSize : Z) (targetType : GoType)
           (fieldName : string) (fieldPos : Z) : result float :=
  if String.eqb value "" then Ok floatZero
  else
    let value := Str.TrimSpace value in
    match ParseFloat value bitSize with
    | inr parsed => Ok parsed
    | inl kind =>
        Err (NewTypeMismatchError fieldName fieldPos value (typeString targetType)
               (ReasonNumError "ParseFloat" value kind))
    end.

(** [convertToBool]; [strings.ToLower] is taken on ASCII letters. *)
Definition convertToBool (value : string) (fieldName : string) (fieldPos : Z)
  : result bool :=
  if String.eqb value "" then Ok false
  else
    let value := Str.TrimSpace (Str.ToLower value) in
    if existsb (String.eqb value) ["true"; "1"; "yes"; "on"; "t"; "y"] then Ok true
    else if existsb (String.eqb value) ["false"; "0"; "no"; "off"; "f"; "n"] then Ok false
    else Err (NewTypeMismatchError fieldName fieldPos value "bool"
                (ReasonText "must be true/false")).

(** The layouts tried after RFC3339 and RFC3339Nano. *)
Definition timeFormats : list string :=
  ["2006-01-02"; "2006-01-02 15:04:05"; "2006-01-02T15:04:05";
   "01/02/2006"; "01/02/2006 15:04:05"].

Fixpoint firstParse (formats : list string) (value : string) : option time :=
  match formats with
  | [] => None
  | format :: rest =>
      match timeParse format value with
      | Some t => Some t
      | None => firstParse rest value
      end
  end.

(** [convertToTime] *)
Definition convertToTime (value : string) (fieldName : string) (fieldPos : Z)
  : result time :=
  if String.eqb value "" then Ok timeZero
  else
    let value := Str.TrimSpace value in
    match firstParse (RFC3339 :: RFC3339Nano :: timeFormats) value with
    | Some t => Ok t
    | None =>
        Err (NewTypeMismatchError fieldName fieldPos value "time.Time"
               (ReasonText "invalid time format"))
    end.

(** [value == "" || strings.EqualFold(value, "null")] *)
Definition isNullText (value : string) : bool :=
  String.eqb value "" || Str.EqualFoldAscii value "null".

(** The invalid wrapper of each kind, [sql.NullX{Valid: false}]. *)
Definition invalidNull (k : NullKind) : goValue :=
  match k with
  | NullString => VNullString "" false
  | NullBool => VNullBool false false
  | NullInt16 => VNullInt16 0 false
  | NullInt32 => VNullInt32 0 false
  | NullInt64 => VNullInt64 0 false
  | NullByte => VNullByte 0 false
  | NullFloat64 => VNullFloat64 floatZero false
  | NullTime => VNullTime timeZero false
  end.

(** The valid wrapper around what the inner kind decodes [value] to. *)
Definition decodeNull (k : NullKind) (value : string) (fieldName : string)
           (fieldPos : Z) : result goValue :=
  match k with
  | NullString => Ok (VNullString value true)
  | NullBool =>
      try parsed <- convertToBool value fieldName fieldPos;
      Ok (VNullBool parsed true)
  | NullInt16 =>
      try parsed <- convertToInt value Int16 (TInt Int16) fieldName fieldPos;
      Ok (VNullInt16 parsed true)
  | NullInt32 =>
      try parsed <- convertToInt value Int32 (TInt Int32) fieldName fieldPos;
      Ok (VNullInt32 parsed true)
  | NullInt64 =>
      try parsed <- convertToInt value Int64 (TInt Int64) fieldName fieldPos;
      Ok (VNullInt64 parsed true)
  | NullByte =>
      try parsed <- convertToUint value Uint8 (TUint Uint8) fieldName fieldPos;
      Ok (VNullByte parsed true)
  | NullFloat64 =>
      try parsed <- convertToFloat value 64 TFloat64 fieldName fieldPos;
      Ok (VNullFloat64 parsed true)
  | NullTime =>
      try parsed <- convertToTime value fieldName fieldPos;
      Ok (VNullTime parsed true)
  end.

(** [convertSQLNull(value, targetType, fieldName, fieldPos)]: [None] when
    the target type is not one of the recognized wrappers (the [handled]
    result is false). *)
Definition convertSQLNull (value : string) (targetType : GoType)
           (fieldName : string) (fieldPos : Z) : option (result goValue) :=
  match targetType with
  | TNull k =>
      Some (if isNullText value then Ok (invalidNull k)
            else decodeNull k value fieldName fieldPos)
  | _ => None
  end.

(** [splitSliceElements(content)] *)
Definition splitSliceElements (content : string) : list string :=
  splitLoop content false false EmptyString [].

(** The element loop of [convertToSlice], over a converter for the
    element type. *)
Fixpoint convertElements (conv : string -> string -> Z -> result goValue)
         (elements : list string) (i : Z) (fieldName : string) (fieldPos : Z)
         (slice : list goValue) : result (list goValue) :=
  match elements with
  | [] => Ok slice
  | elem :: rest =>
      let elem := Str.TrimSpace elem in
      try elemValue <- conv elem (fieldName +:+ "[" +:+ strconv.Itoa i +:+ "]") fieldPos;
      convertElements conv rest (i + 1) fieldName fieldPos (slice ++ [elemValue])
  end.

Definition isOpenBracket (c : ascii) : bool := Ascii.eqb c "[" || Ascii.eqb c "{".
Definition isCloseBracket (c : ascii) : bool := Ascii.eqb c "]" || Ascii.eqb c "}".

(** [convertToSlice], over a converter for the element type *)
Definition convertToSlice (conv : string -> string -> Z -> result goValue)
           (value : string) (targetType elemType : GoType)
           (fieldName : string) (fieldPos : Z) : result goValue :=
  if String.eqb value "" then Ok (VSlice elemType (Some []))
  else
    let value := Str.TrimSpace value in
    let first := match value with String c _ => isOpenBracket c | _ => false end in
    let last := match lastByte value with Some c => isCloseBracket c | None => false end in
    if (Str.len value <? 2) || negb first || negb last
    then Err (NewTypeMismatchError fieldName fieldPos value (typeString targetType)
                (ReasonText
                   "slice must be in [val1,val2,...] or {val1,val2,...} format"))
    else
      let content := Str.slice 1 (Str.len value - 1) value in
      if String.eqb content "" then Ok (VSlice elemType (Some []))
      else
        try slice <- convertElements conv (splitSliceElements content) 0
                       fieldName fieldPos [];
        Ok (VSlice elemType (Some slice)).

(** [ConvertToType(value, targetType, fieldName, fieldPos)] *)
Fixpoint ConvertToType (value : string) (targetType : GoType)
         (fieldName : string) (fieldPos : Z) {struct targetType}
  : result goValue :=
  match targetType with
  | TPtr elemType =>
      (* an empty value for a pointer means nil *)
      if String.eqb value "" then Ok (VPtr elemType None)
      else
        try elemValue <- ConvertToType value elemType fieldName fieldPos;
        Ok (VPtr elemType (Some elemValue))
  | _ =>
      match convertSQLNull value targetType fieldName fieldPos with
      | Some converted => converted
      | None =>
          match targetType with
          | TString => Ok (VString value)
          | TInt k =>
              try n <- convertToInt value k targetType fieldName fieldPos;
              Ok (VInt k n)
          | TUint k =>
              try n <- convertToUint value k targetType fieldName fieldPos;
              Ok (VUint k n)
          | TFloat32 =>
              try x <- convertToFloat value 32 targetType fieldName fieldPos;
              Ok (VFloat32 x)
          | TFloat64 =>
              try x <- convertToFloat value 64 targetType fieldName fieldPos;
              Ok (VFloat64 x)
          | TBool =>
              try b <- convertToBool value fieldName fieldPos; Ok (VBool b)
          | TTime =>
              try t <- convertToTime value fieldName fieldPos; Ok (VTime t)
          | TStruct name methods _ =>
              if implScanner methods then
                match userScan name value with
                | inl msg => Err (NewTypeMismatchError fieldName fieldPos value
                                    (typeString targetType) (ReasonExternal msg))
                | inr v => Ok v
                end
              else if implStringParser methods then
                match userParseString name value with
                | inl msg => Err (NewTypeMismatchError fieldName fieldPos value
                                    (typeString targetType) (ReasonExternal msg))
                | inr v => Ok v
                end
              else Err (NewTypeMismatchError fieldName fieldPos value
                          (typeString targetType)
                          (ReasonText "unsupported struct type"))
          | TSlice elemType =>
              convertToSlice (fun v name pos => ConvertToType v elemType name pos)
                             value targetType elemType fieldName fieldPos
          | _ =>
              Err (NewTypeMismatchError fieldName fieldPos value
                     (typeString targetType) (ReasonText "unsupported type"))
          end
      end
  end.

End Convert.

(** ** types.go: encoding *)

Section Format.

Context {L : GoLib}.

Definition emptyQuoted : string := EscapeString "".

(** [formatSQLNull(v)]: [None] when the value is not one of the recognized
    wrappers. *)
Definition formatSQLNull (v : goValue) : option string :=
  match v with
  | VNullString s valid => Some (if negb valid then "NULL" else EscapeString s)
  | VNullBool b valid =>
      Some (if negb valid then "NULL" else if b then "true" else "false")
  | VNullInt16 n valid | VNullInt32 n valid | VNullInt64 n valid =>
      Some (if negb valid then "NULL" else strconv.FormatInt n)
  | VNullByte n valid => Some (if negb valid then "NULL" else strconv.FormatUint n)
  | VNullFloat64 x valid => Some (if negb valid then "NULL" else FormatFloat x 64)
  | VNullTime t valid =>
      Some (if negb valid then "NULL"
            else if timeIsZero t then emptyQuoted
            else EscapeString (timeFormat t RFC3339))
  | _ => None
  end.

(** [strings.Trim] with the double quote as its cutset *)
Fixpoint trimLeftQuotes (s : string) : string :=
  match s with
  | String c s' => if Ascii.eqb c Bytes.dquote then trimLeftQuotes s' else s
  | EmptyString => s
  end.
Definition trimQuotes (s : string) : string :=
  Str.rev (trimLeftQuotes (Str.rev (trimLeftQuotes s))).

(** The fallback of [formatSlice]: the elements with their encodings. *)
Fixpoint joinElements (elems : list (goValue * res Reason string))
         (elements : list string) : res Reason (list string) :=
  match elems with
  | [] => Ok elements
  | (elem, formatted) :: rest =>
      try formatted <- formatted;
      let formatted := match kindOf (typeOf elem) with
                       | KString => trimQuotes formatted
                       | _ => formatted
                       end in
      joinElements rest (elements ++ [formatted])
  end.

(** [formatSlice(v)], over the encodings of the elements *)
Definition formatSlice (v : goValue) (elems : option (list (goValue * res Reason string)))
  : res Reason string :=
  match elems with
  | None | Some [] => Ok "{}"
  | Some elems =>
      match pqArrayValue v with
      | Some lit => Ok (EscapeString lit)
      | None =>
          try elements <- joinElements elems [];
          Ok ("{" +:+ Str.join "," elements +:+ "}")
      end
  end.

(** The walk of [Marshal] over the sorted positions, with the zero test
    and the encoding of the field at each index precomputed. *)
Section MarshalLoop.

Variable fields : gmap Z FieldInfo.
Variable isZero : nat -> bool.
Variable formatted : nat -> res Reason string.

(** [field.Options.OmitEmpty && IsZeroValue(rv.Field(field.Index))] *)
Definition omitted (field : FieldInfo) : bool :=
  TagOptions.OmitEmpty (FieldInfo.Options field) && isZero (FieldInfo.Index field).

(** The placeholders for the positions skipped since the last value. *)
Definition gapFill (lastIncludedPos pos : Z) : list string :=
  List.concat
    (List.map (fun i => match fields !! i with
                        | Some skipField => if omitted skipField then [] else [emptyQuoted]
                        | None => [emptyQuoted]
                        end)
              (seqZ (lastIncludedPos + 1) (pos - lastIncludedPos - 1))).

Fixpoint marshalLoop (positions : list Z) (values : list string)
         (lastIncludedPos : Z) : result (list string) :=
  match positions with
  | [] => Ok values
  | pos :: rest =>
      match fields !! pos with
      | None => marshalLoop rest values lastIncludedPos
      | Some field =>
          if omitted field then marshalLoop rest values lastIncludedPos
          else
            let values := values ++ gapFill lastIncludedPos pos in
            match formatted (FieldInfo.Index field) with
            | Err reason => Err (MarshalError (FieldInfo.Name field) pos reason)
            | Ok text => marshalLoop rest (values ++ [text]) pos
            end
      end
  end.

End MarshalLoop.

(** The body of [Marshal] once the struct is at hand. *)
Definition marshalStruct (t : GoType) (isZero : nat -> bool)
           (formatted : nat -> res Reason string) : result string :=
  try fields <- GetStructFields t;
  if bool_decide (size fields = 0%nat) then Ok "()"
  else
    try values <- marshalLoop fields isZero formatted (GetSortedPositions fields) [] 0;
    Ok (BuildRowLiteral values).

Definition lookupFormatted (formatted : list (res Reason string)) (i : nat)
  : res Reason string :=
  default (Ok emptyQuoted) (formatted !! i).

(** [FormatValue(v)].  The encodings of the fields of a struct and of the
    elements of a slice are computed by the recursive calls on them, and
    handed to [marshalStruct] and [formatSlice], which read the ones they
    need. *)
Fixpoint FormatValue (v : goValue) : res Reason string :=
  match v with
  | VPtr _ None => Ok emptyQuoted
  | VPtr _ (Some target) => FormatValue target
  | _ =>
      match formatSQLNull v with
      | Some formatted => Ok formatted
      | None =>
          match v with
          | VString s => Ok (EscapeString s)
          | VInt _ n => Ok (strconv.FormatInt n)
          | VUint _ n => Ok (strconv.FormatUint n)
          | VFloat32 x => Ok (FormatFloat x 32)
          | VFloat64 x => Ok (FormatFloat x 64)
          | VBool b => Ok (if b then "true" else "false")
          | VTime t =>
              if timeIsZero t then Ok emptyQuoted
              else Ok (EscapeString (timeFormat t RFC3339))
          | VStruct name methods fields vals =>
              if implValuer methods then
                match userValue v with
                | inl msg => Err (ReasonExternal msg)
                | inr DVNil => Ok emptyQuoted
                | inr (DVText lit) => Ok (EscapeString lit)
                | inr (DVOther printed) => Ok printed
                end
              else if implStringer methods then Ok (EscapeString (userString v))
              else
                match marshalStruct (TStruct name methods fields)
                        (fun i => IsZeroValue (fieldAt vals i))
                        (lookupFormatted (List.map FormatValue vals)) with
                | Ok literal => Ok literal
                | Err _ => Err (ReasonText ("unsupported struct type: " +:+ name))
                end
          | VSlice _ elems =>
              formatSlice v
                (option_map (List.map (fun elem => (elem, FormatValue elem))) elems)
          | _ => Err (ReasonText ("unsupported type: " +:+ typeString (typeOf v)))
          end
      end
  end.

(** [Marshal(v)], for [v] an interface value: [None] is nil. *)
Fixpoint Marshal_deref (v : goValue) : result string :=
  match v with
  | VPtr _ None => Err ErrNilPointer
  | VPtr _ (Some target) => Marshal_deref target
  | VStruct name methods fields vals =>
      marshalStruct (TStruct name methods fields)
        (fun i => IsZeroValue (fieldAt vals i))
        (fun i => FormatValue (fieldAt vals i))
  | VNullString _ _ | VNullBool _ _ | VNullInt16 _ _ | VNullInt32 _ _
  | VNullInt64 _ _ | VNullByte _ _ | VNullFloat64 _ _ | VNullTime _ _ | VTime _ =>
      (* library structs: no field carries a row tag *)
      marshalStruct (typeOf v) (fun _ => false) (fun _ => Ok emptyQuoted)
  | _ => Err ErrNotStruct
  end.

Definition Marshal (v : option goValue) : result string :=
  match v with
  | None => Err ErrNilPointer
  | Some v => Marshal_deref v
  end.

End Format.

(** ** marshaler.go: Unmarshal *)

Section Unmarshal.

Context {L : GoLib}.

(** The order in which a [range] statement visits a map with the given
    keys.  Go leaves it unspecified, and every permutation of the keys
    can occur (see [rangeAdmissible]). *)
Variable rangeOrder : list Z -> list Z.

Definition mapKeys {A} (m : gmap Z A) : list Z := List.map fst (map_to_list m).

(** [for pos, field := range fields { if field.Options.Required { ... } }] *)
Definition requiredFieldsOf (fields : gmap Z FieldInfo) : gmap Z string :=
  List.fold_left
    (fun required pos =>
       match fields !! pos with
       | Some field =>
           if TagOptions.Required (FieldInfo.Options field)
           then <[pos := FieldInfo.Name field]> required
           else required
       | None => required
       end)
    (rangeOrder (mapKeys fields)) ∅.

(** The text decoded for a token: the declared default when the token is
    empty. *)
Definition valueStrOf (field : FieldInfo) (token : Token) : string :=
  if String.eqb (Value token) "" && TagOptions.HasDefault (FieldInfo.Options field)
  then TagOptions.Default (FieldInfo.Options field)
  else Value token.

(** The state of [Unmarshal]: the fields of the target struct, and the
    required fields not yet met. *)
Definition state : Type := list goValue * gmap Z string.

(** The assignment pass over the tokens; [i] is the index of the first
    of [tokens].  Every registered field is exported and the struct is
    reached through a pointer, so [CanSet] holds. *)
Fixpoint assignLoop (fields : gmap Z FieldInfo) (tokens : list Token) (i : Z)
         (st : state) : state * option error :=
  match tokens with
  | [] => (st, None)
  | token :: rest =>
      let pos := i + 1 in
      match fields !! pos with
      | None => assignLoop fields rest (i + 1) st
      | Some field =>
          let requiredFields := delete pos (snd st) in
          match ConvertToType (valueStrOf field token) (FieldInfo.Typ field)
                              (FieldInfo.Name field) pos with
          | Err err => ((fst st, requiredFields), Some err)
          | Ok converted =>
              assignLoop fields rest (i + 1)
                         (<[FieldInfo.Index field := converted]> (fst st), requiredFields)
          end
      end
  end.

(** The pass that applies the defaults of the fields beyond the tokens. *)
Fixpoint defaultsLoop (fields : gmap Z FieldInfo) (ntokens : Z) (order : list Z)
         (st : state) : state * option error :=
  match order with
  | [] => (st, None)
  | pos :: rest =>
      match fields !! pos with
      | Some field =>
          if (ntokens <? pos) && TagOptions.HasDefault (FieldInfo.Options field)
          then
            match ConvertToType (TagOptions.Default (FieldInfo.Options field))
                                (FieldInfo.Typ field) (FieldInfo.Name field) pos with
            | Err err => (st, Some err)
            | Ok converted =>
                defaultsLoop fields ntokens rest
                  (<[FieldInfo.Index field := converted]> (fst st), delete pos (snd st))
            end
          else defaultsLoop fields ntokens rest st
      | None => defaultsLoop fields ntokens rest st
      end
  end.

(** The check for missing required fields: the error names the first
    field that the range over [requiredFields] yields. *)
Definition missingRequired (requiredFields : gmap Z string) : option error :=
  match rangeOrder (mapKeys requiredFields) with
  | pos :: _ =>
      match requiredFields !! pos with
      | Some name =>
          Some (NewValidationError name ""
                  ("required field at position " +:+ strconv.Itoa pos +:+ " is missing"))
      | None => None
      end
  | [] => None
  end.

(** The body of [Unmarshal] once the struct behind the pointer is at
    hand: its type and the values of its fields.  The result is the
    fields after the call, and the error returned. *)
Definition unmarshalStruct (data : string) (t : GoType) (vals : list goValue)
  : list goValue * option error :=
  match ParseRowLiteral data with
  | Err err => (vals, Some err)
  | Ok tokens =>
      match GetStructFields t with
      | Err err => (vals, Some err)
      | Ok fields =>
          match assignLoop fields tokens 0 (vals, requiredFieldsOf fields) with
          | (st, Some err) => (fst st, Some err)
          | (st, None) =>
              match defaultsLoop fields (Z.of_nat (List.length tokens))
                                 (rangeOrder (mapKeys fields)) st with
              | (st, Some err) => (fst st, Some err)
              | (st, None) => (fst st, missingRequired (snd st))
              end
          end
      end
  end.

(** The part common to [Unmarshal] and [UnmarshalStrict]: [v] must be a
    pointer, not nil, to a value of kind struct; [onStruct] continues
    with the type of the struct and the values of its fields. *)
Definition withStructPointer (v : option goValue)
           (onStruct : GoType -> list goValue -> list goValue * option error)
  : option goValue * option error :=
  match v with
  | None => (v, Some ErrNilPointer)
  | Some (VPtr _ None) => (v, Some ErrNilPointer)
  | Some (VPtr elem (Some (VStruct name methods fields vals))) =>
      let '(vals', err) := onStruct (TStruct name methods fields) vals in
      (Some (VPtr elem (Some (VStruct name methods fields vals'))), err)
  | Some (VPtr elem (Some target)) =>
      if isStructKind (typeOf target)
      then (* a library struct: no field carries a row tag *)
        (v, snd (onStruct (typeOf target) []))
      else (v, Some ErrNotStruct)
  | Some _ => (v, Some ErrNotStruct)
  end.

(** [Unmarshal(data, v)]: the value of [v] after the call, and the error. *)
Definition Unmarshal (data : string) (v : option goValue)
  : option goValue * option error :=
  withStructPointer v (unmarshalStruct data).

(** [UnmarshalStrict(data, v)] *)
Definition UnmarshalStrict (data : string) (v : option goValue)
  : option goValue * option error :=
  withStructPointer v
    (fun t vals =>
       match ParseRowLiteral data with
       | Err err => (vals, Some err)
       | Ok tokens =>
           match GetStructFields t with
           | Err err => (vals, Some err)
           | Ok fields =>
               if GetMaxPosition fields <? Z.of_nat (List.length tokens)
               then (vals, Some (NewValidationError "" ""
                                   "row has more values than struct has tagged fields"))
               else unmarshalStruct data t vals
           end
       end).

End Unmarshal.

(** Every permutation of the keys is a possible order of a [range]. *)
Definition rangeAdmissible (rangeOrder : list Z -> list Z) : Prop :=
  forall keys, Permutation (rangeOrder keys) keys.

(** A struct value has one value per declared field. *)
Definition wfStruct {A} (fields : list StructField) (vals : list A) : Prop :=
  List.length vals = List.length fields.

(** *** A library instance for examples

    Floating-point numbers and times are kept as the text they are written
    with; no slice has a PostgreSQL array form and no struct has methods.
    It serves where an example has no float, time, slice or method in it. *)
#[refine] Instance textLib : GoLib := {|
  float := string;
  time := string;
  ParseFloat s _ := if String.eqb s "NULL" then inl ErrSyntax else inr s;
  FormatFloat x _ := if String.eqb x "NULL" then "NaN" else x;
  floatZero := "0";
  floatIsZero x := String.eqb x "0";
  timeParse _ s := Some s;
  timeFormat t _ := t;
  timeIsZero t := String.eqb t "";
  timeIsZeroValue t := String.eqb t "";
  timeZero := "";
  pqArrayValue _ := None;
  userScan _ _ := inl "no Scan method";
  userParseString _ _ := inl "no ParseString method";
  userValue _ := inl "no Value method";
  userString _ := ""
|}.
Proof.
  intros x _. destruct (String.eqb_spec x "NULL") as [->|H]; [discriminate | exact H].
Defined.

(** Two admissible orders: by ascending and by descending key. *)
Definition ascending (keys : list Z) : list Z := merge_sort Z.le keys.
Definition descending (keys : list Z) : list Z := List.rev (merge_sort Z.le keys).

(** *** Vocabulary for the properties of the null wrappers *)

Section NullWrappers.

Context {L : GoLib}.

(** The [Valid] flag of a recognized nullable wrapper. *)
Definition nullValid (v : goValue) : option bool :=
  match v with
  | VNullString _ valid | VNullBool _ valid | VNullInt16 _ valid
  | VNullInt32 _ valid | VNullInt64 _ valid | VNullByte _ valid
  | VNullFloat64 _ valid | VNullTime _ valid => Some valid
  | _ => None
  end.

(** The type of the value a wrapper holds. *)
Definition innerType (k : NullKind) : GoType :=
  match k with
  | NullString => TString
  | NullBool => TBool
  | NullInt16 => TInt Int16
  | NullInt32 => TInt Int32
  | NullInt64 => TInt Int64
  | NullByte => TUint Uint8
  | NullFloat64 => TFloat64
  | NullTime => TTime
  end.

(** The valid wrapper of kind [k] around a value of its inner type. *)
Definition markValid (k : NullKind) (inner : goValue) : goValue :=
  match k, inner with
  | NullString, VString s => VNullString s true
  | NullBool, VBool b => VNullBool b true
  | NullInt16, VInt _ n => VNullInt16 n true
  | NullInt32, VInt _ n => VNullInt32 n true
  | NullInt64, VInt _ n => VNullInt64 n true
  | NullByte, VUint _ n => VNullByte n true
  | NullFloat64, VFloat64 x => VNullFloat64 x true
  | NullTime, VTime t => VNullTime t true
  | _, _ => inner
  end.

End NullWrappers.

(** A record with two required fields, and one with a nullable string. *)
Definition requiredPair : GoType :=
  TStruct "Pair" noMethods
    [StructField.mk "A" true (Some "1,required") TString;
     StructField.mk "B" true (Some "2,required") TString].

Definition nullableName : GoType :=
  TStruct "Named" noMethods [StructField.mk "Name" true (Some "1") (TNull NullString)].

(** [&T{...}] for a struct type [T] and the values of its fields. *)
Definition pointerTo {L : GoLib} (t : GoType) (vals : list goValue) : option goValue :=
  match t with
  | TStruct name methods fields => Some (VPtr t (Some (VStruct name methods fields vals)))
  | _ => None
  end.

(** An error of the value converter for the field at position [pos]. *)
Definition mismatchAt (pos : Z) (e : error) : Prop :=
  exists fieldName value expected reason,
    e = TypeMismatchError fieldName pos value expected reason.

(** *** Vocabulary for the round trip of a record *)

(** The number denoted by the decimal digits [d] read after the number
    [acc]. *)
Fixpoint digitsValue (d : Decimal.uint) (acc : Z) : Z :=
  match d with
  | Decimal.Nil => acc
  | Decimal.D0 d => digitsValue d (acc * 10 + 0)
  | Decimal.D1 d => digitsValue d (acc * 10 + 1)
  | Decimal.D2 d => digitsValue d (acc * 10 + 2)
  | Decimal.D3 d => digitsValue d (acc * 10 + 3)
  | Decimal.D4 d => digitsValue d (acc * 10 + 4)
  | Decimal.D5 d => digitsValue d (acc * 10 + 5)
  | Decimal.D6 d => digitsValue d (acc * 10 + 6)
  | Decimal.D7 d => digitsValue d (acc * 10 + 7)
  | Decimal.D8 d => digitsValue d (acc * 10 + 8)
  | Decimal.D9 d => digitsValue d (acc * 10 + 9)
  end.

(** The values of a signed and of an unsigned integer type of the given
    size. *)
Definition intInRange (bitSize : Z) (n : Z) : bool :=
  (- 2 ^ (bitSize - 1) <=? n) && (n <? 2 ^ (bitSize - 1)).
Definition uintInRange (bitSize : Z) (n : Z) : bool :=
  (0 <=? n) && (n <? 2 ^ bitSize).

Section RoundTrip.

Context {L : GoLib}.

Definition boolText (b : bool) : string := if b then "true" else "false".

(** The text that stands for a value of a string, boolean or integer
    kind, or for a wrapper around one, before it is quoted. *)
Definition textOf (v : goValue) : string :=
  match v with
  | VString s => s
  | VBool b => boolText b
  | VInt _ n => strconv.FormatInt n
  | VUint _ n => strconv.FormatUint n
  | VNullString s valid => if valid then s else "NULL"
  | VNullBool b valid => if valid then boolText b else "NULL"
  | VNullInt16 n valid | VNullInt32 n valid | VNullInt64 n valid =>
      if valid then strconv.FormatInt n else "NULL"
  | VNullByte n valid => if valid then strconv.FormatUint n else "NULL"
  | _ => ""
  end.

(** The values of a field that a row gives back unchanged: a string (not
    the empty one where the tag declares a default, which would replace
    it), a boolean, an integer within the range of its type, the zero
    invalid wrapper, and a valid wrapper around a string that is neither
    empty nor a spelling of null, a boolean or an integer in range. *)
Definition roundTrips (hasDefault : bool) (v : goValue) : bool :=
  match v with
  | VString s => negb (hasDefault && String.eqb s "")
  | VBool _ => true
  | VInt k n => intInRange (intBitSize k) n
  | VUint k n => uintInRange (uintBitSize k) n
  | VNullString s valid => if valid then negb (isNullText s) else String.eqb s ""
  | VNullBool b valid => valid || negb b
  | VNullInt16 n valid => if valid then intInRange 16 n else n =? 0
  | VNullInt32 n valid => if valid then intInRange 32 n else n =? 0
  | VNullInt64 n valid => if valid then intInRange 64 n else n =? 0
  | VNullByte n valid => if valid then uintInRange 8 n else n =? 0
  | _ => false
  end.

(** The element written for the field at a position, and the text it
    stands for. *)
Definition encodingAt (fields : gmap Z FieldInfo) (vals : list goValue) (pos : Z)
  : string :=
  match fields !! pos with
  | Some field =>
      match FormatValue (fieldAt vals (FieldInfo.Index field)) with
      | Ok encoded => encoded
      | Err _ => ""
      end
  | None => ""
  end.

Definition textAt (fields : gmap Z FieldInfo) (vals : list goValue) (pos : Z)
  : string :=
  match fields !! pos with
  | Some field => textOf (fieldAt vals (FieldInfo.Index field))
  | None => ""
  end.

(** The tagged fields sit at the positions [1..n]. *)
Definition contiguous (fields : gmap Z FieldInfo) (n : Z) : Prop :=
  forall pos, is_Some (fields !! pos) <-> 1 <= pos <= n.

(** No tagged field is the [i]-th field of the struct. *)
Definition untagged (fields : gmap Z FieldInfo) (i : nat) : Prop :=
  forall pos field, fields !! pos = Some field -> FieldInfo.Index field <> i.

(** The field at every position is written always, and holds a value of
    its type that a row gives back unchanged. *)
Definition roundTripFields (fields : gmap Z FieldInfo) (vals : list goValue) : Prop :=
  forall pos field,
    fields !! pos = Some field ->
    TagOptions.OmitEmpty (FieldInfo.Options field) = false
    /\ exists v,
         vals !! FieldInfo.Index field = Some v
         /\ typeOf v = FieldInfo.Typ field
         /\ roundTrips (TagOptions.HasDefault (FieldInfo.Options field)) v = true.

End RoundTrip.

(** The layout of a struct type, and the tokens of a row. *)
Definition layoutOf (t : GoType) : gmap Z FieldInfo :=
  match GetStructFields t with
  | Ok fields => fields
  | Err _ => ∅
  end.

Definition tokensOf (data : string) : list Token :=
  match ParseRowLiteral data with
  | Ok tokens => tokens
  | Err _ => []
  end.

(** A record with a string, an integer, a boolean with a default and a
    nullable string at the positions 1 to 4, and a field without a tag;
    a value of it, and the target it is read into. *)
Definition memberFields : list StructField :=
  [StructField.mk "Name" true (Some "1") TString;
   StructField.mk "Age" true (Some "2") (TInt Int);
   StructField.mk "Active" true (Some "3,default=true") TBool;
   StructField.mk "Nick" true (Some "4") (TNull NullString);
   StructField.mk "Note" true None TString].

Definition memberStruct : GoType := TStruct "Member" noMethods memberFields.

Definition memberValues : list (@GoValue string string) :=
  [VString "Ann, the (first)"; VInt Int (-42); VBool false; VNullString "" false;
   VString "kept"].

Definition memberFresh : list (@GoValue string string) :=
  [VString ""; VInt Int 0; VBool false; VNullString "" false; VString "kept"].

(** The fields of an address before and after the row [(x,y,z)] is read
    into it. *)
Definition addressBefore : list (@GoValue string string) :=
  [VString "a"; VString "b"; VInt Int 7].
Definition addressAfter : list (@GoValue string string) :=
  [VString "x"; VString "y"; VInt Int 7].

(** Records with one tagged field: a string with a default, and a pointer
    to a string; and a record with a field that carries no tag. *)
Definition defaultTitle : GoType :=
  TStruct "Titled" noMethods
    [StructField.mk "Title" true (Some "1,default=untitled") TString].

Definition optionalName : GoType :=
  TStruct "Optional" noMethods [StructField.mk "Name" true (Some "1") (TPtr TString)].

Definition notedName : GoType :=
  TStruct "Noted" noMethods
    [StructField.mk "Name" true (Some "1") TString;
     StructField.mk "Note" true None TString].

(** ** templates/pgx/pgx.go: the SQL builder *)

Module pgx.

Module Field.
(** [Field] is a field template. *)
Record t := mk {
  GoName     : string;
  SQLName    : string;
  Typ        : string;
  Zero       : string;
  IsPrimary  : bool;
  IsSequence : bool;
  Comment    : string
}.
End Field.
Abbreviation Field := Field.t.

Module Table.
(** [Table] is a type (table, view or custom query) template. *)
Record t := mk {
  Typ         : string;
  GoName      : string;
  SQLName     : string;
  PrimaryKeys : list Field;
  Fields      : list Field;
  Manual      : bool;
  Comment     : string
}.
End Table.
Abbreviation Table := Table.t.

(** The argument of a template helper, a Go [any]. *)
Inductive any :=
| AnyTable (x : Table)
| AnyOther (typeName : string).

Module Funcs.
(** The part of the template function set that the SQL helpers read. *)
Record t := mk {
  driver    : string;
  schema    : string;
  nth       : Z -> string;
  escSchema : bool;
  escTable  : bool;
  escColumn : bool
}.
End Funcs.
Abbreviation Funcs := Funcs.t.

(** Modelled from the spec: the placeholder function [loader.NthParam]
    installed in [Funcs.nth], which lives outside these sources.
    "Placeholder numbering uses [$n] (1-based) assigned in column order";
    the argument is the 0-based index. *)
Definition NthParam (i : Z) : string := "$" +:+ strconv.Itoa (i + 1).

Section Helpers.

Variable f : Funcs.

Definition quoted (s : string) : string :=
  Str.single Bytes.dquote +:+ s +:+ Str.single Bytes.dquote.

(** [schemafn(names...)] *)
Definition schemafn (names : list string) : string :=
  let s := Funcs.schema f in
  let n := Str.join "." names in
  if String.eqb s "" && String.eqb n "" then ""
  else if String.eqb (Funcs.driver f) "sqlite3" then n
  else if negb (String.eqb s "") && negb (String.eqb n "") && Funcs.escSchema f
  then quoted s +:+ "." +:+ quoted n
  else if negb (String.eqb s "") && negb (String.eqb n "")
  then s +:+ "." +:+ n
  else if Funcs.escSchema f then quoted n
  else n.

(** [colname(field)] *)
Definition colname (field : Field) : string :=
  if Funcs.escColumn f then quoted (Field.SQLName field) else Field.SQLName field.

(** The loop of [sqlstr_insert_base]: column names and placeholders. *)
Fixpoint insertLoop (all : bool) (fs : list Field) (n : Z)
         (fields vals : list string) : list string * list string :=
  match fs with
  | [] => (fields, vals)
  | field :: rest =>
      if Field.IsSequence field && negb all
      then insertLoop all rest n fields vals
      else insertLoop all rest (n + 1)
                      (fields ++ [colname field]) (vals ++ [Funcs.nth f n])
  end.

(** [sqlstr_insert_base(all, t)] *)
Definition sqlstr_insert_base (all : bool) (t : Table) : list string :=
  let '(fields, vals) := insertLoop all (Table.Fields t) 0 [] [] in
  [ "INSERT INTO " +:+ schemafn [Table.SQLName t] +:+ " (";
    Str.join ", " fields +:+ ") ";
    "VALUES (" +:+ Str.join ", " vals +:+ ")" ].

(** [hasSequence(t)] *)
Definition hasSequence (t : Table) : bool := existsb Field.IsSequence (Table.Fields t).

(** [seqField(t)] *)
Definition seqField (t : Table) : Field :=
  match List.find Field.IsSequence (Table.Fields t) with
  | Some field => field
  | None => Field.mk "" "" "" "" false false ""
  end.

Definition unsupported (n : string) (typeName : string) : string :=
  "[[ UNSUPPORTED TYPE " +:+ n +:+ ": " +:+ typeName +:+ " ]]".

(** [sqlstr_insert(v)] *)
Definition sqlstr_insert (v : any) : list string :=
  match v with
  | AnyTable x =>
      let lines := sqlstr_insert_base false x in
      if hasSequence x
      then lines ++ [" RETURNING " +:+ colname (seqField x)]
      else lines
  | AnyOther ty => [unsupported "19" ty]
  end.

(** The loop of [sqlstr_update_base]. *)
Fixpoint updateLoop (prefix : string) (fs : list Field) (n : Z)
         (fields : list string) : Z * list string :=
  match fs with
  | [] => (n, fields)
  | field :: rest =>
      if Field.IsPrimary field then updateLoop prefix rest n fields
      else
        let val := if negb (String.eqb prefix "")
                   then prefix +:+ Field.SQLName field
                   else Funcs.nth f n in
        updateLoop prefix rest (n + 1) (fields ++ [colname field +:+ " = " +:+ val])
  end.

(** [sqlstr_update_base(prefix, v)] *)
Definition sqlstr_update_base (prefix : string) (v : any) : Z * list string :=
  match v with
  | AnyTable x =>
      let '(n, fields) := updateLoop prefix (Table.Fields x) 0 [] in
      (n, [ "UPDATE " +:+ schemafn [Table.SQLName x] +:+ " SET ";
            Str.join ", " fields +:+ " " ])
  | AnyOther ty => (0, [unsupported "20" ty])
  end.

(** [for i, z := range keys { list = append(list, colname(z) = nth(n+i)) }] *)
Definition keyConditions (n : Z) (keys : list Field) : list string :=
  imap (fun i z => colname z +:+ " = " +:+ Funcs.nth f (n + Z.of_nat i)) keys.

(** [sqlstr_update(v)] *)
Definition sqlstr_update (v : any) : list string :=
  match v with
  | AnyTable x =>
      let '(n, lines) := sqlstr_update_base "" v in
      lines ++ ["WHERE " +:+ Str.join " AND " (keyConditions n (Table.PrimaryKeys x))]
  | AnyOther ty => [unsupported "21" ty]
  end.

(** [sqlstr_upsert(v)] *)
Definition sqlstr_upsert (v : any) : list string :=
  match v with
  | AnyTable x =>
      let lines := sqlstr_insert_base true x in
      let conflicts := List.map Field.SQLName (Table.PrimaryKeys x) in
      let lines := lines ++ [" ON CONFLICT (" +:+ Str.join ", " conflicts +:+ ") DO "] in
      let '(_, update) := sqlstr_update_base "EXCLUDED." (AnyTable x) in
      let lines := if (1 <? Z.of_nat (List.length update))
                   then lines ++ List.tl update else lines in
      if hasSequence x
      then lines ++ [" RETURNING " +:+ colname (seqField x)]
      else lines
  | AnyOther ty => [unsupported "22" ty]
  end.

(** [sqlstr_delete(v)] *)
Definition sqlstr_delete (v : any) : list string :=
  match v with
  | AnyTable x =>
      [ "DELETE FROM " +:+ schemafn [Table.SQLName x] +:+ " ";
        "WHERE " +:+ Str.join " AND " (keyConditions 0 (Table.PrimaryKeys x)) ]
  | AnyOther ty => [unsupported "23" ty]
  end.

(** The SQL text that the lines of a statement concatenate to. *)
Definition sqlText (lines : list string) : string := Str.join "" lines.

End Helpers.

(** *** Vocabulary for the properties of the SQL builder *)

Definition nonSequence (t : Table) : list Field :=
  List.filter (fun c => negb (Field.IsSequence c)) (Table.Fields t).

Definition nonPrimary (t : Table) : list Field :=
  List.filter (fun c => negb (Field.IsPrimary c)) (Table.Fields t).

(** [[$(from+1); ...; $(from+count)]] *)
Definition placeholders (from : Z) (count : nat) : list string :=
  List.map (fun i => "$" +:+ strconv.Itoa (from + Z.of_nat i + 1)) (seq 0 count).

(** [[c1 = x1; c2 = x2; ...]] *)
Definition assignments (cols vals : list string) : list string :=
  List.map (fun cv => fst cv +:+ " = " +:+ snd cv) (List.combine cols vals).

Definition mkColumn (name ty : string) (primary sequence : bool) : Field :=
  Field.mk name name ty "" primary sequence "".

(** The table [books] of scenario S5, as the generator receives it. *)
Definition booksTable : Table :=
  let book_id := mkColumn "book_id" "int" true true in
  Table.mk "table" "Book" "books" [book_id]
    [ book_id;
      mkColumn "author_id" "int" false false;
      mkColumn "title" "string" false false;
      mkColumn "published_year" "int16" false false;
      mkColumn "isbn" "string" false false;
      mkColumn "price" "float64" false false ]
    false "".

Definition postgres : Funcs := Funcs.mk "postgres" "" NthParam false false false.

End pgx.

(** ** templates/pgx/pgx.go: the emission planner *)

(** The schema description handed over by the loader (package [xo]); only
    what decides the destination files is kept. *)
Module xo.

Module Enum.
Record t := mk { Name : string }.
End Enum.

Module Proc.
Record t := mk { Typ : string; Name : string }.
End Proc.

Module Index.
Record t := mk { Name : string }.
End Index.

Module ForeignKey.
Record t := mk { Name : string }.
End ForeignKey.

Module Table.
Record t := mk {
  Typ         : string;
  Name        : string;
  Indexes     : list Index.t;
  ForeignKeys : list ForeignKey.t
}.
End Table.

Module Query.
Record t := mk { Typ : string }.
End Query.

Module Schema.
Record t := mk {
  Enums  : list Enum.t;
  Procs  : list Proc.t;
  Tables : list Table.t;
  Views  : list Table.t
}.
End Schema.

Module Set_.
Record t := mk {
  Schemas : list Schema.t;
  Queries : list Query.t
}.
End Set_.

Module Template.
(** [xo.Template] without its [Data]. *)
Record t := mk {
  Partial  : string;
  Dest     : string;
  SortType : string;
  SortName : string
}.
End Template.

End xo.

Module planner.

Definition ext : string := ".dbtpl.go".

(** [strings.LastIndex(s, "_")] *)
Fixpoint lastUnderscore (s : string) (i : Z) (found : option Z) : option Z :=
  match s with
  | EmptyString => found
  | String c s' =>
      lastUnderscore s' (i + 1) (if Ascii.eqb c "_" then Some i else found)
  end.

Section Names.

(** [snaker.ForceCamelIdentifier] and [inflector.Singularize], two
    functions of third-party packages. *)
Variable ForceCamelIdentifier : string -> string.
Variable Singularize : string -> string.

(** [camelExport(names...)] *)
Definition camelExport (names : list string) : string :=
  ForceCamelIdentifier (Str.join "_" names).

(** [singularize(s)] *)
Definition singularize (s : string) : string :=
  match lastUnderscore s 0 None with
  | Some i => Str.slice 0 (i + 1) s +:+ Singularize (Str.slice (i + 1) (Str.len s) s)
  | None => Singularize s
  end.

Definition procPrefix (typ : string) : string :=
  if String.eqb typ "function" then "sf_" else "sp_".

(** The procs of [fileNames]: one file per Go name, named after the
    first proc that has it. *)
Fixpoint procFileNames (ps : list xo.Proc.t) (procs : gmap string bool)
         (files : list string) : list string :=
  match ps with
  | [] => files
  | p :: rest =>
      let name := camelExport [xo.Proc.Name p] in
      if negb (default false (procs !! name))
      then procFileNames rest (<[name := true]> procs)
             (files ++ [procPrefix (xo.Proc.Typ p) +:+ Str.ToLower name +:+ ext])
      else procFileNames rest procs files
  end.

Definition schemaFileNames (schema : xo.Schema.t) : list string :=
  let enums :=
    List.map (fun e => Str.ToLower (camelExport [xo.Enum.Name e]) +:+ ext)
             (xo.Schema.Enums schema) in
  let tables :=
    List.map (fun t => Str.ToLower (camelExport [singularize (xo.Table.Name t)]) +:+ ext)
             (xo.Schema.Tables schema ++ xo.Schema.Views schema) in
  enums ++ procFileNames (xo.Schema.Procs schema) ∅ [] ++ tables.

(** [fileNames(ctx, mode, set)]; the error it returns is always nil. *)
Definition fileNames (mode : string) (set : xo.Set_.t) : list string :=
  if String.eqb mode "schema"
  then List.concat (List.map schemaFileNames (xo.Set_.Schemas set))
  else if String.eqb mode "query"
  then List.map (fun q => Str.ToLower (camelExport [xo.Query.Typ q]) +:+ ext)
                (xo.Set_.Queries set)
  else [].

(** The part of the converted [Proc] that the planner reads. *)
Record Proc := mkProc {
  procTyp     : string;
  procGoName  : string;
  procSQLName : string
}.

(** [convertProc], on the overload map and the order of first sight. *)
Definition convertProc (st : gmap string (list Proc) * list string)
           (proc : xo.Proc.t) : gmap string (list Proc) * list string :=
  let '(overloadMap, procOrder) := st in
  let name := camelExport [xo.Proc.Name proc] in
  let procOrder := match overloadMap !! name with
                   | Some _ => procOrder
                   | None => procOrder ++ [name]
                   end in
  (<[name := default [] (overloadMap !! name)
             ++ [mkProc (xo.Proc.Typ proc) name (xo.Proc.Name proc)]]> overloadMap,
   procOrder).

Definition emitProc (overloadMap : gmap string (list Proc)) (name : string)
  : xo.Template.t :=
  let procs := default [] (overloadMap !! name) in
  let prefix := procPrefix (match procs with p :: _ => procTyp p | [] => "" end) in
  xo.Template.mk "procs" (prefix +:+ Str.ToLower name +:+ ext) "" (prefix +:+ name).

Definition emitEnum (e : xo.Enum.t) : xo.Template.t :=
  let goName := camelExport [xo.Enum.Name e] in
  xo.Template.mk "enum" (Str.ToLower goName +:+ ext) "" goName.

(** The templates emitted for one table: the type definition, then one
    per index and one per foreign key, all to the file of the table. *)
Definition emitTable (t : xo.Table.t) : list xo.Template.t :=
  let typ := if String.eqb (xo.Table.Typ t) "" then "table" else xo.Table.Typ t in
  let goName := camelExport [singularize (xo.Table.Name t)] in
  let dest := Str.ToLower goName +:+ ext in
  xo.Template.mk "typedef" dest typ goName
  :: List.map (fun i => xo.Template.mk "index" dest typ (xo.Index.Name i))
              (xo.Table.Indexes t)
  ++ List.map (fun fk => xo.Template.mk "foreignkey" dest typ (xo.ForeignKey.Name fk))
              (xo.Table.ForeignKeys t).

(** [emitSchema(ctx, schema, emit)]: the templates passed to [emit], in
    order.  None of the conversions it runs can fail: [pgxGoType]
    returns a nil error on every path. *)
Definition emitSchema (schema : xo.Schema.t) : list xo.Template.t :=
  let enums := List.map emitEnum (xo.Schema.Enums schema) in
  let '(overloadMap, procOrder) :=
    List.fold_left convertProc (xo.Schema.Procs schema) (∅, []) in
  let procs := List.map (emitProc overloadMap) procOrder in
  let tables :=
    List.concat (List.map emitTable (xo.Schema.Tables schema ++ xo.Schema.Views schema)) in
  enums ++ procs ++ tables.

(** *** Vocabulary for the properties of the planner *)

(** The destination of everything emitted for a table. *)
Definition tableDest (t : xo.Table.t) : string :=
  Str.ToLower (camelExport [singularize (xo.Table.Name t)]) +:+ ext.

Definition enumDest (e : xo.Enum.t) : string :=
  Str.ToLower (camelExport [xo.Enum.Name e]) +:+ ext.

(** The destination of the group of a proc: named after the Go name,
    prefixed after the kind of the first proc of the group. *)
Definition procDest (first : xo.Proc.t) : string :=
  procPrefix (xo.Proc.Typ first)
  +:+ Str.ToLower (camelExport [xo.Proc.Name first]) +:+ ext.

(** The first proc of the schema with the Go name of [p]. *)
Definition groupLeader (procs : list xo.Proc.t) (p : xo.Proc.t) : option xo.Proc.t :=
  List.find (fun q => String.eqb (camelExport [xo.Proc.Name q])
                                 (camelExport [xo.Proc.Name p])) procs.

(** What the overload map and the order of first sight hold once the
    procs [seen] have been converted. *)
Definition grouped (seen : list xo.Proc.t)
           (st : gmap string (list Proc) * list string) : Prop :=
  (forall name, In name (snd st) <-> is_Some (fst st !! name))
  /\ (forall name, is_Some (fst st !! name) <-> is_Some (List.find (fun q => String.eqb (camelExport [xo.Proc.Name q]) name) seen))
  /\ (forall name procs first,
         fst st !! name = Some procs -> List.find (fun q => String.eqb (camelExport [xo.Proc.Name q]) name) seen = Some first ->
         exists rest, procs = mkProc (xo.Proc.Typ first) name (xo.Proc.Name first) :: rest).

End Names.

(** *** Two simple name mappers, for examples

    They agree with the third-party functions on lower-case snake
    identifiers none of whose words is a registered initialism and whose
    last word is a regular plural. *)

(** Drop one final [s]. *)
Definition singularizeRegular (s : string) : string :=
  match Str.rev s with
  | String "s" r => Str.rev r
  | _ => s
  end.

Fixpoint camelWords (s : string) (startOfWord : bool) : string :=
  match s with
  | EmptyString => EmptyString
  | String c s' =>
      if Ascii.eqb c "_" then camelWords s' true
      else String (if startOfWord then Bytes.toUpper c else Bytes.toLower c)
                  (camelWords s' false)
  end.

(** Capitalise every word and drop the underscores. *)
Definition camelPlain (s : string) : string := camelWords s true.

(** A schema with the join table [book_tags] and the table [books]. *)
Definition bookSchema : xo.Schema.t :=
  xo.Schema.mk
    [xo.Enum.mk "book_status"]
    [xo.Proc.mk "function" "say_hello"; xo.Proc.mk "procedure" "archive_books"]
    [xo.Table.mk "table" "books" [xo.Index.mk "books_isbn_key"] [];
     xo.Table.mk "table" "book_tags" [] [xo.ForeignKey.mk "book_tags_book_id_fkey"]]
    [].

End planner.

(** ** marshaler.go: the remaining entry points *)

(** [Valid(data)] *)
Definition Valid (data : string) : bool :=
  match ParseRowLiteral data with
  | Ok _ => true
  | Err _ => false
  end.

(** [TokenCount(data)] *)
Definition TokenCount (data : string) : Z :=
  match ParseRowLiteral data with
  | Ok tokens => Z.of_nat (List.length tokens)
  | Err _ => -1
  end.

(** The bytes that [EscapeString] replaces by a two-byte escape sequence
    whose second byte is a letter or a digit. *)
Definition controlByte (c : ascii) : bool :=
  Ascii.eqb c Bytes.newline || Ascii.eqb c Bytes.creturn || Ascii.eqb c Bytes.tab
  || Ascii.eqb c Bytes.nul.

(** [MarshalOptions] *)
Module MarshalOptions.
Record t := mk {
  IncludeEmpty : bool;   (* include zero-value fields even with omitempty *)
  FillGaps     : bool    (* include empty values for gaps in the positions *)
}.
End MarshalOptions.
Abbreviation MarshalOptions := MarshalOptions.t.

Section MarshalWith.

Context {L : GoLib}.

Section Loop.

Variable fields : gmap Z FieldInfo.
Variable isZero : nat -> bool.
Variable formatted : nat -> res Reason string.
Variable opts : MarshalOptions.

(** [if opts.FillGaps { values = append(values, `""`) }] *)
Definition fillGap (values : list string) : list string :=
  if MarshalOptions.FillGaps opts then values ++ [emptyQuoted] else values.

(** The loop of [MarshalWith] over the positions [1..maxPos]. *)
Fixpoint marshalWithLoop (positions : list Z) (values : list string)
  : result (list string) :=
  match positions with
  | [] => Ok values
  | pos :: rest =>
      match fields !! pos with
      | None => marshalWithLoop rest (fillGap values)
      | Some field =>
          if negb (MarshalOptions.IncludeEmpty opts)
             && TagOptions.OmitEmpty (FieldInfo.Options field)
             && isZero (FieldInfo.Index field)
          then marshalWithLoop rest (fillGap values)
          else
            match formatted (FieldInfo.Index field) with
            | Err reason => Err (MarshalError (FieldInfo.Name field) pos reason)
            | Ok text => marshalWithLoop rest (values ++ [text])
            end
      end
  end.

End Loop.

(** The body of [MarshalWith] once the struct is at hand. *)
Definition marshalWithStruct (t : GoType) (isZero : nat -> bool)
           (formatted : nat -> res Reason string) (opts : MarshalOptions)
  : result string :=
  try fields <- GetStructFields t;
  if bool_decide (size fields = 0%nat) then Ok "()"
  else
    try values <- marshalWithLoop fields isZero formatted opts
                    (seqZ 1 (GetMaxPosition fields)) [];
    Ok (BuildRowLiteral values).

(** [MarshalWith(v, opts)], for [v] an interface value: [None] is nil. *)
Fixpoint MarshalWith_deref (v : goValue) (opts : MarshalOptions) : result string :=
  match v with
  | VPtr _ None => Err ErrNilPointer
  | VPtr _ (Some target) => MarshalWith_deref target opts
  | VStruct name methods fields vals =>
      marshalWithStruct (TStruct name methods fields)
        (fun i => IsZeroValue (fieldAt vals i))
        (fun i => FormatValue (fieldAt vals i)) opts
  | VNullString _ _ | VNullBool _ _ | VNullInt16 _ _ | VNullInt32 _ _
  | VNullInt64 _ _ | VNullByte _ _ | VNullFloat64 _ _ | VNullTime _ _ | VTime _ =>
      (* library structs: no field carries a row tag *)
      marshalWithStruct (typeOf v) (fun _ => false) (fun _ => Ok emptyQuoted) opts
  | _ => Err ErrNotStruct
  end.

Definition MarshalWith (v : option goValue) (opts : MarshalOptions) : result string :=
  match v with
  | None => Err ErrNilPointer
  | Some v => MarshalWith_deref v opts
  end.

(** *** Vocabulary for the properties of [MarshalWith] *)

(** Whether the field is left out for being empty. *)
Definition leftOut (vals : list goValue) (field : FieldInfo) : bool :=
  TagOptions.OmitEmpty (FieldInfo.Options field)
  && IsZeroValue (fieldAt vals (FieldInfo.Index field)).

(** What stands at a position of a row written with [FillGaps] and
    without [IncludeEmpty]. *)
Definition slotAt (fields : gmap Z FieldInfo) (vals : list goValue) (pos : Z)
  : string :=
  match fields !! pos with
  | None => emptyQuoted
  | Some field =>
      if leftOut vals field then emptyQuoted
      else match FormatValue (fieldAt vals (FieldInfo.Index field)) with
           | Ok text => text
           | Err _ => ""
           end
  end.

End MarshalWith.

(** A record with a gap at position 2 and an omitempty field at position 3,
    with that field zero and with it set. *)
Definition sparseFields : list StructField :=
  [StructField.mk "A" true (Some "1") TString;
   StructField.mk "C" true (Some "3,omitempty") (TInt Int)].

Definition sparseStruct : GoType := TStruct "Sparse" noMethods sparseFields.

Definition sparseZero : list (@GoValue string string) := [VString "a"; VInt Int 0].
Definition sparseSet : list (@GoValue string string) := [VString "a"; VInt Int 5].

(** *** PostgreSQL's quoting of a field of a composite value

    The server writes a field that needs quoting between double quotes,
    with every double quote and every backslash of the value doubled. *)
Fixpoint pgBytes (s : string) : string :=
  match s with
  | EmptyString => EmptyString
  | String ch s' =>
      (if Ascii.eqb ch Bytes.dquote then String Bytes.dquote (Str.single Bytes.dquote)
       else if Ascii.eqb ch Bytes.backslash
       then String Bytes.backslash (Str.single Bytes.backslash)
       else Str.single ch) +:+ pgBytes s'
  end.

Definition pgQuote (s : string) : string :=
  String Bytes.dquote (pgBytes s +:+ Str.single Bytes.dquote).

(** *** Vocabulary for the errors of the entry points *)

Definition isParseError (e : error) : Prop :=
  exists pos msg input, e = ParseError pos msg input.

Definition isValidationError (e : error) : Prop :=
  exists name tagValue msg, e = ValidationError name tagValue msg.

Definition isMarshalError (e : error) : Prop :=
  exists name pos reason, e = MarshalError name pos reason.

Definition isTypeMismatchError (e : error) : Prop :=
  exists name pos value expected reason,
    e = TypeMismatchError name pos value expected reason.

(** *** Vocabulary for the layout of a struct *)

(** The entry that [GetStructFields] registers for the [i]-th field of a
    struct: none for a field that is not exported, has no row tag, or has
    the tag [-]. *)
Definition registered (i : nat) (field : StructField) : option FieldInfo :=
  if StructField.Exported field then
    match StructField.Tag field with
    | Some tagValue =>
        if String.eqb tagValue "-" then None
        else match ParseTag tagValue with
             | Ok opts =>
                 Some (FieldInfo.mk (StructField.Name field) i (StructField.Typ field)
                                    opts true)
             | Err _ => None
             end
    | None => None
    end
  else None.

(** [fields] holds, under their positions, exactly the entries registered
    for the fields [sfields]. *)
Definition layoutOf_fields (sfields : list StructField) (fields : gmap Z FieldInfo)
  : Prop :=
  forall pos info,
    fields !! pos = Some info
    <-> exists sf,
          sfields !! FieldInfo.Index info = Some sf
          /\ registered (FieldInfo.Index info) sf = Some info
          /\ TagOptions.Position (FieldInfo.Options info) = pos.

(** The two maps of [GetStructFields], the layout and the names by
    position, have the same keys. *)
Definition sameKeys (st : gmap Z FieldInfo * gmap Z string) : Prop :=
  forall p, is_Some (fst st !! p) <-> is_Some (snd st !! p).

(** A byte that the splitters of tags and of slice elements copy without
    changing their state: neither a comma, a double quote nor a
    backslash. *)
Definition partByte (c : ascii) : bool :=
  negb (Ascii.eqb c Bytes.comma) && negb (Ascii.eqb c Bytes.dquote)
  && negb (Ascii.eqb c Bytes.backslash).

(** A part: a non-empty string of such bytes. *)
Definition isPart (s : string) : bool :=
  negb (String.eqb s "") && Str.forallb partByte s.

(** ** templates/pgx/pgx.go: the remaining statements of the SQL builder *)

Module pgxsql.

Import pgx.

Module Index.
(** [Index] is an index template. *)
Record t := mk {
  SQLName   : string;
  Func      : string;
  Table     : pgx.Table;
  Fields    : list pgx.Field;
  IsUnique  : bool;
  IsPrimary : bool;
  Comment   : string
}.
End Index.

Module Proc.
(** [Proc] is a stored procedure template. *)
Record t := mk {
  Typ            : string;
  GoName         : string;
  OverloadedName : string;
  SQLName        : string;
  Signature      : string;
  Params         : list pgx.Field;
  Returns        : list pgx.Field;
  Void           : bool;
  Overloaded     : bool;
  Comment        : string
}.
End Proc.

(** The argument of [sqlstr], a Go [any]; [ArgOther] carries what [%T]
    prints for a value of any other type. *)
Inductive arg :=
| ArgTable (x : pgx.Table)
| ArgIndex (x : Index.t)
| ArgProc (x : Proc.t)
| ArgOther (typeName : string).

(** What [%T] prints. *)
Definition typeName (v : arg) : string :=
  match v with
  | ArgTable _ => "pgx.Table"
  | ArgIndex _ => "pgx.Index"
  | ArgProc _ => "pgx.Proc"
  | ArgOther ty => ty
  end.

(** The argument as the statements for tables see it. *)
Definition asTable (v : arg) : pgx.any :=
  match v with
  | ArgTable x => AnyTable x
  | _ => AnyOther (typeName v)
  end.

Section Statements.

Variable f : Funcs.

(** [for i := range params { list = append(list, f.nth(i)) }] *)
Definition nthList (count : nat) : list string :=
  List.map (fun i => Funcs.nth f (Z.of_nat i)) (seq 0 count).

(** [sqlstr_index(v)] *)
Definition sqlstr_index (v : arg) : list string :=
  match v with
  | ArgIndex x =>
      let fields := List.map (colname f) (Table.Fields (Index.Table x)) in
      [ "SELECT ";
        Str.join ", " fields +:+ " ";
        "FROM " +:+ schemafn f [Table.SQLName (Index.Table x)] +:+ " ";
        "WHERE " +:+ Str.join " AND " (keyConditions f 0 (Index.Fields x)) ]
  | _ => [unsupported "24" (typeName v)]
  end.

(** [sqlstr_func(v)] *)
Definition sqlstr_func (v : arg) : list string :=
  match v with
  | ArgProc x =>
      [ "SELECT * FROM " +:+ schemafn f [Proc.SQLName x] +:+ "("
        +:+ Str.join ", " (nthList (List.length (Proc.Params x))) +:+ ")" ]
  | _ => [unsupported "26" (typeName v)]
  end.

(** [sqlstr_proc(v)] *)
Definition sqlstr_proc (v : arg) : list string :=
  match v with
  | ArgProc x =>
      if String.eqb (Proc.Typ x) "function" then sqlstr_func v
      else
        [ "CALL " +:+ schemafn f [Proc.SQLName x] +:+ "("
          +:+ Str.join ", " (nthList (List.length (Proc.Params x))) +:+ ")" ]
  | _ => [unsupported "25" (typeName v)]
  end.

(** The loop of [buildSqlstr]; [n] is the number of lines. *)
Fixpoint buildLoop (n : Z) (i : Z) (lines res : list string) : list string :=
  match lines with
  | [] => res
  | line :: rest =>
      let entry :=
        if i =? 0 then "const sqlstr = `" +:+ line +:+ "` +"
        else if i =? n - 1
        then String Bytes.tab (String Bytes.tab ("`" +:+ line +:+ "`"))
        else String Bytes.tab (String Bytes.tab ("`" +:+ line +:+ "` +")) in
      buildLoop n (i + 1) rest (res ++ [entry])
  end.

(** [buildSqlstr(lines)] *)
Definition buildSqlstr (lines : list string) : string :=
  Str.join (Str.single Bytes.newline)
           (buildLoop (Z.of_nat (List.length lines)) 0 lines []).

(** [sqlstr(typ, v)] *)
Definition sqlstr (typ : string) (v : arg) : string :=
  if String.eqb typ "insert" then buildSqlstr (sqlstr_insert f (asTable v))
  else if String.eqb typ "update" then buildSqlstr (sqlstr_update f (asTable v))
  else if String.eqb typ "upsert" then buildSqlstr (sqlstr_upsert f (asTable v))
  else if String.eqb typ "delete" then buildSqlstr (sqlstr_delete f (asTable v))
  else if String.eqb typ "index" then buildSqlstr (sqlstr_index v)
  else if String.eqb typ "proc" then buildSqlstr (sqlstr_proc v)
  else "[[ UNSUPPORTED SQLSTR TYPE: " +:+ typ +:+ " ]]".

End Statements.

(** *** Vocabulary for the properties of [buildSqlstr] *)

(** The first, a middle and the last line of a constant of several
    lines. *)
Definition firstLine (line : string) : string := "const sqlstr = `" +:+ line +:+ "` +".
Definition middleLine (line : string) : string :=
  String Bytes.tab (String Bytes.tab ("`" +:+ line +:+ "` +")).
Definition lastLine (line : string) : string :=
  String Bytes.tab (String Bytes.tab ("`" +:+ line +:+ "`")).

(** The stored procedure [archive_books(integer, date)] and the index on
    [isbn] of the table [books]. *)
Definition archiveBooks : Proc.t :=
  Proc.mk "procedure" "ArchiveBooks" "" "archive_books" ""
    [mkColumn "before" "int" false false; mkColumn "on" "time.Time" false false]
    [] true false "".

Definition booksIsbnIndex : Index.t :=
  Index.mk "books_isbn_key" "BookByIsbn" booksTable
    [mkColumn "isbn" "string" false false] true false "".

End pgxsql.

(** ** templates/pgx/pgx.go: names *)

Module naming.

(** A word: a string without an underscore. *)
Definition isWord (w : string) : bool :=
  Str.forallb (fun c => negb (Ascii.eqb c "_")) w.

(** The part of [xo.Field] that the names are built from: the name of
    the field and the name of its SQL type. *)
Module Param.
Record t := mk { Name : string; TypeName : string }.
End Param.

(** [strings.Split(s, " ")], for a separator of one byte: [current] is
    the piece being read. *)
Fixpoint splitOn (sep : ascii) (s current : string) : list string :=
  match s with
  | EmptyString => [current]
  | String c s' =>
      if Ascii.eqb c sep then current :: splitOn sep s' EmptyString
      else splitOn sep s' (current +:+ Str.single c)
  end.

Section Names.

(** [snaker.ForceCamelIdentifier], as in the planner. *)
Variable ForceCamelIdentifier : string -> string.

(** The name that stands for the [i]-th parameter: that of its type
    when the parameter has the generated name [p<i>]. *)
Definition paramName (i : nat) (p : Param.t) : string :=
  if String.eqb (Param.Name p) ("p" +:+ strconv.Itoa (Z.of_nat i))
  then planner.camelExport ForceCamelIdentifier (splitOn " " (Param.TypeName p) "")
  else planner.camelExport ForceCamelIdentifier [Param.Name p].

(** [buildOverloadedName(proc)]; [None] stands for the run-time panic
    of the slice expression [names[:len(names)-1]] on an empty
    slice. *)
Definition buildOverloadedName (procName : string) (params : list Param.t)
  : option string :=
  let names := imap paramName params in
  match names with
  | [name] => Some (procName +:+ "By" +:+ name)
  | [] => None
  | _ =>
      let front := Str.join "" (List.removelast names) in
      let last := List.last names "" in
      Some (procName +:+ "By" +:+ front +:+ "And" +:+ last)
  end.

End Names.

End naming.

(** ** templates/pgx/pgx.go: the Go type of a column *)

Module gotype.

(** The part of [xo.Type] that [pgxGoType] reads. *)
Module Typ.
Record t := mk {
  Name     : string;   (* [Type] *)
  Nullable : bool;
  IsArray  : bool
}.
End Typ.

(** [pgxArrMapping] *)
Definition pgxArrMapping (goType : string) : option string :=
  if String.eqb goType "bool" then Some "[]bool"
  else if String.eqb goType "int16" then Some "[]int16"
  else if String.eqb goType "int32" then Some "[]int32"
  else if String.eqb goType "int" then Some "[]int"
  else if String.eqb goType "int64" then Some "[]int64"
  else if String.eqb goType "float32" then Some "[]float32"
  else if String.eqb goType "float64" then Some "[]float64"
  else if String.eqb goType "string" then Some "[]string"
  else None.

(** [case a, b, c:] of a switch on a string *)
Definition oneOf (s : string) (cases : list string) : bool :=
  existsb (String.eqb s) cases.

Definition setofPrefix : string := "SETOF ".
Definition schemaPrefix : string := "information_schema.".

Section GoType.

(** [snaker.ForceCamelIdentifier], as in the planner, and the Go type
    of a 32-bit integer column, [Int32(ctx)]. *)
Variable ForceCamelIdentifier : string -> string.
Variable itype : string.

(** [schemaType(typ, nullable, schema)] *)
Definition schemaType (typ : string) (nullable : bool) : string * string :=
  let goType := planner.camelExport ForceCamelIdentifier [typ] in
  let goType := if nullable then "Null" +:+ goType else goType in
  (goType, goType +:+ "{}").

(** The special type handling at the head of [pgxGoType]. *)
Definition specialType (dbType : string) : string :=
  if String.eqb dbType (pgx.quoted "char") then "char"
  else if Str.isPrefix schemaPrefix dbType
  then
    let rest := Str.drop (String.length schemaPrefix) dbType in
    if String.eqb rest "cardinal_number" then "integer"
    else if oneOf rest ["character_data"; "sql_identifier"; "yes_or_no"]
    then "character varying"
    else if String.eqb rest "time_stamp" then "timestamp with time zone"
    else dbType
  else dbType.

(** The switch of [pgxGoType] on the database type. *)
Definition scalarType (typName dbType : string) (typNullable : bool)
  : string * string :=
  let pick (plain nullable : string * string) :=
    if typNullable then nullable else plain in
  if String.eqb dbType "boolean"
  then pick ("bool", "false") ("pgtype.Bool", "pgtype.Bool{}")
  else if oneOf dbType ["bpchar"; "character varying"; "character"; "inet"; "money";
                        "text"; "name"]
  then pick ("string", pgx.quoted "") ("pgtype.Text", "pgtype.Text{}")
  else if String.eqb dbType "smallint"
  then pick ("int16", "0") ("pgtype.Int2", "pgtype.Int2{}")
  else if String.eqb dbType "integer"
  then pick (itype, "0") ("pgtype.Int4", "pgtype.Int4{}")
  else if String.eqb dbType "bigint"
  then pick ("int64", "0") ("pgtype.Int8", "pgtype.Int8{}")
  else if String.eqb dbType "real"
  then pick ("float32", "0.0") ("pgtype.Float4", "pgtype.Float4{}")
  else if oneOf dbType ["double precision"; "numeric"]
  then pick ("float64", "0.0") ("pgtype.Float8", "pgtype.Float8{}")
  else if String.eqb dbType "date"
  then pick ("time.Time", "time.Time{}") ("pgtype.Date", "pgtype.Date{}")
  else if String.eqb dbType "timestamp without time zone"
  then pick ("time.Time", "time.Time{}") ("pgtype.Timestamp", "pgtype.Timestamp{}")
  else if String.eqb dbType "timestamp with time zone"
  then pick ("time.Time", "time.Time{}") ("pgtype.Timestamptz", "pgtype.Timestamptz{}")
  else if oneOf dbType ["time without time zone"; "time with time zone"]
  then pick ("time.Time", "time.Time{}") ("pgtype.Time", "pgtype.Time{}")
  else if String.eqb dbType "bit"
  then pick ("uint8", "0") ("*uint8", "nil")
  else if oneOf dbType ["any"; "bit varying"; "bytea"; "interval"; "json"; "jsonb"; "xml"]
  then ("[]byte", "nil")
  else if String.eqb dbType "hstore" then ("map[string]string", "nil")
  else if String.eqb dbType "uuid" then ("pgtype.UUID", "pgtype.UUID{}")
  else schemaType typName typNullable.

(** [pgxGoType(ctx, typ)]: the Go type and its zero value; the error
    it returns is nil on every path.  Each recursive call works on a
    type name shorter by the prefix [SETOF ], so [fuel] above the
    length of the name is never used up (see [pgxGoType_fuel]). *)
Fixpoint pgxGoTypeFuel (fuel : nat) (typ : Typ.t) : string * string :=
  match fuel with
  | O => ("", "")
  | S fuel' =>
      if Str.isPrefix setofPrefix (Typ.Name typ)
      then
        let typ' := Typ.mk (Str.drop (String.length setofPrefix) (Typ.Name typ))
                           (Typ.Nullable typ) (Typ.IsArray typ) in
        ("[]" +:+ fst (pgxGoTypeFuel fuel' typ'), "nil")
      else
        let typNullable := Typ.Nullable typ && negb (Typ.IsArray typ) in
        let '(goType, zeroValue) :=
          scalarType (Typ.Name typ) (specialType (Typ.Name typ)) typNullable in
        if Typ.IsArray typ
        then match pgxArrMapping goType with
             | Some arrType => (arrType, "nil")
             | None => ("[]byte", "nil")
             end
        else (goType, zeroValue)
  end.

Definition pgxGoType (typ : Typ.t) : string * string :=
  pgxGoTypeFuel (S (String.length (Typ.Name typ))) typ.

End GoType.

(** The Go types of arrays. *)
Definition sliceTypes : list string :=
  ["[]bool"; "[]int16"; "[]int32"; "[]int"; "[]int64"; "[]float32"; "[]float64";
   "[]string"; "[]byte"].

End gotype.

(** * Properties *)

(** ** Go string helpers *)

Module StrFacts.

Lemma app_nil_r (s : string) : s +:+ "" = s.
Proof. induction s as [|c s IH]; simpl; [reflexivity | now rewrite IH]. Qed.

Lemma app_assoc (a b c : string) : (a +:+ b) +:+ c = a +:+ (b +:+ c).
Proof. induction a as [|x a IH]; simpl; [reflexivity | now rewrite IH]. Qed.

Lemma length_app (a b : string) :
  String.length (a +:+ b) = (String.length a + String.length b)%nat.
Proof. induction a as [|x a IH]; simpl; [reflexivity | now rewrite IH]. Qed.

Lemma len_app (a b : string) : Str.len (a +:+ b) = Str.len a + Str.len b.
Proof. unfold Str.len. rewrite length_app. lia. Qed.

Lemma len_cons (c : ascii) (s : string) : Str.len (String c s) = 1 + Str.len s.
Proof. unfold Str.len. simpl String.length. lia. Qed.

Lemma len_nonneg (s : string) : 0 <= Str.len s.
Proof. unfold Str.len. lia. Qed.

Lemma drop_app_length (a b : string) : Str.drop (String.length a) (a +:+ b) = b.
Proof. induction a as [|x a IH]; simpl; [now destruct b | exact IH]. Qed.

Lemma drop_all (s : string) (n : nat) :
  (String.length s <= n)%nat -> Str.drop n s = "".
Proof.
  revert n; induction s as [|c s IH]; intros [|n] H; simpl in *;
    try reflexivity; try lia.
  apply IH; lia.
Qed.

Lemma take_all (s : string) (n : nat) :
  (String.length s <= n)%nat -> Str.take n s = s.
Proof.
  revert n; induction s as [|c s IH]; intros [|n] H; simpl in *;
    try reflexivity; try lia.
  f_equal; apply IH; lia.
Qed.

Lemma take_app_length (a b : string) : Str.take (String.length a) (a +:+ b) = a.
Proof. induction a as [|x a IH]; simpl; [now destruct b | now rewrite IH]. Qed.

Lemma drop_drop (s : string) (n m : nat) :
  Str.drop n (Str.drop m s) = Str.drop (m + n) s.
Proof.
  revert s; induction m as [|m IH]; intros s; simpl; [reflexivity|].
  destruct s as [|c s]; [now destruct n | apply IH].
Qed.

Lemma length_drop (s : string) (n : nat) :
  String.length (Str.drop n s) = (String.length s - n)%nat.
Proof.
  revert s; induction n as [|n IH]; intros s; simpl; [lia|].
  destruct s as [|c s]; simpl; [reflexivity | apply IH].
Qed.

Lemma rev_onto_app (a b acc : string) :
  Str.rev_onto (a +:+ b) acc = Str.rev_onto b (Str.rev_onto a acc).
Proof. revert acc; induction a as [|x a IH]; intros acc; simpl; [reflexivity | apply IH]. Qed.

Lemma rev_onto_spec (s acc : string) : Str.rev_onto s acc = Str.rev s +:+ acc.
Proof.
  unfold Str.rev. revert acc; induction s as [|c s IH]; intros acc; simpl; [reflexivity|].
  rewrite IH, (IH (String c "")), app_assoc. reflexivity.
Qed.

Lemma rev_app (a b : string) : Str.rev (a +:+ b) = Str.rev b +:+ Str.rev a.
Proof. unfold Str.rev at 1. rewrite rev_onto_app, rev_onto_spec. reflexivity. Qed.

Lemma rev_cons (c : ascii) (s : string) : Str.rev (String c s) = Str.rev s +:+ Str.single c.
Proof. unfold Str.rev at 1; simpl. apply rev_onto_spec. Qed.

Lemma rev_involutive (s : string) : Str.rev (Str.rev s) = s.
Proof.
  induction s as [|c s IH]; [reflexivity|].
  rewrite rev_cons, rev_app, IH. reflexivity.
Qed.

Lemma length_rev (s : string) : String.length (Str.rev s) = String.length s.
Proof.
  induction s as [|c s IH]; [reflexivity|].
  rewrite rev_cons, length_app, IH; simpl; lia.
Qed.

Lemma lastByte_app_single (s : string) (c : ascii) :
  lastByte (s +:+ Str.single c) = Some c.
Proof.
  induction s as [|x s IH]; [reflexivity|].
  simpl. destruct (s +:+ Str.single c) eqn:E; [now destruct s | exact IH].
Qed.

Lemma spacePrefix_first (c : ascii) (r : string) :
  Str.spaceFirst c = false -> Str.spacePrefix (String c r) = None.
Proof.
  destruct c as [[] [] [] [] [] [] [] []]; intros H;
    try discriminate H; reflexivity.
Qed.

Lemma spacePrefixRev_last (c : ascii) (r : string) :
  Str.spaceLast c = false -> Str.spacePrefixRev (String c r) = None.
Proof.
  destruct c as [[] [] [] [] [] [] [] []]; intros H;
    try discriminate H; reflexivity.
Qed.

(** [TrimSpace] leaves a string alone when neither end can belong to a
    white-space rune. *)
Lemma TrimSpace_id (c d : ascii) (m : string) :
  Str.spaceFirst c = false -> Str.spaceLast d = false ->
  Str.TrimSpace (String c (m +:+ Str.single d)) = String c (m +:+ Str.single d).
Proof.
  intros Hc Hd. unfold Str.TrimSpace.
  assert (HL : Str.TrimLeftSpace (String c (m +:+ Str.single d))
               = String c (m +:+ Str.single d)).
  { unfold Str.TrimLeftSpace. simpl String.length. simpl Str.trimLeftFuel.
    now rewrite (spacePrefix_first _ _ Hc). }
  rewrite HL. unfold Str.TrimRightSpace.
  assert (HR : Str.rev (String c (m +:+ Str.single d))
               = String d (Str.rev (String c m))).
  { change (String c (m +:+ Str.single d)) with (String c m +:+ Str.single d).
    now rewrite rev_app. }
  rewrite HR.
  replace (String.length (String c (m +:+ Str.single d)))
    with (S (String.length (String c m)))
    by (simpl; rewrite length_app; simpl; lia).
  cbn [Str.trimLeftRevFuel].
  rewrite (spacePrefixRev_last _ _ Hd), <- HR.
  apply rev_involutive.
Qed.

End StrFacts.

(** ** The lexer *)

Section LexerFacts.

Import StrFacts.

Variable content : string.
Variable startPos : Z.

(** [escapeBytes] never leaves a bare quote or backslash, so the quoted
    scanner reads [escapeBytes s] followed by the closing quote back as
    [s], whatever it has already collected. *)
Lemma quotedLoop_escapeBytes_tail (tail : string) (s : string) :
  Str.startsWith Bytes.dquote tail = false ->
  forall (tokenStart pos : Z) (value : string),
    quotedLoop content startPos tokenStart
               (escapeBytes s +:+ String Bytes.dquote tail) pos false value
    = Ok (mkToken (value +:+ s)
                  (Str.slice tokenStart (pos + Str.len (escapeBytes s) + 1) content)
                  true (startPos + tokenStart),
          pos + Str.len (escapeBytes s) + 1).
Proof.
  intros Htail. induction s as [|ch s IH]; intros tokenStart pos value.
  - simpl. rewrite app_nil_r.
    replace (pos + Str.len "" + 1) with (pos + 1) by (unfold Str.len; simpl; lia).
    destruct tail as [|ch2 tail']; [reflexivity|].
    simpl in Htail. now rewrite Htail.
  - assert (Hgo : forall esc pos',
               escapeBytes (String ch s) = esc +:+ escapeBytes s ->
               pos' = pos + Str.len esc ->
               quotedLoop content startPos tokenStart
                          (esc +:+ escapeBytes s +:+ String Bytes.dquote tail)
                          pos false value
               = quotedLoop content startPos tokenStart
                            (escapeBytes s +:+ String Bytes.dquote tail)
                            pos' false (value +:+ Str.single ch) ->
               quotedLoop content startPos tokenStart
                          (escapeBytes (String ch s) +:+ String Bytes.dquote tail)
                          pos false value
               = Ok (mkToken (value +:+ String ch s)
                       (Str.slice tokenStart
                          (pos + Str.len (escapeBytes (String ch s)) + 1) content)
                       true (startPos + tokenStart),
                     pos + Str.len (escapeBytes (String ch s)) + 1)).
    { intros esc pos' Hesc -> Hstep.
      rewrite Hesc, app_assoc, Hstep, IH, len_app, app_assoc. simpl.
      replace (pos + Str.len esc + Str.len (escapeBytes s) + 1)
        with (pos + (Str.len esc + Str.len (escapeBytes s)) + 1) by lia.
      reflexivity. }
    destruct (Ascii.eqb_spec ch Bytes.dquote) as [->|Hq];
      [apply (Hgo (String Bytes.backslash (Str.single Bytes.dquote)) (pos + 1 + 1)); [reflexivity | unfold Str.len; simpl; lia | reflexivity]|].
    destruct (Ascii.eqb_spec ch Bytes.backslash) as [->|Hb];
      [apply (Hgo (String Bytes.backslash (Str.single Bytes.backslash)) (pos + 1 + 1)); [reflexivity | unfold Str.len; simpl; lia | reflexivity]|].
    destruct (Ascii.eqb_spec ch Bytes.newline) as [->|Hn];
      [apply (Hgo (String Bytes.backslash "n") (pos + 1 + 1)); [reflexivity | unfold Str.len; simpl; lia | reflexivity]|].
    destruct (Ascii.eqb_spec ch Bytes.creturn) as [->|Hr];
      [apply (Hgo (String Bytes.backslash "r") (pos + 1 + 1)); [reflexivity | unfold Str.len; simpl; lia | reflexivity]|].
    destruct (Ascii.eqb_spec ch Bytes.tab) as [->|Ht];
      [apply (Hgo (String Bytes.backslash "t") (pos + 1 + 1)); [reflexivity | unfold Str.len; simpl; lia | reflexivity]|].
    destruct (Ascii.eqb_spec ch Bytes.nul) as [->|Hz];
      [apply (Hgo (String Bytes.backslash "0") (pos + 1 + 1)); [reflexivity | unfold Str.len; simpl; lia | reflexivity]|].
    apply (Hgo (Str.single ch) (pos + 1)).
    + simpl. rewrite (proj2 (Ascii.eqb_neq _ _) Hq), (proj2 (Ascii.eqb_neq _ _) Hb),
        (proj2 (Ascii.eqb_neq _ _) Hn), (proj2 (Ascii.eqb_neq _ _) Hr),
        (proj2 (Ascii.eqb_neq _ _) Ht), (proj2 (Ascii.eqb_neq _ _) Hz).
      reflexivity.
    + unfold Str.len; simpl; lia.
    + simpl. rewrite (proj2 (Ascii.eqb_neq _ _) Hq), (proj2 (Ascii.eqb_neq _ _) Hb).
      reflexivity.
Qed.

Lemma quotedLoop_escapeBytes (s : string) :
  forall (tokenStart pos : Z) (value : string),
    quotedLoop content startPos tokenStart
               (escapeBytes s +:+ Str.single Bytes.dquote) pos false value
    = Ok (mkToken (value +:+ s)
                  (Str.slice tokenStart (pos + Str.len (escapeBytes s) + 1) content)
                  true (startPos + tokenStart),
          pos + Str.len (escapeBytes s) + 1).
Proof. apply quotedLoop_escapeBytes_tail. reflexivity. Qed.

End LexerFacts.

Section ParseFacts.

Import StrFacts.

Lemma parseTokensLoop_end (content : string) (startPos : Z) (fuel : nat)
      (pos : Z) (tokens : list Token) :
  Str.len content <= pos ->
  parseTokensLoop content startPos fuel pos tokens = Ok tokens.
Proof.
  intros H. destruct fuel as [|fuel]; simpl; [reflexivity|].
  destruct (Z.ltb_spec pos (Str.len content)); [lia | reflexivity].
Qed.

Lemma skipSpaceAt_end (content : string) (pos : Z) :
  Str.len content <= pos -> skipSpaceAt content pos = pos.
Proof.
  intros H. unfold skipSpaceAt. rewrite drop_all; [reflexivity|].
  unfold Str.len in H. lia.
Qed.

Lemma EscapeString_len (s : string) :
  Str.len (EscapeString s) = Str.len (escapeBytes s) + 2.
Proof.
  unfold EscapeString. rewrite len_cons, len_app. unfold Str.len; simpl; lia.
Qed.

(** A row whose only element is an escaped string lexes to that string. *)
Lemma parseTokens_EscapeString (s : string) (startPos : Z) :
  parseTokens (EscapeString s) startPos
  = Ok [mkToken s (EscapeString s) true startPos].
Proof.
  unfold parseTokens.
  set (content := EscapeString s).
  assert (Hlen : Str.len content = Str.len (escapeBytes s) + 2)
    by apply EscapeString_len.
  pose proof (len_nonneg (escapeBytes s)) as Hnn.
  cbn [parseTokensLoop].
  destruct (Z.ltb_spec 0 (Str.len content)) as [_|]; [|lia]. cbn [negb].
  assert (H0 : Str.drop (Z.to_nat 0) content
               = String Bytes.dquote (escapeBytes s +:+ Str.single Bytes.dquote))
    by reflexivity.
  assert (Hskip : skipSpaceAt content 0 = 0)
    by (unfold skipSpaceAt; rewrite H0; reflexivity).
  rewrite Hskip.
  destruct (Z.leb_spec (Str.len content) 0) as [|_]; [lia|].
  unfold scanAt, byteAt, parseQuotedString. rewrite H0.
  change (Ascii.eqb Bytes.dquote Bytes.dquote) with true. cbv iota.
  rewrite quotedLoop_escapeBytes. cbn [bind].
  replace (0 + 1 + Str.len (escapeBytes s) + 1) with (Str.len content) by lia.
  rewrite skipSpaceAt_end by lia.
  destruct (Z.ltb_spec (Str.len content) (Str.len content)); [lia|].
  rewrite parseTokensLoop_end by lia.
  unfold Str.slice. simpl Str.drop. rewrite take_all.
  - simpl. now rewrite Z.add_0_r.
  - unfold Str.len. lia.
Qed.

End ParseFacts.

(** C7. For every string [s] (quotes, backslashes, newlines, carriage
    returns, tabs and NUL bytes included), the row literal made of the
    single element [EscapeString s] between parentheses parses, and the
    result is exactly one token, quoted, whose decoded value is [s]. *)
Theorem EscapeString_ParseRowLiteral_roundtrip (s : string) :
  ParseRowLiteral ("(" +:+ EscapeString s +:+ ")")
  = Ok [mkToken s (EscapeString s) true 1].
Proof.
  unfold ParseRowLiteral.
  change ("(" +:+ EscapeString s +:+ ")")
    with (String Bytes.lparen (EscapeString s +:+ Str.single Bytes.rparen)).
  rewrite StrFacts.TrimSpace_id by reflexivity.
  cbv iota. change (Ascii.eqb Bytes.lparen Bytes.lparen) with true. cbn [negb].
  change (String Bytes.lparen (EscapeString s +:+ Str.single Bytes.rparen))
    with (String Bytes.lparen (EscapeString s) +:+ Str.single Bytes.rparen) at 1.
  rewrite StrFacts.lastByte_app_single.
  change (Ascii.eqb Bytes.rparen Bytes.rparen) with true. cbn [negb].
  assert (Hc : Str.slice 1 (Str.len (String Bytes.lparen
                   (EscapeString s +:+ Str.single Bytes.rparen)) - 1)
                 (String Bytes.lparen (EscapeString s +:+ Str.single Bytes.rparen))
               = EscapeString s).
  { unfold Str.slice. change (Z.to_nat 1) with 1%nat. cbn [Str.drop].
    rewrite StrFacts.len_cons, StrFacts.len_app.
    replace (Z.to_nat (1 + (Str.len (EscapeString s) + Str.len (Str.single Bytes.rparen)) - 1 - 1))
      with (String.length (EscapeString s)) by (unfold Str.len; simpl; lia).
    apply StrFacts.take_app_length. }
  rewrite Hc.
  unfold EscapeString at 1. rewrite StrFacts.TrimSpace_id by reflexivity.
  cbn [String.eqb]. apply parseTokens_EscapeString.
Qed.

(** *** Termination of the token loop: the fuel of [parseTokens] is never
    exhausted *)

Section Fuel.

Import StrFacts.

Variable content : string.
Variable startPos : Z.

Lemma skipSpace_ge (rest : string) (pos : Z) : pos <= skipSpace rest pos.
Proof.
  revert pos; induction rest as [|ch rest IH]; intros pos; simpl; [lia|].
  destruct (Bytes.isSpace ch); [|lia]. specialize (IH (pos + 1)). lia.
Qed.

Lemma skipSpaceAt_ge (pos : Z) : pos <= skipSpaceAt content pos.
Proof. apply skipSpace_ge. Qed.

Lemma quotedLoop_advances_bounded (k : nat) :
  forall rest tokenStart pos escaped value tok pos',
    (String.length rest <= k)%nat ->
    quotedLoop content startPos tokenStart rest pos escaped value = Ok (tok, pos') ->
    pos < pos'.
Proof.
  induction k as [|k IH]; intros rest tokenStart pos escaped value tok pos' Hk H.
  { destruct rest; simpl in *; [discriminate | lia]. }
  destruct rest as [|ch rest']; simpl in H, Hk; [discriminate|].
  destruct escaped.
  { apply IH in H; [lia | lia]. }
  destruct (Ascii.eqb ch Bytes.backslash).
  { apply IH in H; [lia | lia]. }
  destruct (Ascii.eqb ch Bytes.dquote).
  - destruct rest' as [|ch2 rest'']; [injection H as _ <-; lia|].
    destruct (Ascii.eqb ch2 Bytes.dquote).
    + apply IH in H; [lia | simpl in Hk; lia].
    + injection H as _ <-; lia.
  - apply IH in H; [lia | lia].
Qed.

Lemma quotedLoop_advances rest tokenStart pos escaped value tok pos' :
  quotedLoop content startPos tokenStart rest pos escaped value = Ok (tok, pos') ->
  pos < pos'.
Proof. apply (quotedLoop_advances_bounded (String.length rest)). lia. Qed.

Lemma unquotedLoop_advances (rest : string) :
  forall pos value v pos',
    unquotedLoop content startPos rest pos value = Ok (v, pos') -> pos <= pos'.
Proof.
  induction rest as [|ch rest IH]; intros pos value v pos' H; simpl in H.
  - injection H as _ <-; lia.
  - destruct (Ascii.eqb ch Bytes.comma || Ascii.eqb ch Bytes.rparen || Bytes.isSpace ch).
    + injection H as _ <-; lia.
    + destruct (Ascii.eqb ch Bytes.dquote); [discriminate|].
      apply IH in H. lia.
Qed.

Lemma parseQuotedString_advances (pos : Z) tok pos' :
  parseQuotedString content startPos pos = Ok (tok, pos') -> pos < pos'.
Proof.
  unfold parseQuotedString.
  destruct (Str.drop (Z.to_nat pos) content) as [|ch rest]; [discriminate|].
  destruct (Ascii.eqb ch Bytes.dquote); [|discriminate].
  intros H%quotedLoop_advances. lia.
Qed.

Lemma parseUnquotedValue_advances (pos : Z) tok pos' :
  parseUnquotedValue content startPos pos = Ok (tok, pos') -> pos <= pos'.
Proof.
  unfold parseUnquotedValue.
  destruct (unquotedLoop content startPos (Str.drop (Z.to_nat pos) content) pos "")
    as [[v p]|e] eqn:E; simpl; [|discriminate].
  intros H; injection H as _ <-. eapply unquotedLoop_advances; eassumption.
Qed.

Lemma byteAt_None (pos : Z) :
  0 <= pos -> byteAt content pos = None -> Str.len content <= pos.
Proof.
  intros Hpos. unfold byteAt.
  destruct (Str.drop (Z.to_nat pos) content) eqn:E; [|discriminate].
  intros _. apply (f_equal String.length) in E. rewrite length_drop in E.
  simpl in E. unfold Str.len. lia.
Qed.

(** Any two amounts of fuel above the number of bytes left give the same
    result: the branch for exhausted fuel is never the one that decides. *)
Lemma parseTokensLoop_fuel (fuel1 : nat) :
  forall (fuel2 : nat) (pos : Z) (tokens : list Token),
    0 <= pos ->
    Str.len content - pos < Z.of_nat fuel1 ->
    Str.len content - pos < Z.of_nat fuel2 ->
    parseTokensLoop content startPos fuel1 pos tokens
    = parseTokensLoop content startPos fuel2 pos tokens.
Proof.
  induction fuel1 as [|fuel1 IH]; intros fuel2 pos tokens Hpos H1 H2.
  { rewrite !parseTokensLoop_end by lia. reflexivity. }
  destruct fuel2 as [|fuel2].
  { rewrite !parseTokensLoop_end by lia. reflexivity. }
  cbn [parseTokensLoop].
  destruct (Z.ltb_spec pos (Str.len content)); cbn [negb]; [|reflexivity].
  pose proof (skipSpaceAt_ge pos) as Hs1.
  destruct (Z.leb_spec (Str.len content) (skipSpaceAt content pos)); [reflexivity|].
  set (scan := scanAt content startPos (skipSpaceAt content pos)).
  assert (Hscan : forall tok p, scan = Ok (tok, p) -> skipSpaceAt content pos <= p).
  { intros tok p. unfold scan, scanAt.
    destruct (byteAt content (skipSpaceAt content pos)) as [ch|].
    - destruct (Ascii.eqb ch Bytes.dquote).
      + intros Hq%parseQuotedString_advances. lia.
      + apply parseUnquotedValue_advances.
    - apply parseUnquotedValue_advances. }
  destruct scan as [[tok p]|e]; cbn [bind]; [|reflexivity].
  specialize (Hscan tok p eq_refl).
  pose proof (skipSpaceAt_ge p) as Hs2.
  destruct (Z.ltb_spec (skipSpaceAt content p) (Str.len content)).
  - destruct (byteAt content (skipSpaceAt content p)) as [ch|] eqn:Eb.
    + destruct (Ascii.eqb ch Bytes.comma); [|reflexivity].
      apply IH; lia.
    + apply byteAt_None in Eb; lia.
  - rewrite !parseTokensLoop_end by lia. reflexivity.
Qed.

(** [parseTokens] is the loop run to completion. *)
Corollary parseTokens_fuel (fuel : nat) :
  (String.length content < fuel)%nat ->
  parseTokensLoop content startPos fuel 0 [] = parseTokens content startPos.
Proof.
  intros H. apply parseTokensLoop_fuel; unfold Str.len; lia.
Qed.

End Fuel.

(** *** The unquoted scanner *)

Section Unquoted.

Import StrFacts.

Variable content : string.
Variable startPos : Z.

Lemma span_app (p : ascii -> bool) (s : string) :
  fst (Str.span p s) +:+ snd (Str.span p s) = s.
Proof.
  induction s as [|c s IH]; simpl; [reflexivity|].
  destruct (p c); [|reflexivity].
  destruct (Str.span p s) as [a b]; simpl in *. now rewrite IH.
Qed.

Lemma unquotedLoop_span (rest : string) :
  forall (pos : Z) (value : string),
    unquotedLoop content startPos rest pos value
    = let run := fst (Str.span plainByte rest) in
      if Str.startsWith Bytes.dquote (snd (Str.span plainByte rest))
      then Err (NewParseError (startPos + (pos + Str.len run))
                              "unexpected quote in unquoted value" content)
      else Ok (value +:+ run, pos + Str.len run).
Proof.
  induction rest as [|ch rest IH]; intros pos value; cbn [unquotedLoop Str.span].
  - cbn. rewrite app_nil_r. f_equal. f_equal. unfold Str.len; simpl; lia.
  - change (Ascii.eqb ch Bytes.comma || Ascii.eqb ch Bytes.rparen || Bytes.isSpace ch)
      with (isTerminator ch).
    assert (Hp : plainByte ch
                 = negb (isTerminator ch) && negb (Ascii.eqb ch Bytes.dquote))
      by reflexivity.
    destruct (isTerminator ch) eqn:Ht; cbn [negb andb] in Hp.
    + rewrite Hp. cbn [fst snd Str.startsWith].
      assert (Hq : Ascii.eqb ch Bytes.dquote = false).
      { destruct (Ascii.eqb_spec ch Bytes.dquote) as [->|]; [discriminate Ht | reflexivity]. }
      rewrite Hq. cbn. rewrite app_nil_r. f_equal. f_equal. unfold Str.len; simpl; lia.
    + destruct (Ascii.eqb ch Bytes.dquote) eqn:Hq; cbn [negb] in Hp; rewrite Hp.
      * cbn [fst snd Str.startsWith]. rewrite Hq. cbn.
        f_equal. f_equal. unfold Str.len; simpl; lia.
      * rewrite IH. destruct (Str.span plainByte rest) as [a b]; cbn [fst snd].
        rewrite len_cons, app_assoc. cbn.
        replace (pos + 1 + Str.len a) with (pos + (1 + Str.len a)) by lia.
        reflexivity.
Qed.

Lemma slice_run (pos : Z) (run : string) :
  (exists tail, Str.drop (Z.to_nat pos) content = run +:+ tail) ->
  Str.slice pos (pos + Str.len run) content = run.
Proof.
  intros [tail E]. unfold Str.slice. rewrite E.
  replace (Z.to_nat (pos + Str.len run - pos)) with (String.length run)
    by (unfold Str.len; lia).
  apply take_app_length.
Qed.

(** What [parseUnquotedValue] returns, in terms of the run of plain bytes
    that starts at [pos]. *)
Lemma parseUnquotedValue_span (pos : Z) :
  parseUnquotedValue content startPos pos
  = (let run := unquotedRun content pos in
     if Str.startsWith Bytes.dquote (unquotedRest content pos)
     then Err (NewParseError (startPos + (pos + Str.len run))
                             "unexpected quote in unquoted value" content)
     else Ok (mkToken (Str.TrimSpace run) run false (startPos + pos),
              pos + Str.len run)).
Proof.
  unfold parseUnquotedValue, unquotedRun, unquotedRest.
  rewrite unquotedLoop_span. cbv zeta.
  destruct (Str.startsWith Bytes.dquote
              (snd (Str.span plainByte (Str.drop (Z.to_nat pos) content)))); [reflexivity|].
  cbn [bind]. rewrite slice_run; [reflexivity|].
  eexists. symmetry. apply span_app.
Qed.

End Unquoted.

(** C6 (as the code has it).  [parseUnquotedValue] reads the bytes up to
    the next comma, closing parenthesis, white-space byte or double quote.
    If a double quote stopped it, the result is the parse error
    [unexpected quote in unquoted value] positioned at that quote;
    otherwise the token's raw value is the run read, its decoded value the
    run with surrounding white space trimmed, and scanning resumes right
    after the run.  Parsing scenario S4's literal fails with a parse error
    at offset 7, the byte [c] after the closing quote of the second
    element. *)
Theorem parseUnquotedValue_run (content : string) (startPos pos : Z) :
  parseUnquotedValue content startPos pos
  = (let run := unquotedRun content pos in
     if Str.startsWith Bytes.dquote (unquotedRest content pos)
     then Err (NewParseError (startPos + (pos + Str.len run))
                             "unexpected quote in unquoted value" content)
     else Ok (mkToken (Str.TrimSpace run) run false (startPos + pos),
              pos + Str.len run))
  /\ ParseRowLiteral strayQuoteRow
     = Err (ParseError 7 "expected ',' or end of row"
                       (Str.slice 1 (Str.len strayQuoteRow - 1) strayQuoteRow)).
Proof. split; [apply parseUnquotedValue_span | reflexivity]. Qed.

(** C6, as stated, fails on the code: a white-space byte ends an unquoted
    value, so [(a b,c)] is rejected at offset 3 rather than read as the
    value [a b]; and the literal of scenario S4 is rejected at offset 7,
    which holds the byte [c], while its quotes are at offsets 3 and 6. *)
Lemma unquoted_value_counterexample :
  ParseRowLiteral "(a b,c)" = Err (ParseError 3 "expected ',' or end of row" "a b,c")
  /\ (exists msg input, ParseRowLiteral strayQuoteRow = Err (ParseError 7 msg input))
  /\ String.get 7 strayQuoteRow = Some "c"%char
  /\ String.get 3 strayQuoteRow = Some Bytes.dquote
  /\ String.get 6 strayQuoteRow = Some Bytes.dquote.
Proof. repeat split; try reflexivity. do 2 eexists. reflexivity. Qed.

(** ** The tag model *)

Section TagFacts.

Lemma parseOption_err tagValue opts part e :
  parseOption tagValue opts part = Err e ->
  exists msg, e = ValidationError "" tagValue msg.
Proof.
  unfold parseOption.
  destruct (String.eqb (Str.TrimSpace part) ""); [discriminate|].
  destruct (indexEq (Str.TrimSpace part)) as [idx|].
  - destruct (String.eqb _ "default"); [discriminate|].
    intros [= <-]. eexists; reflexivity.
  - destruct (String.eqb _ "omitempty"); [discriminate|].
    destruct (String.eqb _ "required"); [discriminate|].
    intros [= <-]. eexists; reflexivity.
Qed.

Lemma parseOptions_err tagValue parts :
  forall opts e,
    parseOptions tagValue opts parts = Err e ->
    exists msg, e = ValidationError "" tagValue msg.
Proof.
  induction parts as [|part rest IH]; intros opts e; simpl; [discriminate|].
  destruct (parseOption tagValue opts part) as [opts'|e'] eqn:E; simpl.
  - apply IH.
  - intros [= <-]. eapply parseOption_err; eassumption.
Qed.

(** Every error of [ParseTag] is a validation error carrying the tag. *)
Lemma ParseTag_err tagValue e :
  ParseTag tagValue = Err e -> exists msg, e = ValidationError "" tagValue msg.
Proof.
  unfold ParseTag.
  destruct (String.eqb tagValue "" || String.eqb tagValue "-"); [discriminate|].
  destruct (splitTagParts tagValue) as [|first rest].
  { intros [= <-]; eexists; reflexivity. }
  destruct (strconv.Atoi (Str.TrimSpace first)) as [k|pos].
  { intros [= <-]; eexists; reflexivity. }
  destruct (pos <? 1).
  { intros [= <-]; eexists; reflexivity. }
  destruct (parseOptions tagValue _ rest) as [opts|e'] eqn:E; simpl.
  - destruct (TagOptions.Required opts && TagOptions.OmitEmpty opts).
    { intros [= <-]; eexists; reflexivity. }
    destruct (TagOptions.Required opts && TagOptions.HasDefault opts).
    { intros [= <-]; eexists; reflexivity. }
    discriminate.
  - intros [= <-]. eapply parseOptions_err; eassumption.
Qed.

(** One option part can only switch flags on. *)
Lemma parseOption_flags tagValue opts part opts' :
  parseOption tagValue opts part = Ok opts' ->
  (TagOptions.Required opts = true \/ Str.TrimSpace part = "required"
     -> TagOptions.Required opts' = true)
  /\ (TagOptions.OmitEmpty opts = true \/ Str.TrimSpace part = "omitempty"
     -> TagOptions.OmitEmpty opts' = true)
  /\ (TagOptions.HasDefault opts = true \/ isDefaultOption (Str.TrimSpace part) = true
     -> TagOptions.HasDefault opts' = true).
Proof.
  unfold parseOption, isDefaultOption.
  destruct (String.eqb_spec (Str.TrimSpace part) "") as [E0|_].
  { intros [= <-]. rewrite E0. simpl.
    repeat split; intros [H|H]; auto; discriminate. }
  destruct (indexEq (Str.TrimSpace part)) as [idx|] eqn:Ei.
  - destruct (String.eqb _ "default") eqn:Ed; [|discriminate].
    intros [= <-]; simpl.
    assert (Hne : forall flag, indexEq flag = None -> Str.TrimSpace part <> flag)
      by (intros flag Hf Heq; rewrite Heq in Ei; congruence).
    repeat split; intros [H|H]; auto.
    + exfalso. now apply (Hne "required").
    + exfalso. now apply (Hne "omitempty").
  - destruct (String.eqb_spec (Str.TrimSpace part) "omitempty") as [Eo|No].
    { intros [= <-]; simpl. rewrite Eo.
      repeat split; intros [H|H]; auto; discriminate. }
    destruct (String.eqb_spec (Str.TrimSpace part) "required") as [Er|Nr].
    { intros [= <-]; simpl. rewrite Er.
      repeat split; intros [H|H]; auto; discriminate. }
    discriminate.
Qed.

Lemma parseOptions_flags tagValue parts :
  forall opts opts',
    parseOptions tagValue opts parts = Ok opts' ->
    (TagOptions.Required opts = true \/ In "required" (List.map Str.TrimSpace parts)
       -> TagOptions.Required opts' = true)
    /\ (TagOptions.OmitEmpty opts = true \/ In "omitempty" (List.map Str.TrimSpace parts)
       -> TagOptions.OmitEmpty opts' = true)
    /\ (TagOptions.HasDefault opts = true
        \/ (exists p, In p (List.map Str.TrimSpace parts) /\ isDefaultOption p = true)
       -> TagOptions.HasDefault opts' = true).
Proof.
  induction parts as [|part rest IH]; intros opts opts'; simpl.
  - intros [= <-]. repeat split; intros [H|H]; auto; try contradiction.
    destruct H as (p & [] & _).
  - destruct (parseOption tagValue opts part) as [o1|e] eqn:E1; simpl; [|discriminate].
    intros H. apply IH in H as (Hr & Ho & Hd).
    apply parseOption_flags in E1 as (Hr1 & Ho1 & Hd1).
    repeat split.
    + intros [H|[H|H]]; auto.
    + intros [H|[H|H]]; auto.
    + intros [H|(p & [H|H] & Hp)]; auto.
      * subst p. auto.
      * apply Hd. right. eauto.
Qed.

(** A tag that has option parts is neither empty nor the skip marker. *)
Lemma optionParts_nonempty tag part :
  In part (optionParts tag) ->
  (String.eqb tag "" || String.eqb tag "-") = false
  /\ exists first, splitTagParts tag = first :: List.tl (splitTagParts tag).
Proof.
  unfold optionParts. intros H. split.
  - destruct (String.eqb_spec tag "") as [->|_]; [destruct H|].
    destruct (String.eqb_spec tag "-") as [->|_]; [destruct H|]. reflexivity.
  - destruct (splitTagParts tag) as [|first rest]; [destruct H|]. eauto.
Qed.

(** The conflict checks at the end of [ParseTag] are reached with the
    flags of every option part switched on, unless an earlier check has
    already rejected the tag. *)
Lemma ParseTag_conflict tag :
  In "required" (optionParts tag) ->
  In "omitempty" (optionParts tag)
  \/ (exists p, In p (optionParts tag) /\ isDefaultOption p = true) ->
  exists msg, ParseTag tag = Err (ValidationError "" tag msg).
Proof.
  intros Hreq Hother.
  destruct (ParseTag tag) as [opts|e] eqn:E.
  2:{ apply ParseTag_err in E as [msg ->]. eauto. }
  exfalso. revert E. unfold ParseTag.
  destruct (optionParts_nonempty _ _ Hreq) as (-> & first & Hsplit).
  unfold optionParts in Hreq, Hother. rewrite Hsplit in *. simpl in Hreq, Hother.
  destruct (strconv.Atoi (Str.TrimSpace first)) as [k|pos]; [discriminate|].
  destruct (pos <? 1); [discriminate|].
  destruct (parseOptions tag _ _) as [o|e'] eqn:Eo; simpl; [|discriminate].
  apply parseOptions_flags in Eo as (Hr & Ho & Hd).
  rewrite Hr by auto.
  destruct Hother as [H|H].
  - rewrite Ho by auto. discriminate.
  - rewrite Hd by auto. destruct (TagOptions.OmitEmpty o); discriminate.
Qed.

End TagFacts.

Section StructFieldsFacts.

Implicit Types (st : gmap Z FieldInfo * gmap Z string) (field : StructField).

Lemma getStructFieldsStep_err i field st e :
  getStructFieldsStep i field st = Err e ->
  exists name tv msg, e = ValidationError name tv msg.
Proof.
  unfold getStructFieldsStep. destruct st as [fields positions].
  destruct (StructField.Exported field); simpl; [|discriminate].
  destruct (StructField.Tag field) as [tagValue|]; [|discriminate].
  destruct (String.eqb tagValue "-"); [discriminate|].
  destruct (ParseTag tagValue) as [opts|e'] eqn:E.
  - destruct (positions !! TagOptions.Position opts); [|discriminate].
    intros [= <-]. do 3 eexists; reflexivity.
  - apply ParseTag_err in E as [msg ->]. intros [= <-]. do 3 eexists; reflexivity.
Qed.

Lemma getStructFieldsLoop_err fs :
  forall i st e,
    getStructFieldsLoop i fs st = Err e ->
    exists name tv msg, e = ValidationError name tv msg.
Proof.
  induction fs as [|field rest IH]; intros i st e; simpl; [discriminate|].
  destruct (getStructFieldsStep i field st) as [st'|e'] eqn:E; simpl.
  - apply IH.
  - intros [= <-]. eapply getStructFieldsStep_err; eassumption.
Qed.

(** A step that succeeds keeps the positions already taken, and takes the
    position of its field, which was free. *)
Lemma getStructFieldsStep_ok i field st st' :
  getStructFieldsStep i field st = Ok st' ->
  (forall p, is_Some (snd st !! p) -> is_Some (snd st' !! p))
  /\ (forall p, taggedPosition field = Some p ->
                snd st !! p = None /\ is_Some (snd st' !! p)).
Proof.
  unfold getStructFieldsStep, taggedPosition. destruct st as [fields positions].
  destruct (StructField.Exported field); simpl.
  2:{ intros [= <-]. split; [auto | discriminate]. }
  destruct (StructField.Tag field) as [tagValue|].
  2:{ intros [= <-]. split; [auto | discriminate]. }
  destruct (String.eqb tagValue "-").
  { intros [= <-]. split; [auto | discriminate]. }
  destruct (ParseTag tagValue) as [opts|e] eqn:E.
  2:{ destruct e; discriminate. }
  destruct (positions !! TagOptions.Position opts) eqn:Ep; [discriminate|].
  intros [= <-]; simpl. split.
  - intros p Hp. destruct (decide (TagOptions.Position opts = p)) as [->|Hne].
    + rewrite lookup_insert_eq. eauto.
    + now rewrite lookup_insert_ne.
  - intros p [= <-]. split; [assumption|]. rewrite lookup_insert_eq. eauto.
Qed.

Lemma getStructFieldsLoop_free fs :
  forall i st st' field p,
    getStructFieldsLoop i fs st = Ok st' ->
    In field fs -> taggedPosition field = Some p ->
    snd st !! p = None.
Proof.
  induction fs as [|f rest IH]; intros i st st' field p Hloop Hin Hp; [destruct Hin|].
  simpl in Hloop.
  destruct (getStructFieldsStep i f st) as [st1|e] eqn:E; simpl in Hloop; [|discriminate].
  apply getStructFieldsStep_ok in E as [Hkeep Htake].
  destruct Hin as [->|Hin].
  - now apply Htake.
  - specialize (IH _ _ _ _ _ Hloop Hin Hp).
    destruct (snd st !! p) eqn:Es; [|reflexivity].
    destruct (Hkeep p) as [x Hx]; [eauto | congruence].
Qed.

(** A loop that succeeds has met no position twice. *)
Lemma getStructFieldsLoop_distinct fs :
  forall i st st' (k1 k2 : nat) f g p,
    getStructFieldsLoop i fs st = Ok st' ->
    (k1 < k2)%nat -> fs !! k1 = Some f -> fs !! k2 = Some g ->
    taggedPosition f = Some p -> taggedPosition g = Some p -> False.
Proof.
  induction fs as [|f0 rest IH]; intros i st st' k1 k2 f g p Hloop Hlt H1 H2 Hf Hg;
    [discriminate|].
  simpl in Hloop.
  destruct (getStructFieldsStep i f0 st) as [st1|e] eqn:E; simpl in Hloop; [|discriminate].
  destruct k2 as [|k2]; [lia|]. simpl in H2.
  destruct k1 as [|k1]; simpl in H1.
  - injection H1 as ->.
    apply getStructFieldsStep_ok in E as [_ Htake].
    destruct (Htake p Hf) as [_ [x Hx]].
    assert (Hfree : snd st1 !! p = None).
    { eapply getStructFieldsLoop_free; [exact Hloop | | exact Hg].
      apply list_elem_of_In. eapply list_elem_of_lookup_2; eassumption. }
    congruence.
  - eapply (IH _ _ _ k1 k2); eauto. lia.
Qed.

End StructFieldsFacts.

(** C8 (as the code has it).  [ParseTag] answers a tag that combines
    [required] with [omitempty], or [required] with a [default=] part, with
    a validation error.  [GetStructFields] answers with a validation error
    when two of the registered fields share a position, and with the
    not-struct error when the type, after at most one pointer has been
    removed from it, is not of kind struct. *)
Theorem tag_model_errors (tag : string) (t u : GoType) :
  (In "required" (optionParts tag) ->
   In "omitempty" (optionParts tag)
   \/ (exists p, In p (optionParts tag) /\ isDefaultOption p = true) ->
   exists msg, ParseTag tag = Err (ValidationError "" tag msg))
  /\ (isStructKind (derefOnce t) = true ->
      (exists (k1 k2 : nat) f g p,
          (k1 < k2)%nat
          /\ structFields (derefOnce t) !! k1 = Some f
          /\ structFields (derefOnce t) !! k2 = Some g
          /\ taggedPosition f = Some p /\ taggedPosition g = Some p) ->
      exists name tv msg, GetStructFields t = Err (ValidationError name tv msg))
  /\ (isStructKind (derefOnce u) = false -> GetStructFields u = Err ErrNotStruct).
Proof.
  split; [apply ParseTag_conflict|]. split.
  - intros Hk (k1 & k2 & f & g & p & Hlt & H1 & H2 & Hf & Hg).
    unfold GetStructFields. fold (derefOnce t). rewrite Hk. cbn [negb].
    destruct (getStructFieldsLoop 0 (structFields (derefOnce t)) (∅, ∅)) as [st|e] eqn:E.
    + exfalso. eapply getStructFieldsLoop_distinct; eauto.
    + apply getStructFieldsLoop_err in E as (name & tv & msg & ->).
      simpl. eauto.
  - intros Hk. unfold GetStructFields. fold (derefOnce u). now rewrite Hk.
Qed.

Lemma tag_model_errors_witness :
  (exists msg, ParseTag "2,required,default=x"
               = Err (ValidationError "" "2,required,default=x" msg))
  /\ (exists name tv msg, GetStructFields clashingStruct = Err (ValidationError name tv msg))
  /\ GetStructFields (TSlice TString) = Err ErrNotStruct.
Proof.
  destruct (tag_model_errors "2,required,default=x" clashingStruct (TSlice TString))
    as (Ha & Hb & Hc).
  split; [|split].
  - apply Ha; [vm_compute; auto|].
    right. exists "default=x". split; [vm_compute; auto | reflexivity].
  - apply Hb; [reflexivity|].
    exists 0%nat, 1%nat, (StructField.mk "A" true (Some "1") TString),
      (StructField.mk "B" true (Some "1,omitempty") (TInt Int)), 1.
    repeat split. lia.
  - apply Hc. reflexivity.
Defined.

(** C8, as stated, fails on the code: the kind of a pointer-to-struct type
    is not struct, yet [GetStructFields] removes the pointer and returns the
    layout of the struct behind it. *)
Lemma pointer_type_counterexample :
  kindOf (TPtr addressStruct) = KPtr
  /\ isStructKind (TPtr addressStruct) = false
  /\ (exists fields,
         GetStructFields (TPtr addressStruct) = Ok fields
         /\ GetSortedPositions fields = [1; 2; 3]).
Proof.
  split; [reflexivity|]. split; [reflexivity|].
  eexists. split; [reflexivity|]. vm_compute. reflexivity.
Qed.

(** *** The layout: indices *)

Section LayoutFacts.

Lemma getStructFieldsStep_indexed i field st st' :
  getStructFieldsStep i field st = Ok st' ->
  layoutIndexed i (fst st) -> layoutIndexed (S i) (fst st').
Proof.
  unfold getStructFieldsStep. destruct st as [fields positions]; simpl.
  intros Hstep [Hb Hi].
  assert (Hweak : layoutIndexed (S i) fields).
  { split; [|exact Hi]. intros q f Hq. specialize (Hb q f Hq). lia. }
  destruct (StructField.Exported field); simpl in Hstep; [|now injection Hstep as <-].
  destruct (StructField.Tag field) as [tagValue|]; [|now injection Hstep as <-].
  destruct (String.eqb tagValue "-"); [now injection Hstep as <-|].
  destruct (ParseTag tagValue) as [opts|e]; [|destruct e; discriminate].
  destruct (positions !! TagOptions.Position opts); [discriminate|].
  injection Hstep as <-. simpl. split.
  - intros q f. destruct (decide (TagOptions.Position opts = q)) as [<-|Hne].
    + rewrite lookup_insert_eq. intros [= <-]. simpl. lia.
    + rewrite lookup_insert_ne by assumption. intros Hq.
      specialize (Hb q f Hq). lia.
  - intros q1 q2 f1 f2.
    destruct (decide (TagOptions.Position opts = q1)) as [<-|Hne1];
      destruct (decide (TagOptions.Position opts = q2)) as [<-|Hne2];
      rewrite ?lookup_insert_eq, ?lookup_insert_ne by assumption.
    + reflexivity.
    + intros [= <-] H2 Heq. simpl in Heq. specialize (Hb _ _ H2). lia.
    + intros H1 [= <-] Heq. simpl in Heq. specialize (Hb _ _ H1). lia.
    + apply Hi.
Qed.

Lemma getStructFieldsLoop_indexed fs :
  forall i st st',
    getStructFieldsLoop i fs st = Ok st' ->
    layoutIndexed i (fst st) -> layoutIndexed (i + List.length fs) (fst st').
Proof.
  induction fs as [|field rest IH]; intros i st st' Hloop Hinv; simpl in *.
  - injection Hloop as <-. now rewrite Nat.add_0_r.
  - destruct (getStructFieldsStep i field st) as [st1|e] eqn:E; simpl in Hloop;
      [|discriminate].
    replace (i + S (List.length rest))%nat with (S i + List.length rest)%nat by lia.
    eapply IH; [exact Hloop|]. eapply getStructFieldsStep_indexed; eassumption.
Qed.

(** The layout of a struct type points each position to a field of its
    own. *)
Lemma GetStructFields_indexed name methods sfields fields :
  GetStructFields (TStruct name methods sfields) = Ok fields ->
  layoutIndexed (List.length sfields) fields.
Proof.
  unfold GetStructFields. cbn.
  destruct (getStructFieldsLoop 0 sfields (∅, ∅)) as [st|e] eqn:E; simpl; [|discriminate].
  intros [= <-].
  apply (getStructFieldsLoop_indexed sfields 0 (∅, ∅) st E).
  split; simpl; intros *; rewrite lookup_empty; discriminate.
Qed.

End LayoutFacts.

(** ** Rows of clean elements *)

Section Elements.

Import StrFacts.

Lemma wordByte_facts (c : ascii) :
  wordByte c = true ->
  plainByte c = true /\ Str.spaceFirst c = false /\ Str.spaceLast c = false
  /\ Bytes.isSpace c = false /\ Ascii.eqb c Bytes.dquote = false
  /\ Ascii.eqb c Bytes.comma = false.
Proof.
  destruct c as [[] [] [] [] [] [] [] []]; vm_compute; intros H;
    try discriminate H; repeat split.
Qed.

Lemma lastByte_Some_app (s : string) (d : ascii) :
  lastByte s = Some d -> exists m, s = m +:+ Str.single d.
Proof.
  induction s as [|c s IH]; [discriminate|].
  destruct s as [|c' s'].
  - intros [= <-]. exists "". reflexivity.
  - intros H. change (lastByte (String c' s') = Some d) in H.
    destruct (IH H) as [m Hm]. exists (String c m). simpl. now rewrite <- Hm.
Qed.

Lemma lastByte_app (a b : string) : b <> "" -> lastByte (a +:+ b) = lastByte b.
Proof.
  intros Hb. induction a as [|c a IH]; [reflexivity|].
  simpl. destruct (a +:+ b) eqn:E; [|exact IH].
  destruct a; simpl in E; [contradiction | discriminate].
Qed.

(** [TrimSpace] leaves alone a string whose first and last bytes cannot
    belong to a white-space rune. *)
Lemma TrimSpace_ends (c d : ascii) (r : string) :
  Str.spaceFirst c = false -> lastByte (String c r) = Some d -> Str.spaceLast d = false ->
  Str.TrimSpace (String c r) = String c r.
Proof.
  intros Hc Hlast Hd. unfold Str.TrimSpace.
  assert (HL : Str.TrimLeftSpace (String c r) = String c r).
  { unfold Str.TrimLeftSpace. simpl String.length. cbn [Str.trimLeftFuel].
    now rewrite (spacePrefix_first _ _ Hc). }
  rewrite HL. unfold Str.TrimRightSpace.
  destruct (lastByte_Some_app _ _ Hlast) as [m Hm].
  assert (HR : Str.rev (String c r) = String d (Str.rev m)).
  { rewrite Hm, rev_app. reflexivity. }
  rewrite HR. simpl String.length. cbn [Str.trimLeftRevFuel].
  rewrite (spacePrefixRev_last _ _ Hd), <- HR. apply rev_involutive.
Qed.

Lemma forallb_last (p : ascii -> bool) (s : string) (d : ascii) :
  Str.forallb p s = true -> lastByte s = Some d -> p d = true.
Proof.
  induction s as [|c s IH]; [discriminate|]. simpl.
  intros [Hc Hs]%andb_prop. destruct s as [|c' s'].
  - now intros [= <-].
  - intros H. apply IH; assumption.
Qed.

(** A bare word is left alone by [TrimSpace]. *)
Lemma TrimSpace_word (w : string) :
  Str.forallb wordByte w = true -> Str.TrimSpace w = w.
Proof.
  intros Hw. destruct w as [|c r]; [reflexivity|].
  pose proof Hw as Hw'. simpl in Hw'. apply andb_prop in Hw' as [Hc _].
  destruct (lastByte (String c r)) as [d|] eqn:El.
  - apply (TrimSpace_ends c d).
    + apply (wordByte_facts c Hc).
    + exact El.
    + apply (wordByte_facts d). eapply forallb_last; eassumption.
  - exfalso. clear -El. revert c El. induction r as [|c' r IH]; intros c; [discriminate|].
    intros H. apply (IH c'). exact H.
Qed.

Lemma span_word (w tail : string) :
  Str.forallb wordByte w = true ->
  tail = "" \/ Str.startsWith Bytes.comma tail = true ->
  Str.span plainByte (w +:+ tail) = (w, tail).
Proof.
  intros Hw Htail. induction w as [|c w IH]; simpl.
  - destruct Htail as [->|Ht]; [reflexivity|].
    destruct tail as [|t tail']; [reflexivity|]. simpl in Ht.
    apply Ascii.eqb_eq in Ht as ->. reflexivity.
  - simpl in Hw. apply andb_prop in Hw as [Hc Hw].
    destruct (wordByte_facts c Hc) as (-> & _). now rewrite (IH Hw).
Qed.

Variable content : string.
Variable startPos : Z.

Lemma drop_advance (pos : Z) (a b : string) :
  0 <= pos ->
  Str.drop (Z.to_nat pos) content = a +:+ b ->
  Str.drop (Z.to_nat (pos + Str.len a)) content = b.
Proof.
  intros Hpos H. unfold Str.len.
  replace (Z.to_nat (pos + Z.of_nat (String.length a)))
    with (Z.to_nat pos + String.length a)%nat by lia.
  rewrite <- drop_drop, H. apply drop_app_length.
Qed.

Lemma drop_nonempty_lt (pos : Z) (c : ascii) (r : string) :
  0 <= pos -> Str.drop (Z.to_nat pos) content = String c r -> pos < Str.len content.
Proof.
  intros Hpos H. apply (f_equal String.length) in H. rewrite length_drop in H.
  simpl in H. unfold Str.len. lia.
Qed.

(** Scanning one clean element that is followed by a comma or by the end
    of the row: the token carries the value of the element, and the
    scanner stops right behind it. *)
Lemma scanAt_element (pos : Z) (e v tail : string) :
  0 <= pos ->
  element e v ->
  Str.drop (Z.to_nat pos) content = e +:+ tail ->
  tail = "" \/ Str.startsWith Bytes.comma tail = true ->
  skipSpaceAt content pos = pos
  /\ pos < Str.len content
  /\ exists token,
      scanAt content startPos pos = Ok (token, pos + Str.len e) /\ Value token = v.
Proof.
  intros Hpos He Hdrop Htail.
  assert (Hnq : Str.startsWith Bytes.dquote tail = false).
  { destruct Htail as [->|Ht]; [reflexivity|].
    destruct tail as [|t tail']; [reflexivity|]. simpl in Ht |- *.
    apply Ascii.eqb_eq in Ht as ->. reflexivity. }
  destruct He as [s|w Hne Hw].
  - (* an escaped string *)
    unfold EscapeString in Hdrop. simpl in Hdrop. rewrite app_assoc in Hdrop.
    simpl in Hdrop.
    split; [unfold skipSpaceAt; rewrite Hdrop; reflexivity|].
    split; [eapply drop_nonempty_lt; eassumption|].
    unfold scanAt, byteAt, parseQuotedString. rewrite Hdrop.
    change (Ascii.eqb Bytes.dquote Bytes.dquote) with true. cbv iota.
    rewrite (quotedLoop_escapeBytes_tail content startPos tail s Hnq).
    replace (pos + Str.len (EscapeString s))
      with (pos + 1 + Str.len (escapeBytes s) + 1)
      by (rewrite EscapeString_len; lia).
    eexists. split; reflexivity.
  - (* a bare word *)
    destruct w as [|c r]; [contradiction|].
    pose proof Hw as Hw'. simpl in Hw'. apply andb_prop in Hw' as [Hc _].
    destruct (wordByte_facts c Hc) as (_ & _ & _ & Hsp & Hq & _).
    simpl in Hdrop.
    split; [unfold skipSpaceAt; rewrite Hdrop; simpl; now rewrite Hsp|].
    split; [eapply drop_nonempty_lt; eassumption|].
    unfold scanAt, byteAt. rewrite Hdrop, Hq.
    rewrite parseUnquotedValue_span. unfold unquotedRun, unquotedRest. rewrite Hdrop.
    change (String c (r +:+ tail)) with (String c r +:+ tail).
    rewrite (span_word _ _ Hw Htail). cbn [fst snd]. rewrite Hnq.
    eexists. split; [reflexivity|]. cbn [Value]. apply TrimSpace_word, Hw.
Qed.

End Elements.

Section Rows.

Import StrFacts.

Lemma element_nonempty (e v : string) : element e v -> exists c r, e = String c r.
Proof. intros [s|w Hne Hw]; [eexists _, _; reflexivity|]. destruct w; [contradiction|eauto]. Qed.

(** The first byte of a clean element does not start a white-space rune,
    and its last byte does not end one. *)
Lemma element_ends (e v : string) :
  element e v ->
  exists c r d,
    e = String c r /\ Str.spaceFirst c = false
    /\ lastByte e = Some d /\ Str.spaceLast d = false.
Proof.
  intros [s|w Hne Hw].
  - exists Bytes.dquote, (escapeBytes s +:+ Str.single Bytes.dquote), Bytes.dquote.
    repeat split. unfold EscapeString.
    change (String Bytes.dquote (escapeBytes s +:+ Str.single Bytes.dquote))
      with (String Bytes.dquote (escapeBytes s) +:+ Str.single Bytes.dquote).
    apply lastByte_app_single.
  - destruct w as [|c r]; [contradiction|].
    pose proof Hw as Hw'. simpl in Hw'. apply andb_prop in Hw' as [Hc _].
    destruct (lastByte (String c r)) as [d|] eqn:El.
    + exists c, r, d. repeat split.
      * apply (wordByte_facts c Hc).
      * apply (wordByte_facts d). eapply forallb_last; eassumption.
    + exfalso. clear -El. revert c El.
      induction r as [|c' r IH]; intros c; [discriminate|].
      intros H. apply (IH c'). exact H.
Qed.

Variable content : string.
Variable startPos : Z.

(** The token loop reads a comma-separated sequence of clean elements
    back as their values. *)
Lemma parseTokensLoop_elements (es : list (string * string)) :
  Forall (fun ev => element (fst ev) (snd ev)) es ->
  es <> [] ->
  forall (pos : Z) (acc : list Token) (fuel : nat),
    0 <= pos ->
    Str.drop (Z.to_nat pos) content = Str.join "," (List.map fst es) ->
    Str.len content - pos < Z.of_nat fuel ->
    exists tokens,
      parseTokensLoop content startPos fuel pos acc = Ok (acc ++ tokens)
      /\ List.map Value tokens = List.map snd es.
Proof.
  induction es as [|[e v] es IH]; intros Hall Hne pos acc fuel Hpos Hdrop Hfuel;
    [contradiction|].
  apply Forall_cons_1 in Hall as [He Hall]. cbn [fst snd] in He.
  set (tail := match es with
               | [] => ""
               | _ => "," +:+ Str.join "," (List.map fst es)
               end).
  assert (Hjoin : Str.join "," (List.map fst ((e, v) :: es)) = e +:+ tail).
  { unfold tail. destruct es as [|[e2 v2] es']; simpl; [now rewrite app_nil_r | reflexivity]. }
  rewrite Hjoin in Hdrop.
  assert (Htail : tail = "" \/ Str.startsWith Bytes.comma tail = true).
  { unfold tail. destruct es; [now left | now right]. }
  destruct (scanAt_element content startPos pos e v tail Hpos He Hdrop Htail)
    as (Hskip & Hlt & token & Hscan & Hval).
  destruct fuel as [|fuel]; [simpl in Hfuel; lia|].
  cbn [parseTokensLoop].
  destruct (Z.ltb_spec pos (Str.len content)); [|lia]. cbn [negb].
  rewrite Hskip. destruct (Z.leb_spec (Str.len content) pos); [lia|].
  rewrite Hscan. cbn [bind].
  pose proof (drop_advance content pos e tail Hpos Hdrop) as Hrest.
  pose proof (len_nonneg e) as Hle.
  destruct es as [|[e2 v2] es'].
  - (* the last element *)
    unfold tail in Hrest.
    assert (Hend : Str.len content <= pos + Str.len e).
    { apply (f_equal String.length) in Hrest. rewrite length_drop in Hrest.
      simpl in Hrest. unfold Str.len in *. lia. }
    rewrite skipSpaceAt_end by assumption.
    destruct (Z.ltb_spec (pos + Str.len e) (Str.len content)); [lia|].
    rewrite parseTokensLoop_end by assumption.
    exists [token]. split; [reflexivity|]. simpl. now rewrite Hval.
  - (* an element followed by a comma *)
    unfold tail in Hrest. cbn [String.append] in Hrest.
    assert (Hskip2 : skipSpaceAt content (pos + Str.len e) = pos + Str.len e).
    { unfold skipSpaceAt. rewrite Hrest. reflexivity. }
    rewrite Hskip2.
    assert (Hlt2 : pos + Str.len e < Str.len content).
    { eapply drop_nonempty_lt; [lia | exact Hrest]. }
    destruct (Z.ltb_spec (pos + Str.len e) (Str.len content)); [|lia].
    unfold byteAt. rewrite Hrest.
    change (Ascii.eqb "," Bytes.comma) with true. cbv iota.
    destruct (IH Hall ltac:(discriminate) (pos + Str.len e + 1) (acc ++ [token]) fuel)
      as (tokens & Hloop & Hvals).
    + lia.
    + apply (drop_advance content (pos + Str.len e) "," _); [lia | exact Hrest].
    + lia.
    + exists (token :: tokens). rewrite Hloop. split.
      * now rewrite <- List.app_assoc.
      * simpl. now rewrite Hval, Hvals.
Qed.

End Rows.

(** A row built from clean elements is read back as their values. *)
Lemma ParseRowLiteral_elements (es : list (string * string)) :
  Forall (fun ev => element (fst ev) (snd ev)) es ->
  es <> [] ->
  exists tokens,
    ParseRowLiteral (BuildRowLiteral (List.map fst es)) = Ok tokens
    /\ List.map Value tokens = List.map snd es.
Proof.
  intros Hall Hne.
  set (body := Str.join "," (List.map fst es)).
  assert (Hbody : exists c r d, body = String c r /\ Str.spaceFirst c = false
                                /\ lastByte body = Some d /\ Str.spaceLast d = false).
  { unfold body. clear body. induction es as [|[e v] es IH]; [contradiction|].
    apply Forall_cons_1 in Hall as [He Hall]. cbn [fst snd] in He.
    destruct (element_ends e v He) as (c & r & d & -> & Hc & Hl & Hd).
    destruct es as [|[e2 v2] es'].
    - exists c, r, d. simpl. auto.
    - destruct (IH Hall ltac:(discriminate)) as (c2 & r2 & d2 & Hb & _ & Hl2 & Hd2).
      exists c, (r +:+ "," +:+ Str.join "," (List.map fst ((e2, v2) :: es'))), d2.
      split; [reflexivity|]. split; [exact Hc|]. split; [|exact Hd2].
      change (Str.join "," (List.map fst ((String c r, v) :: (e2, v2) :: es')))
        with (String c r +:+ "," +:+ Str.join "," (List.map fst ((e2, v2) :: es'))).
      rewrite lastByte_app by discriminate.
      rewrite lastByte_app by (rewrite Hb; discriminate). exact Hl2. }
  destruct Hbody as (c & r & d & Hb & Hc & Hl & Hd).
  unfold ParseRowLiteral, BuildRowLiteral. fold body.
  change ("(" +:+ body +:+ ")") with (String Bytes.lparen (body +:+ Str.single Bytes.rparen)).
  rewrite StrFacts.TrimSpace_id by reflexivity.
  cbv iota. change (Ascii.eqb Bytes.lparen Bytes.lparen) with true. cbn [negb].
  change (String Bytes.lparen (body +:+ Str.single Bytes.rparen))
    with (String Bytes.lparen body +:+ Str.single Bytes.rparen) at 1.
  rewrite StrFacts.lastByte_app_single.
  change (Ascii.eqb Bytes.rparen Bytes.rparen) with true. cbn [negb].
  assert (Hslice : Str.slice 1 (Str.len (String Bytes.lparen (body +:+ Str.single Bytes.rparen)) - 1)
                     (String Bytes.lparen (body +:+ Str.single Bytes.rparen)) = body).
  { unfold Str.slice. change (Z.to_nat 1) with 1%nat. cbn [Str.drop].
    rewrite StrFacts.len_cons, StrFacts.len_app.
    replace (Z.to_nat (1 + (Str.len body + Str.len (Str.single Bytes.rparen)) - 1 - 1))
      with (String.length body) by (unfold Str.len; simpl; lia).
    apply StrFacts.take_app_length. }
  rewrite Hslice.
  assert (Htrim : Str.TrimSpace body = body).
  { rewrite Hb. apply (TrimSpace_ends c d); [exact Hc | now rewrite <- Hb | exact Hd]. }
  rewrite Htrim.
  destruct (String.eqb_spec body "") as [E|_]; [rewrite Hb in E; discriminate|].
  unfold parseTokens.
  destruct (parseTokensLoop_elements body 1 es Hall Hne 0 [] (S (String.length body)))
    as (tokens & Hloop & Hvals); [lia | reflexivity | unfold Str.len; lia |].
  exists tokens. split; [exact Hloop | exact Hvals].
Qed.

(** ** Decimal numerals *)

Module strconvFacts.

Lemma digitsValue_acc (d : Decimal.uint) :
  forall acc, 0 <= acc -> acc <= digitsValue d acc.
Proof.
  induction d; intros acc Hacc; cbn [digitsValue]; [lia|..];
    (etransitivity; [|apply IHd]; lia).
Qed.

Lemma digitsValue_pos (d : Decimal.uint) :
  forall p, digitsValue d (Z.pos p) = Z.pos (Pos.of_uint_acc d p).
Proof.
  induction d; intros p; cbn [digitsValue Pos.of_uint_acc]; [reflexivity|..];
    rewrite <- IHd; apply f_equal; lia.
Qed.

Lemma digitsValue_N (d : Decimal.uint) : digitsValue d 0 = Z.of_N (Pos.of_uint d).
Proof.
  induction d; cbn [digitsValue Pos.of_uint]; [reflexivity | exact IHd |..];
    cbn [Z.mul Z.add Z.of_N]; rewrite <- digitsValue_pos; reflexivity.
Qed.

Lemma digitsValue_to_uint (p : positive) : digitsValue (Pos.to_uint p) 0 = Z.pos p.
Proof. rewrite digitsValue_N, DecimalPos.Unsigned.of_to. reflexivity. Qed.

Lemma to_uint_nonnil (p : positive) : Pos.to_uint p <> Decimal.Nil.
Proof.
  intros H. pose proof (DecimalPos.Unsigned.of_to p) as E.
  rewrite H in E. discriminate E.
Qed.

Lemma parseUintLoop_step (maxVal : Z) (c : ascii) (rest : string) (n k : Z) :
  Bytes.isDigit c = true ->
  Z.of_N (Bytes.code c) - 48 = k ->
  n * 10 + k <= maxVal -> maxVal < 2 ^ 64 -> 0 <= k -> 0 <= n ->
  strconv.parseUintLoop maxVal (String c rest) n
  = strconv.parseUintLoop maxVal rest (n * 10 + k).
Proof.
  intros Hd Hk Hmax Hlt Hk0 Hn. cbn [strconv.parseUintLoop]. rewrite Hd, Hk.
  assert (H64 : (2 ^ 64 - 1) / 10 + 1 = 1844674407370955162) by reflexivity.
  rewrite H64.
  assert (H2 : 2 ^ 64 = 18446744073709551616) by reflexivity.
  rewrite H2 in *.
  destruct (Z.leb_spec 1844674407370955162 n); [lia|].
  destruct (Z.leb_spec 18446744073709551616 (n * 10 + k)); [lia|].
  destruct (Z.ltb_spec maxVal (n * 10 + k)); [lia|].
  reflexivity.
Qed.

Lemma parseUintLoop_digits (maxVal : Z) (d : Decimal.uint) :
  maxVal < 2 ^ 64 ->
  forall n, 0 <= n -> digitsValue d n <= maxVal ->
  strconv.parseUintLoop maxVal (DecimalString.NilEmpty.string_of_uint d) n
  = inr (digitsValue d n).
Proof.
  intros Hmax. induction d; intros n Hn Hle;
    cbn [DecimalString.NilEmpty.string_of_uint digitsValue] in *; [reflexivity|..];
    match goal with
    | H : digitsValue _ (n * 10 + ?k) <= _ |- _ =>
        pose proof (digitsValue_acc d (n * 10 + k) ltac:(lia));
        rewrite (parseUintLoop_step maxVal _ _ n k)
          by (reflexivity || lia);
        apply IHd; [lia | exact H]
    end.
Qed.

Lemma digits_word (d : Decimal.uint) :
  Str.forallb wordByte (DecimalString.NilEmpty.string_of_uint d) = true.
Proof. induction d; [reflexivity|..]; exact IHd. Qed.

Lemma FormatInt_pos (p : positive) :
  strconv.FormatInt (Z.pos p) = DecimalString.NilEmpty.string_of_uint (Pos.to_uint p).
Proof.
  unfold strconv.FormatInt. cbn [Z.to_int DecimalString.NilZero.string_of_int].
  pose proof (to_uint_nonnil p). destruct (Pos.to_uint p); [contradiction|..]; reflexivity.
Qed.

Lemma FormatInt_neg (p : positive) :
  strconv.FormatInt (Z.neg p)
  = String "-" (DecimalString.NilEmpty.string_of_uint (Pos.to_uint p)).
Proof.
  unfold strconv.FormatInt. cbn [Z.to_int DecimalString.NilZero.string_of_int].
  pose proof (to_uint_nonnil p). destruct (Pos.to_uint p); [contradiction|..]; reflexivity.
Qed.

(** The digits of a positive number, with the first one apart. *)
Lemma digits_first (p : positive) :
  exists c rest,
    DecimalString.NilEmpty.string_of_uint (Pos.to_uint p) = String c rest
    /\ Ascii.eqb c "+" = false /\ Ascii.eqb c "-" = false.
Proof.
  pose proof (to_uint_nonnil p).
  destruct (Pos.to_uint p); [contradiction|..]; eexists _, _; repeat split.
Qed.

Lemma ParseUint_digits (p : positive) (bitSize : Z) :
  0 < bitSize <= 64 -> Z.pos p < 2 ^ bitSize ->
  strconv.ParseUint (DecimalString.NilEmpty.string_of_uint (Pos.to_uint p)) bitSize
  = inr (Z.pos p).
Proof.
  intros Hb Hp. unfold strconv.ParseUint.
  destruct (digits_first p) as (c & rest & E & _). rewrite E, <- E.
  assert (2 ^ bitSize <= 2 ^ 64) by (apply Z.pow_le_mono_r; lia).
  rewrite parseUintLoop_digits; rewrite ?digitsValue_to_uint; [reflexivity|lia..].
Qed.

Lemma ParseUint_FormatUint (n bitSize : Z) :
  0 < bitSize <= 64 -> uintInRange bitSize n = true ->
  strconv.ParseUint (strconv.FormatUint n) bitSize = inr n.
Proof.
  intros Hb Hr. unfold uintInRange in Hr. apply andb_prop in Hr as [H0 H1].
  apply Z.leb_le in H0. apply Z.ltb_lt in H1.
  unfold strconv.FormatUint. destruct n as [|p|p]; [| |lia].
  - assert (2 ^ bitSize <= 2 ^ 64) by (apply Z.pow_le_mono_r; lia).
    change (strconv.FormatInt 0) with "0". unfold strconv.ParseUint.
    rewrite (parseUintLoop_step _ _ _ 0 0); [reflexivity..| | | |]; lia.
  - rewrite FormatInt_pos. now apply ParseUint_digits.
Qed.

Lemma ParseInt_FormatInt (n bitSize : Z) :
  0 < bitSize <= 64 -> intInRange bitSize n = true ->
  strconv.ParseInt (strconv.FormatInt n) bitSize = inr n.
Proof.
  intros Hb Hr. unfold intInRange in Hr. apply andb_prop in Hr as [H0 H1].
  apply Z.leb_le in H0. apply Z.ltb_lt in H1.
  assert (Hpow : 2 ^ bitSize = 2 * 2 ^ (bitSize - 1)).
  { rewrite <- Z.pow_succ_r by lia. f_equal. lia. }
  assert (0 < 2 ^ (bitSize - 1)) by (apply Z.pow_pos_nonneg; lia).
  destruct n as [|p|p].
  - assert (2 ^ bitSize <= 2 ^ 64) by (apply Z.pow_le_mono_r; lia).
    change (strconv.FormatInt 0) with "0". unfold strconv.ParseInt.
    change (Ascii.eqb "0" "+") with false. change (Ascii.eqb "0" "-") with false.
    cbv iota. unfold strconv.ParseUint.
    rewrite (parseUintLoop_step _ _ _ 0 0); [| reflexivity..| | | |]; try lia.
    cbn [strconv.parseUintLoop negb andb]. change (0 * 10 + 0) with 0.
    destruct (Z.leb_spec (2 ^ (bitSize - 1)) 0); [lia | reflexivity].
  - rewrite FormatInt_pos. unfold strconv.ParseInt.
    destruct (digits_first p) as (c & rest & E & Hplus & Hminus).
    rewrite E, Hplus, Hminus, <- E. rewrite ParseUint_digits by lia.
    cbn [negb andb].
    destruct (Z.leb_spec (2 ^ (bitSize - 1)) (Z.pos p)); [lia | reflexivity].
  - rewrite FormatInt_neg. unfold strconv.ParseInt.
    change (Ascii.eqb "-" "+") with false. change (Ascii.eqb "-" "-") with true.
    cbv iota. rewrite ParseUint_digits by lia.
    cbn [negb andb].
    destruct (Z.ltb_spec (2 ^ (bitSize - 1)) (Z.pos p)); [lia | reflexivity].
Qed.

(** A numeral is a bare word. *)
Lemma FormatInt_word (n : Z) :
  strconv.FormatInt n <> "" /\ Str.forallb wordByte (strconv.FormatInt n) = true.
Proof.
  destruct n as [|p|p].
  - split; [discriminate | reflexivity].
  - rewrite FormatInt_pos. split; [|apply digits_word].
    destruct (digits_first p) as (c & rest & -> & _). discriminate.
  - rewrite FormatInt_neg. split; [discriminate|].
    exact (digits_word (Pos.to_uint p)).
Qed.

(** A numeral is not a spelling of null. *)
Lemma FormatInt_not_null (n : Z) : Str.EqualFoldAscii (strconv.FormatInt n) "null" = false.
Proof.
  destruct n as [|p|p]; [reflexivity| |].
  - rewrite FormatInt_pos. pose proof (to_uint_nonnil p).
    destruct (Pos.to_uint p); [contradiction|..]; reflexivity.
  - rewrite FormatInt_neg. reflexivity.
Qed.

End strconvFacts.

(** ** The value converter *)

Section ConvertFacts.

Context {L : GoLib}.

Lemma FormatInt_not_NULL (n : Z) : strconv.FormatInt n <> "NULL".
Proof.
  unfold strconv.FormatInt.
  destruct n as [|p|p]; cbn; try discriminate;
    destruct (Pos.to_uint p); cbn; discriminate.
Qed.

Lemma EscapeString_not_NULL (s : string) : EscapeString s <> "NULL".
Proof. discriminate. Qed.

(** The wrappers are handled by [convertSQLNull] before the switch on the
    kind. *)
Lemma ConvertToType_null (k : NullKind) (value fieldName : string) (fieldPos : Z) :
  ConvertToType value (TNull k) fieldName fieldPos
  = if isNullText value then Ok (invalidNull k)
    else decodeNull k value fieldName fieldPos.
Proof. reflexivity. Qed.

Lemma decodeNull_inner (k : NullKind) (value fieldName : string) (fieldPos : Z) :
  decodeNull k value fieldName fieldPos
  = (try inner <- ConvertToType value (innerType k) fieldName fieldPos;
     Ok (markValid k inner)).
Proof.
  destruct k; cbn;
    match goal with
    | |- context [convertToBool ?a ?b ?c] => destruct (convertToBool a b c)
    | |- context [convertToInt ?a ?b ?c ?d ?e] => destruct (convertToInt a b c d e)
    | |- context [convertToUint ?a ?b ?c ?d ?e] => destruct (convertToUint a b c d e)
    | |- context [convertToFloat ?a ?b ?c ?d ?e] => destruct (convertToFloat a b c d e)
    | |- context [convertToTime ?a ?b ?c] => destruct (convertToTime a b c)
    | _ => idtac
    end; reflexivity.
Qed.

End ConvertFacts.

(** C5. A recognized nullable wrapper encodes as the bare literal [NULL]
    exactly when it is invalid; a valid wrapper around the empty string
    encodes as the quoted empty string, and so does a valid wrapper around
    a zero time.  Decoding a wrapper from the empty text, or from [null] in
    any mix of cases, gives the invalid wrapper; any other text is decoded
    as the inner kind decodes it, and the wrapper is marked valid. *)
Theorem null_wrapper_codec {L : GoLib} (v : goValue) (k : NullKind)
        (text fieldName : string) (fieldPos : Z) (s : string) (t : time) :
  match nullValid v with
  | Some valid =>
      exists encoded,
        formatSQLNull v = Some encoded
        /\ FormatValue v = Ok encoded
        /\ (encoded = "NULL" <-> valid = false)
  | None => formatSQLNull v = None
  end
  /\ FormatValue (VNullString "" true)
     = Ok (String Bytes.dquote (String Bytes.dquote EmptyString))
  /\ FormatValue (VNullString s true) = Ok (EscapeString s)
  /\ FormatValue (VNullTime t true)
     = Ok (if timeIsZero t
           then String Bytes.dquote (String Bytes.dquote EmptyString)
           else EscapeString (timeFormat t RFC3339))
  /\ convertSQLNull text (TNull k) fieldName fieldPos
     = Some (ConvertToType text (TNull k) fieldName fieldPos)
  /\ ConvertToType text (TNull k) fieldName fieldPos
     = (if String.eqb text "" || Str.EqualFoldAscii text "null"
        then Ok (invalidNull k)
        else try inner <- ConvertToType text (innerType k) fieldName fieldPos;
             Ok (markValid k inner))
  /\ nullValid (invalidNull k) = Some false
  /\ match ConvertToType text (TNull k) fieldName fieldPos with
     | Ok w => nullValid w = Some (negb (String.eqb text "" || Str.EqualFoldAscii text "null"))
     | Err _ => String.eqb text "" || Str.EqualFoldAscii text "null" = false
     end.
Proof.
  assert (Hdec : ConvertToType text (TNull k) fieldName fieldPos
                 = (if String.eqb text "" || Str.EqualFoldAscii text "null"
                    then Ok (invalidNull k)
                    else try inner <- ConvertToType text (innerType k) fieldName fieldPos;
                         Ok (markValid k inner))).
  { rewrite ConvertToType_null, decodeNull_inner. reflexivity. }
  split; [|split; [|split; [|split; [|split; [|split; [|split]]]]]].
  - destruct v; cbn [nullValid]; try reflexivity;
      destruct valid; cbn [formatSQLNull negb];
      eexists; (split; [reflexivity|]); (split; [reflexivity|]);
      try (split; [intros _|]; reflexivity);
      (split; [intros H; exfalso; revert H | discriminate]).
    + apply EscapeString_not_NULL.
    + destruct b; discriminate.
    + apply FormatInt_not_NULL.
    + apply FormatInt_not_NULL.
    + apply FormatInt_not_NULL.
    + apply FormatInt_not_NULL.
    + apply FormatFloat_not_NULL.
    + destruct (timeIsZero t0); discriminate.
  - reflexivity.
  - reflexivity.
  - cbn. destruct (timeIsZero t); reflexivity.
  - reflexivity.
  - exact Hdec.
  - destruct k; reflexivity.
  - rewrite Hdec.
    destruct (String.eqb text "" || Str.EqualFoldAscii text "null").
    + destruct k; reflexivity.
    + destruct (ConvertToType text (innerType k) fieldName fieldPos) as [inner|e] eqn:E;
        cbn [bind]; [|reflexivity].
      destruct k; cbn [innerType] in E; cbn in E;
        match type of E with
        | context [convertToBool ?a ?b ?c] => destruct (convertToBool a b c)
        | context [convertToInt ?a ?b ?c ?d ?e] => destruct (convertToInt a b c d e)
        | context [convertToUint ?a ?b ?c ?d ?e] => destruct (convertToUint a b c d e)
        | context [convertToFloat ?a ?b ?c ?d ?e] => destruct (convertToFloat a b c d e)
        | context [convertToTime ?a ?b ?c] => destruct (convertToTime a b c)
        | _ => idtac
        end; cbn in E; try discriminate E; injection E as <-; reflexivity.
Qed.

(** ** Unmarshal *)

Lemma ascending_admissible : rangeAdmissible ascending.
Proof. intros keys. apply merge_sort_Permutation. Qed.

Lemma descending_admissible : rangeAdmissible descending.
Proof.
  intros keys. unfold descending.
  etransitivity; [symmetry; apply Permutation_rev | apply merge_sort_Permutation].
Qed.

(** Strict mode rejects a row with more tokens than the largest position. *)
Lemma UnmarshalStrict_extra_tokens {L : GoLib} (rangeOrder : list Z -> list Z)
      (data name : string) (methods : Methods) (sfields : list StructField)
      (vals : list goValue) (elem : GoType) (tokens : list Token)
      (fields : gmap Z FieldInfo) :
  ParseRowLiteral data = Ok tokens ->
  GetStructFields (TStruct name methods sfields) = Ok fields ->
  GetMaxPosition fields < Z.of_nat (List.length tokens) ->
  UnmarshalStrict rangeOrder data (Some (VPtr elem (Some (VStruct name methods sfields vals))))
  = (Some (VPtr elem (Some (VStruct name methods sfields vals))),
     Some (ValidationError "" "" "row has more values than struct has tagged fields")).
Proof.
  intros Hp Hf Hlt. unfold UnmarshalStrict, withStructPointer.
  rewrite Hp, Hf. destruct (Z.ltb_spec (GetMaxPosition fields) (Z.of_nat (length tokens)));
    [reflexivity | lia].
Qed.

(** C4 at a record with two required fields and the empty row [()]: both
    fields are missing.  The error names whichever field the range over
    the map of missing fields yields first; under the descending order,
    which Go allows as well as any other, that is [B] at position 2, not
    the first missing field [A]. *)
Theorem missing_required_names_any_field :
  rangeAdmissible descending
  /\ snd (Unmarshal (L := textLib) descending "()"
                    (pointerTo requiredPair [VString ""; VString ""]))
     = Some (ValidationError "B" "" "required field at position 2 is missing")
  /\ snd (Unmarshal (L := textLib) ascending "()"
                    (pointerTo requiredPair [VString ""; VString ""]))
     = Some (ValidationError "A" "" "required field at position 1 is missing").
Proof.
  split; [apply descending_admissible|]. split; vm_compute; reflexivity.
Qed.

(** *** Conversion errors carry the position they were asked for *)

Section ConvertErrors.

Context {L : GoLib}.

Ltac mismatch := do 4 eexists; reflexivity.

Lemma convertToInt_err value k t name pos e :
  convertToInt value k t name pos = Err e -> mismatchAt pos e.
Proof.
  unfold convertToInt. destruct (String.eqb value ""); [discriminate|].
  destruct (strconv.ParseInt _ _); [|discriminate]. intros [= <-]. mismatch.
Qed.

Lemma convertToUint_err value k t name pos e :
  convertToUint value k t name pos = Err e -> mismatchAt pos e.
Proof.
  unfold convertToUint. destruct (String.eqb value ""); [discriminate|].
  destruct (strconv.ParseUint _ _); [|discriminate]. intros [= <-]. mismatch.
Qed.

Lemma convertToFloat_err value bits t name pos e :
  convertToFloat value bits t name pos = Err e -> mismatchAt pos e.
Proof.
  unfold convertToFloat. destruct (String.eqb value ""); [discriminate|].
  destruct (ParseFloat _ _); [|discriminate]. intros [= <-]. mismatch.
Qed.

Lemma convertToBool_err value name pos e :
  convertToBool value name pos = Err e -> mismatchAt pos e.
Proof.
  unfold convertToBool. destruct (String.eqb value ""); [discriminate|].
  destruct (existsb _ _); [discriminate|].
  destruct (existsb _ _); [discriminate|]. intros [= <-]. mismatch.
Qed.

Lemma convertToTime_err value name pos e :
  convertToTime value name pos = Err e -> mismatchAt pos e.
Proof.
  unfold convertToTime. destruct (String.eqb value ""); [discriminate|].
  destruct (firstParse _ _); [discriminate|]. intros [= <-]. mismatch.
Qed.

Lemma decodeNull_err k value name pos e :
  decodeNull k value name pos = Err e -> mismatchAt pos e.
Proof.
  destruct k; cbn; try discriminate;
    match goal with
    | |- context [convertToBool ?a ?b ?c] =>
        destruct (convertToBool a b c) eqn:E; [discriminate|];
        apply convertToBool_err in E
    | |- context [convertToInt ?a ?b ?c ?d ?e] =>
        destruct (convertToInt a b c d e) eqn:E; [discriminate|];
        apply convertToInt_err in E
    | |- context [convertToUint ?a ?b ?c ?d ?e] =>
        destruct (convertToUint a b c d e) eqn:E; [discriminate|];
        apply convertToUint_err in E
    | |- context [convertToFloat ?a ?b ?c ?d ?e] =>
        destruct (convertToFloat a b c d e) eqn:E; [discriminate|];
        apply convertToFloat_err in E
    | |- context [convertToTime ?a ?b ?c] =>
        destruct (convertToTime a b c) eqn:E; [discriminate|];
        apply convertToTime_err in E
    end; cbn; intros [= <-]; exact E.
Qed.

Lemma convertElements_err conv pos :
  (forall v name e, conv v name pos = Err e -> mismatchAt pos e) ->
  forall elements i name slice e,
    convertElements conv elements i name pos slice = Err e -> mismatchAt pos e.
Proof.
  intros Hconv. induction elements as [|elem rest IH]; intros i name slice e; cbn;
    [discriminate|].
  destruct (conv _ _ pos) as [v|e'] eqn:E; cbn.
  - apply IH.
  - intros [= <-]. eapply Hconv; eassumption.
Qed.

Lemma convertToSlice_err conv value t elem name pos e :
  (forall v name e, conv v name pos = Err e -> mismatchAt pos e) ->
  convertToSlice conv value t elem name pos = Err e -> mismatchAt pos e.
Proof.
  intros Hconv. unfold convertToSlice.
  destruct (String.eqb value ""); [discriminate|].
  destruct (_ || _ || _); [intros [= <-]; mismatch|].
  destruct (String.eqb _ ""); [discriminate|].
  destruct (convertElements _ _ _ _ _ _) as [slice|e'] eqn:E; cbn; [discriminate|].
  intros [= <-]. eapply convertElements_err; eassumption.
Qed.

(** Every error of [ConvertToType] is a type mismatch that carries the
    position handed to it. *)
Lemma ConvertToType_err (t : GoType) :
  forall value name pos e,
    ConvertToType value t name pos = Err e -> mismatchAt pos e.
Proof.
  induction t as [| |k|k| | |elem IH|elem IH|k| |sname methods sfields|oname];
    intros value name pos e; cbn.
  - discriminate.
  - destruct (convertToBool value name pos) eqn:E; cbn; [discriminate|].
    intros [= <-]. eapply convertToBool_err; eassumption.
  - destruct (convertToInt value k (TInt k) name pos) eqn:E; cbn; [discriminate|].
    intros [= <-]. eapply convertToInt_err; eassumption.
  - destruct (convertToUint value k (TUint k) name pos) eqn:E; cbn; [discriminate|].
    intros [= <-]. eapply convertToUint_err; eassumption.
  - destruct (convertToFloat value 32 TFloat32 name pos) eqn:E; cbn; [discriminate|].
    intros [= <-]. eapply convertToFloat_err; eassumption.
  - destruct (convertToFloat value 64 TFloat64 name pos) eqn:E; cbn; [discriminate|].
    intros [= <-]. eapply convertToFloat_err; eassumption.
  - destruct (String.eqb value ""); [discriminate|].
    destruct (ConvertToType value elem name pos) eqn:E; cbn; [discriminate|].
    intros [= <-]. eapply IH; eassumption.
  - apply convertToSlice_err. intros v n e'. apply IH.
  - destruct (isNullText value); [discriminate | apply decodeNull_err].
  - destruct (convertToTime value name pos) eqn:E; cbn; [discriminate|].
    intros [= <-]. eapply convertToTime_err; eassumption.
  - destruct (implScanner methods).
    { destruct (userScan sname value); [|discriminate]. intros [= <-]. mismatch. }
    destruct (implStringParser methods).
    { destruct (userParseString sname value); [|discriminate]. intros [= <-]. mismatch. }
    intros [= <-]. mismatch.
  - intros [= <-]. mismatch.
Qed.

End ConvertErrors.

(** *** The assignment pass *)

Section AssignFacts.

Context {L : GoLib}.

Variable fields : gmap Z FieldInfo.

Lemma lookup_token_tail (token : Token) (rest : list Token) (q i : Z) :
  i + 1 < q ->
  (token :: rest) !! Z.to_nat (q - i - 1) = rest !! Z.to_nat (q - (i + 1) - 1).
Proof.
  intros H. replace (Z.to_nat (q - i - 1)) with (S (Z.to_nat (q - (i + 1) - 1))) by lia.
  reflexivity.
Qed.

(** When the assignment pass stops on a conversion error, the error is
    that of the token at its position [p]; the fields of the positions
    before [p] hold what their tokens decode to, and no other field of
    the struct has been touched. *)
Lemma assignLoop_error (tokens : list Token) :
  forall (i : Z) (vals : list goValue) (required : gmap Z string) st' err,
    layoutIndexed (List.length vals) fields ->
    assignLoop fields tokens i (vals, required) = (st', Some err) ->
    exists p field token,
      i < p <= i + Z.of_nat (List.length tokens)
      /\ fields !! p = Some field
      /\ tokens !! Z.to_nat (p - i - 1) = Some token
      /\ ConvertToType (valueStrOf field token) (FieldInfo.Typ field)
                       (FieldInfo.Name field) p = Err err
      /\ (forall q f tok,
             i < q < p -> fields !! q = Some f ->
             tokens !! Z.to_nat (q - i - 1) = Some tok ->
             exists decoded,
               ConvertToType (valueStrOf f tok) (FieldInfo.Typ f) (FieldInfo.Name f) q
               = Ok decoded
               /\ fst st' !! FieldInfo.Index f = Some decoded)
      /\ (forall idx,
             (forall q f, i < q < p -> fields !! q = Some f -> FieldInfo.Index f <> idx) ->
             fst st' !! idx = vals !! idx).
Proof.
  induction tokens as [|token rest IH]; intros i vals required st' err Hlay Hloop;
    cbn [assignLoop] in Hloop; [discriminate|].
  cbn [List.length]. destruct (fields !! (i + 1)) as [field|] eqn:Ef.
  - cbn [fst snd] in Hloop.
    destruct (ConvertToType (valueStrOf field token) (FieldInfo.Typ field)
                            (FieldInfo.Name field) (i + 1)) as [converted|e] eqn:Ec.
    + (* the token at [i + 1] is converted and stored *)
      apply IH in Hloop as (p & fp & tp & Hp & Hfp & Htp & Herr & Hbefore & Hframe);
        [|now rewrite length_insert].
      destruct Hlay as [Hbound Hinj].
      exists p, fp, tp.
      split; [lia|]. split; [assumption|]. split; [|split; [assumption|split]].
      * rewrite lookup_token_tail by lia. exact Htp.
      * intros q f tok Hq Hf Htok.
        destruct (decide (q = i + 1)) as [->|Hne].
        -- rewrite Ef in Hf. injection Hf as <-.
           replace (Z.to_nat (i + 1 - i - 1)) with 0%nat in Htok by lia.
           injection Htok as <-. exists converted. split; [exact Ec|].
           rewrite Hframe.
           ++ apply list_lookup_insert_eq. eapply Hbound; eassumption.
           ++ intros q' f' Hq' Hf' Heq.
              assert (q' = i + 1) by (eapply Hinj; eassumption). lia.
        -- rewrite lookup_token_tail in Htok by lia.
           apply (Hbefore q f tok); [lia | assumption | assumption].
      * intros idx Hidx. rewrite Hframe.
        -- apply list_lookup_insert_ne. apply (Hidx (i + 1) field); [lia | exact Ef].
        -- intros q f Hq. apply Hidx. lia.
    + (* the token at [i + 1] is the one that fails *)
      injection Hloop as <- <-. exists (i + 1), field, token.
      split; [lia|]. split; [assumption|]. split; [|split; [assumption|split]].
      * replace (Z.to_nat (i + 1 - i - 1)) with 0%nat by lia. reflexivity.
      * intros q f tok Hq. lia.
      * reflexivity.
  - (* no field at position [i + 1]: the token is skipped *)
    apply IH in Hloop as (p & fp & tp & Hp & Hfp & Htp & Herr & Hbefore & Hframe);
      [|assumption].
    exists p, fp, tp.
    split; [lia|]. split; [assumption|]. split; [|split; [assumption|split]].
    + rewrite lookup_token_tail by lia. exact Htp.
    + intros q f tok Hq Hf Htok.
      destruct (decide (q = i + 1)) as [->|Hne]; [congruence|].
      rewrite lookup_token_tail in Htok by lia.
      apply (Hbefore q f tok); [lia | assumption | assumption].
    + intros idx Hidx. apply Hframe. intros q f Hq. apply Hidx. lia.
Qed.

(** An error of the defaults pass belongs to a position beyond the
    tokens. *)
Lemma defaultsLoop_error (ntokens : Z) (order : list Z) :
  forall st st' err,
    defaultsLoop fields ntokens order st = (st', Some err) ->
    exists pos, ntokens < pos /\ mismatchAt pos err.
Proof.
  induction order as [|pos rest IH]; intros st st' err; cbn [defaultsLoop];
    [discriminate|].
  destruct (fields !! pos) as [field|]; [|apply IH].
  destruct (Z.ltb_spec ntokens pos); cbn [andb]; [|apply IH].
  destruct (TagOptions.HasDefault (FieldInfo.Options field)); [|apply IH].
  destruct (ConvertToType _ _ _ pos) as [converted|e] eqn:Ec; [apply IH|].
  intros [= <- <-]. exists pos. split; [assumption|].
  eapply ConvertToType_err; eassumption.
Qed.

Lemma missingRequired_error rangeOrder (required : gmap Z string) err :
  missingRequired rangeOrder required = Some err ->
  exists name tv msg, err = ValidationError name tv msg.
Proof.
  unfold missingRequired. destruct (rangeOrder _) as [|pos rest]; [discriminate|].
  destruct (required !! pos); [|discriminate]. intros [= <-]. do 3 eexists; reflexivity.
Qed.

End AssignFacts.

(** C10. If [Unmarshal] returns the conversion error of the token at
    position [p], the target struct is left partially updated: every
    tagged field of a position before [p] holds what its token decoded to,
    and the fields of the positions from [p] on, like every other field,
    keep the values they had; nothing is rolled back. *)
Theorem unmarshal_partial_update {L : GoLib} (rangeOrder : list Z -> list Z)
        (data name : string) (methods : Methods) (sfields : list StructField)
        (vals vals' : list goValue) (elem : GoType)
        (tokens : list Token) (fields : gmap Z FieldInfo)
        (p : Z) (fieldName value expected : string) (reason : Reason) :
  wfStruct sfields vals ->
  ParseRowLiteral data = Ok tokens ->
  GetStructFields (TStruct name methods sfields) = Ok fields ->
  Unmarshal rangeOrder data (Some (VPtr elem (Some (VStruct name methods sfields vals))))
  = (Some (VPtr elem (Some (VStruct name methods sfields vals'))),
     Some (TypeMismatchError fieldName p value expected reason)) ->
  p <= Z.of_nat (List.length tokens) ->
  (exists field token,
      1 <= p
      /\ fields !! p = Some field
      /\ tokens !! Z.to_nat (p - 1) = Some token
      /\ ConvertToType (valueStrOf field token) (FieldInfo.Typ field)
                       (FieldInfo.Name field) p
         = Err (TypeMismatchError fieldName p value expected reason))
  /\ (forall q field token,
         1 <= q < p -> fields !! q = Some field ->
         tokens !! Z.to_nat (q - 1) = Some token ->
         exists decoded,
           ConvertToType (valueStrOf field token) (FieldInfo.Typ field)
                         (FieldInfo.Name field) q = Ok decoded
           /\ vals' !! FieldInfo.Index field = Some decoded)
  /\ (forall q field,
         p <= q -> fields !! q = Some field ->
         vals' !! FieldInfo.Index field = vals !! FieldInfo.Index field)
  /\ (forall idx,
         (forall q field, fields !! q = Some field -> FieldInfo.Index field <> idx) ->
         vals' !! idx = vals !! idx).
Proof.
  intros Hwf Hparse Hfields Hrun Hp.
  pose proof (GetStructFields_indexed _ _ _ _ Hfields) as Hlay.
  rewrite <- Hwf in Hlay.
  unfold Unmarshal, withStructPointer, unmarshalStruct in Hrun.
  rewrite Hparse, Hfields in Hrun.
  destruct (assignLoop fields tokens 0 (vals, requiredFieldsOf rangeOrder fields))
    as [st1 [err1|]] eqn:Eassign.
  - (* the assignment pass stopped *)
    injection Hrun as <- ->.
    destruct (assignLoop_error fields tokens 0 vals _ _ _ Hlay Eassign)
      as (p' & fp & tp & Hp' & Hfp & Htp & Herr & Hbefore & Hframe).
    pose proof (ConvertToType_err _ _ _ _ _ Herr) as (n0 & v0 & x0 & r0 & Heq).
    injection Heq as -> <- -> -> ->.
    replace (p - 0 - 1) with (p - 1) in Htp by lia.
    split; [exists fp, tp; split; [lia|]; split; [assumption|]; split; assumption|].
    split; [|split].
    + intros q field token Hq Hf Htok. apply (Hbefore q field token); [lia | assumption|].
      replace (q - 0 - 1) with (q - 1) by lia. exact Htok.
    + intros q field Hq Hf. apply Hframe. intros q' f' Hq' Hf' Heq.
      destruct Hlay as [_ Hinj]. assert (q' = q) by (eapply Hinj; eassumption). lia.
    + intros idx Hidx. apply Hframe. intros q f _. apply Hidx.
  - (* the assignment pass went through: the error is not one of a token *)
    exfalso.
    destruct (defaultsLoop fields (Z.of_nat (List.length tokens))
                           (rangeOrder (mapKeys fields)) st1)
      as [st2 [err2|]] eqn:Edef.
    + injection Hrun as _ ->.
      apply defaultsLoop_error in Edef as (pos & Hpos & n0 & v0 & x0 & r0 & Heq).
      injection Heq as _ -> _ _ _. lia.
    + injection Hrun as _ Hmiss.
      apply missingRequired_error in Hmiss as (n0 & tv & msg & Heq). discriminate.
Qed.

Lemma unmarshal_partial_update_witness :
  (exists field token,
      1 <= 3
      /\ layoutOf addressStruct !! 3 = Some field
      /\ tokensOf "(x,y,z)" !! Z.to_nat (3 - 1) = Some token
      /\ ConvertToType (L := textLib) (valueStrOf field token) (FieldInfo.Typ field)
                       (FieldInfo.Name field) 3
         = Err (TypeMismatchError "ZipCode" 3 "z" "int"
                  (ReasonNumError "ParseInt" "z" ErrSyntax)))
  /\ (exists decoded,
         ConvertToType (L := textLib) "x" TString "Street" 1 = Ok decoded
         /\ addressAfter !! 0%nat = Some decoded)
  /\ addressAfter !! 2%nat = addressBefore !! 2%nat.
Proof.
  destruct (unmarshal_partial_update (L := textLib) ascending "(x,y,z)"
              "Address" noMethods (structFields addressStruct)
              addressBefore addressAfter
              addressStruct (tokensOf "(x,y,z)") (layoutOf addressStruct)
              3 "ZipCode" "z" "int" (ReasonNumError "ParseInt" "z" ErrSyntax))
    as (Hat & Hbefore & Hfrom & _).
  - reflexivity.
  - reflexivity.
  - reflexivity.
  - vm_compute. reflexivity.
  - vm_compute. discriminate.
  - split; [exact Hat|]. split.
    + destruct (Hbefore 1 _ _ ltac:(lia) eq_refl eq_refl) as (decoded & Hconv & Hval).
      exists decoded. split; [exact Hconv | exact Hval].
    + exact (Hfrom 3 _ ltac:(lia) eq_refl).
Defined.


(** ** The round trip of a record *)

Section ValueRoundTrip.

Context {L : GoLib}.

Lemma intBitSize_bounds (k : IntKind) : 0 < intBitSize k <= 64.
Proof. destruct k; cbn; unfold strconv.IntSize; lia. Qed.

Lemma uintBitSize_bounds (k : UintKind) : 0 < uintBitSize k <= 64.
Proof. destruct k; cbn; unfold strconv.IntSize; lia. Qed.

Lemma FormatInt_nonempty (n : Z) : String.eqb (strconv.FormatInt n) "" = false.
Proof.
  destruct (strconvFacts.FormatInt_word n) as [Hne _].
  destruct (String.eqb_spec (strconv.FormatInt n) ""); [contradiction | reflexivity].
Qed.

Lemma isNullText_FormatInt (n : Z) : isNullText (strconv.FormatInt n) = false.
Proof.
  unfold isNullText. now rewrite FormatInt_nonempty, strconvFacts.FormatInt_not_null.
Qed.

Lemma convertToInt_FormatInt (k : IntKind) (t : GoType) (name : string) (pos n : Z) :
  intInRange (intBitSize k) n = true ->
  convertToInt (strconv.FormatInt n) k t name pos = Ok n.
Proof.
  intros Hr. unfold convertToInt. rewrite FormatInt_nonempty.
  rewrite TrimSpace_word by apply strconvFacts.FormatInt_word.
  rewrite strconvFacts.ParseInt_FormatInt; [reflexivity | apply intBitSize_bounds | exact Hr].
Qed.

Lemma convertToUint_FormatUint (k : UintKind) (t : GoType) (name : string) (pos n : Z) :
  uintInRange (uintBitSize k) n = true ->
  convertToUint (strconv.FormatUint n) k t name pos = Ok n.
Proof.
  intros Hr. unfold convertToUint, strconv.FormatUint at 1 2. rewrite FormatInt_nonempty.
  rewrite TrimSpace_word by apply strconvFacts.FormatInt_word.
  change (strconv.FormatInt n) with (strconv.FormatUint n).
  rewrite strconvFacts.ParseUint_FormatUint; [reflexivity | apply uintBitSize_bounds | exact Hr].
Qed.

Lemma element_FormatInt (n : Z) : element (strconv.FormatInt n) (strconv.FormatInt n).
Proof. apply element_word; apply strconvFacts.FormatInt_word. Qed.

Lemma element_boolText (b : bool) : element (boolText b) (boolText b).
Proof. destruct b; apply element_word; (discriminate || reflexivity). Qed.

Lemma element_NULL : element "NULL" "NULL".
Proof. apply element_word; (discriminate || reflexivity). Qed.

Lemma convertToBool_boolText (b : bool) (name : string) (pos : Z) :
  convertToBool (boolText b) name pos = Ok b.
Proof. destruct b; reflexivity. Qed.

(** A value that [roundTrips] is written as a clean element, and the
    text of that element is converted back to the value. *)
Lemma FormatValue_roundTrips (hasDefault : bool) (v : goValue) :
  roundTrips hasDefault v = true ->
  exists encoded,
    FormatValue v = Ok encoded
    /\ element encoded (textOf v)
    /\ (hasDefault = true -> textOf v <> "")
    /\ forall name pos, ConvertToType (textOf v) (typeOf v) name pos = Ok v.
Proof.
  intros Hr.
  destruct v; cbn [roundTrips] in Hr; try discriminate Hr.
  - (* string *)
    exists (EscapeString s). split; [reflexivity|]. split; [apply element_quoted|].
    split; [|reflexivity].
    intros -> E. cbn [textOf] in E. subst s. discriminate Hr.
  - (* bool *)
    exists (boolText b). split; [destruct b; reflexivity|].
    split; [apply element_boolText|]. split; [destruct b; discriminate|].
    intros name pos. cbn [textOf typeOf ConvertToType convertSQLNull].
    now rewrite convertToBool_boolText.
  - (* int *)
    exists (strconv.FormatInt n). split; [reflexivity|].
    split; [apply element_FormatInt|].
    split; [intros _; apply strconvFacts.FormatInt_word|].
    intros name pos. cbn [textOf typeOf ConvertToType convertSQLNull].
    now rewrite convertToInt_FormatInt.
  - (* uint *)
    exists (strconv.FormatUint n). split; [reflexivity|].
    split; [apply element_FormatInt|].
    split; [intros _; apply strconvFacts.FormatInt_word|].
    intros name pos. cbn [textOf typeOf ConvertToType convertSQLNull].
    now rewrite convertToUint_FormatUint.
  - (* sql.NullString *)
    destruct valid.
    + exists (EscapeString s). split; [reflexivity|]. split; [apply element_quoted|].
      apply negb_true_iff in Hr. split.
      * intros _ E. cbn [textOf] in E. subst s. discriminate Hr.
      * intros name pos. cbn [textOf typeOf]. rewrite ConvertToType_null, Hr. reflexivity.
    + apply String.eqb_eq in Hr as ->.
      exists "NULL". split; [reflexivity|]. split; [apply element_NULL|].
      split; [discriminate | reflexivity].
  - (* sql.NullBool *)
    destruct valid.
    + exists (boolText b). split; [destruct b; reflexivity|].
      split; [apply element_boolText|]. split; [destruct b; discriminate|].
      destruct b; reflexivity.
    + destruct b; [discriminate Hr|].
      exists "NULL". split; [reflexivity|]. split; [apply element_NULL|].
      split; [discriminate | reflexivity].
  - (* sql.NullInt16 *)
    destruct valid.
    + exists (strconv.FormatInt n). split; [reflexivity|].
      split; [apply element_FormatInt|].
      split; [intros _; apply strconvFacts.FormatInt_word|].
      intros name pos. cbn [textOf typeOf].
      rewrite ConvertToType_null, isNullText_FormatInt. cbn [decodeNull].
      now rewrite convertToInt_FormatInt.
    + apply Z.eqb_eq in Hr as ->.
      exists "NULL". split; [reflexivity|]. split; [apply element_NULL|].
      split; [discriminate | reflexivity].
  - (* sql.NullInt32 *)
    destruct valid.
    + exists (strconv.FormatInt n). split; [reflexivity|].
      split; [apply element_FormatInt|].
      split; [intros _; apply strconvFacts.FormatInt_word|].
      intros name pos. cbn [textOf typeOf].
      rewrite ConvertToType_null, isNullText_FormatInt. cbn [decodeNull].
      now rewrite convertToInt_FormatInt.
    + apply Z.eqb_eq in Hr as ->.
      exists "NULL". split; [reflexivity|]. split; [apply element_NULL|].
      split; [discriminate | reflexivity].
  - (* sql.NullInt64 *)
    destruct valid.
    + exists (strconv.FormatInt n). split; [reflexivity|].
      split; [apply element_FormatInt|].
      split; [intros _; apply strconvFacts.FormatInt_word|].
      intros name pos. cbn [textOf typeOf].
      rewrite ConvertToType_null, isNullText_FormatInt. cbn [decodeNull].
      now rewrite convertToInt_FormatInt.
    + apply Z.eqb_eq in Hr as ->.
      exists "NULL". split; [reflexivity|]. split; [apply element_NULL|].
      split; [discriminate | reflexivity].
  - (* sql.NullByte *)
    destruct valid.
    + exists (strconv.FormatUint n). split; [reflexivity|].
      split; [apply element_FormatInt|].
      split; [intros _; apply strconvFacts.FormatInt_word|].
      intros name pos. cbn [textOf typeOf].
      rewrite ConvertToType_null. unfold strconv.FormatUint at 1.
      rewrite isNullText_FormatInt. cbn [decodeNull].
      change (strconv.FormatInt n) with (strconv.FormatUint n).
      now rewrite convertToUint_FormatUint.
    + apply Z.eqb_eq in Hr as ->.
      exists "NULL". split; [reflexivity|]. split; [apply element_NULL|].
      split; [discriminate | reflexivity].
Qed.

End ValueRoundTrip.

Section Positions.

Lemma GetMaxPosition_spec (fields : gmap Z FieldInfo) :
  0 <= GetMaxPosition fields
  /\ (forall pos, is_Some (fields !! pos) -> pos <= GetMaxPosition fields)
  /\ (GetMaxPosition fields = 0 \/ is_Some (fields !! GetMaxPosition fields)).
Proof.
  unfold GetMaxPosition.
  apply (map_fold_weak_ind
           (fun (max : Z) (m : gmap Z FieldInfo) =>
              0 <= max
              /\ (forall pos, is_Some (m !! pos) -> pos <= max)
              /\ (max = 0 \/ is_Some (m !! max)))).
  - split; [lia|]. split; [|now left].
    intros pos [x Hx]. rewrite lookup_empty in Hx. discriminate.
  - intros i x m r Hi (H0 & Hle & Hin).
    destruct (Z.ltb_spec r i) as [Hlt|Hge].
    + split; [lia|]. split.
      * intros pos [y Hy]. destruct (decide (i = pos)) as [->|Hne]; [lia|].
        rewrite lookup_insert_ne in Hy by exact Hne.
        specialize (Hle pos (ex_intro _ y Hy)). lia.
      * right. rewrite lookup_insert_eq. eauto.
    + split; [lia|]. split.
      * intros pos [y Hy]. destruct (decide (i = pos)) as [->|Hne]; [lia|].
        rewrite lookup_insert_ne in Hy by exact Hne.
        apply Hle. eauto.
      * destruct Hin as [->|[y Hy]]; [now left|right].
        destruct (decide (i = r)) as [->|Hne]; [rewrite Hi in Hy; discriminate|].
        rewrite lookup_insert_ne by exact Hne. eauto.
Qed.

Context {L : GoLib}.

Variable fields : gmap Z FieldInfo.
Variable n : Z.
Hypothesis Hcont : contiguous fields n.

Lemma contiguous_max : 1 <= n -> GetMaxPosition fields = n.
Proof.
  intros Hn. destruct (GetMaxPosition_spec fields) as (H0 & Hle & Hin).
  assert (n <= GetMaxPosition fields) by (apply Hle, Hcont; lia).
  destruct Hin as [E|Hin]; [lia|]. apply Hcont in Hin. lia.
Qed.

Lemma contiguous_empty : n <= 0 -> fields = ∅.
Proof.
  intros Hn. apply map_eq. intros pos. rewrite lookup_empty.
  destruct (fields !! pos) eqn:E; [|reflexivity].
  assert (is_Some (fields !! pos)) as H by eauto. apply Hcont in H. lia.
Qed.

Lemma contiguous_size : 1 <= n -> size fields <> 0%nat.
Proof.
  intros Hn Hsize. apply map_size_empty_iff in Hsize.
  assert (is_Some (fields !! 1)) as [x Hx] by (apply Hcont; lia).
  rewrite Hsize, lookup_empty in Hx. discriminate.
Qed.

Lemma filter_all {A} (p : A -> bool) (l : list A) :
  (forall x, In x l -> p x = true) -> List.filter p l = l.
Proof.
  induction l as [|x l IH]; intros H; [reflexivity|].
  cbn [List.filter]. rewrite (H x) by now left.
  rewrite IH; [reflexivity|]. intros y Hy. apply H. now right.
Qed.

Lemma contiguous_sorted : 1 <= n -> GetSortedPositions fields = seqZ 1 n.
Proof.
  intros Hn. unfold GetSortedPositions.
  rewrite bool_decide_eq_false_2 by now apply contiguous_size.
  rewrite contiguous_max by exact Hn.
  apply filter_all. intros pos Hin.
  apply list_elem_of_In, elem_of_seqZ in Hin.
  apply bool_decide_eq_true_2, Hcont. lia.
Qed.

End Positions.

Section MarshalSide.

Context {L : GoLib}.

Variable fields : gmap Z FieldInfo.
Variable isZero : nat -> bool.
Variable formatted : nat -> res Reason string.
Variable enc : Z -> string.

(** Over consecutive positions that are all written there is no gap to
    fill, and the values are the encodings in order. *)
Lemma marshalLoop_seq (len : nat) :
  forall (k : Z) (values : list string),
    (forall pos, k < pos <= k + Z.of_nat len ->
       exists field,
         fields !! pos = Some field
         /\ TagOptions.OmitEmpty (FieldInfo.Options field) = false
         /\ formatted (FieldInfo.Index field) = Ok (enc pos)) ->
    marshalLoop fields isZero formatted (seqZ (k + 1) (Z.of_nat len)) values k
    = Ok (values ++ List.map enc (seqZ (k + 1) (Z.of_nat len))).
Proof.
  induction len as [|len IH]; intros k values H.
  - cbn. now rewrite app_nil_r.
  - rewrite seqZ_cons by lia.
    replace (Z.pred (Z.of_nat (S len))) with (Z.of_nat len) by lia.
    replace (Z.succ (k + 1)) with (k + 1 + 1) by lia.
    cbn [marshalLoop List.map].
    destruct (H (k + 1) ltac:(lia)) as (field & Hf & Ho & Henc).
    rewrite Hf. unfold omitted. rewrite Ho. cbn [andb].
    unfold gapFill. replace (k + 1 - k - 1) with 0 by lia.
    cbn [seqZ]. change (seqZ (k + 1) 0) with (@nil Z). cbn [List.map concat].
    rewrite app_nil_r, Henc.
    rewrite IH.
    + now rewrite <- List.app_assoc.
    + intros pos Hpos. apply H. lia.
Qed.

End MarshalSide.

Lemma lookup_In {A} (m : gmap Z A) (pos : Z) (x : A) :
  m !! pos = Some x -> In (pos, x) (map_to_list m).
Proof. intros H. now apply list_elem_of_In, elem_of_map_to_list. Qed.

Section UnmarshalSide.

Context {L : GoLib}.

Variable rangeOrder : list Z -> list Z.
Hypothesis Hrange : rangeAdmissible rangeOrder.

Variable fields : gmap Z FieldInfo.

Lemma mapKeys_lookup {A} (m : gmap Z A) (pos : Z) :
  In pos (mapKeys m) -> is_Some (m !! pos).
Proof.
  unfold mapKeys. intros Hin. apply in_map_iff in Hin as ([k x] & <- & Hin).
  apply list_elem_of_In, elem_of_map_to_list in Hin. cbn. eauto.
Qed.

Lemma rangeOrder_lookup {A} (m : gmap Z A) (pos : Z) :
  In pos (rangeOrder (mapKeys m)) -> is_Some (m !! pos).
Proof.
  intros Hin. apply mapKeys_lookup.
  eapply Permutation_in; [apply Hrange | exact Hin].
Qed.

Lemma rangeOrder_empty {A} : rangeOrder (mapKeys (∅ : gmap Z A)) = [].
Proof.
  unfold mapKeys. rewrite map_to_list_empty. cbn [List.map].
  apply Permutation_nil. symmetry. apply Hrange.
Qed.

(** Only positions of fields are recorded as required. *)
Lemma requiredFieldsOf_lookup (pos : Z) :
  is_Some (requiredFieldsOf rangeOrder fields !! pos) -> is_Some (fields !! pos).
Proof.
  unfold requiredFieldsOf.
  generalize (rangeOrder (mapKeys fields)) as order.
  assert (Hgen : forall order (required : gmap Z string),
             (is_Some (required !! pos) -> is_Some (fields !! pos)) ->
             is_Some (fold_left
                        (fun required pos =>
                           match fields !! pos with
                           | Some field =>
                               if TagOptions.Required (FieldInfo.Options field)
                               then <[pos := FieldInfo.Name field]> required
                               else required
                           | None => required
                           end) order required !! pos) ->
             is_Some (fields !! pos)).
  { induction order as [|p order IH]; intros required Hreq; cbn [fold_left]; [exact Hreq|].
    apply IH. destruct (fields !! p) as [field|] eqn:Ep; [|exact Hreq].
    destruct (TagOptions.Required (FieldInfo.Options field)); [|exact Hreq].
    destruct (decide (p = pos)) as [->|Hne].
    - intros _. eauto.
    - rewrite lookup_insert_ne by exact Hne. exact Hreq. }
  intros order. apply Hgen. intros [x Hx]. rewrite lookup_empty in Hx. discriminate.
Qed.

(** No default is applied at a position that had a token. *)
Lemma defaultsLoop_skip (ntokens : Z) (order : list Z) (st : state) :
  (forall pos, In pos order -> pos <= ntokens) ->
  defaultsLoop fields ntokens order st = (st, None).
Proof.
  induction order as [|pos order IH]; intros H; [reflexivity|].
  cbn [defaultsLoop].
  assert (Hle : pos <= ntokens) by (apply H; now left).
  destruct (Z.ltb_spec ntokens pos); [lia|]. cbn [andb].
  destruct (fields !! pos); apply IH; intros q Hq; apply H; now right.
Qed.

Lemma missingRequired_empty : missingRequired rangeOrder ∅ = None.
Proof. unfold missingRequired. now rewrite rangeOrder_empty. Qed.

Variable vals : list goValue.

(** When every token converts to the value the field at its position
    has in [vals], the assignment pass ends without an error; each field
    of the target then holds the value of [vals] or the one it had, and
    the fields at the positions of the tokens hold the value of [vals]. *)
Lemma assignLoop_roundtrip (tokens : list Token) :
  forall (i : Z) (st : state),
    (forall (k : nat) token,
       tokens !! k = Some token ->
       exists field v,
         fields !! (i + 1 + Z.of_nat k) = Some field
         /\ vals !! FieldInfo.Index field = Some v
         /\ ConvertToType (valueStrOf field token) (FieldInfo.Typ field)
              (FieldInfo.Name field) (i + 1 + Z.of_nat k) = Ok v) ->
    List.length (fst st) = List.length vals ->
    exists st',
      assignLoop fields tokens i st = (st', None)
      /\ List.length (fst st') = List.length vals
      /\ (forall j : nat, fst st' !! j = vals !! j \/ fst st' !! j = fst st !! j)
      /\ (forall pos field,
            i < pos <= i + Z.of_nat (List.length tokens) ->
            fields !! pos = Some field ->
            fst st' !! FieldInfo.Index field = vals !! FieldInfo.Index field)
      /\ (forall pos,
            i < pos <= i + Z.of_nat (List.length tokens) -> snd st' !! pos = None)
      /\ (forall pos, snd st !! pos = None -> snd st' !! pos = None).
Proof.
  induction tokens as [|token tokens IH]; intros i st H Hlen.
  - exists st. split; [reflexivity|]. split; [exact Hlen|].
    split; [now right|]. split; [cbn; intros; lia|]. split; [cbn; intros; lia|].
    now intros.
  - destruct (H 0%nat token eq_refl) as (field & v & Hf & Hv & Hconv).
    replace (i + 1 + Z.of_nat 0) with (i + 1) in * by lia.
    cbn [assignLoop]. rewrite Hf, Hconv.
    set (st1 := (<[FieldInfo.Index field := v]> (fst st), delete (i + 1) (snd st)) : state).
    assert (Hidx : (FieldInfo.Index field < List.length (fst st))%nat).
    { rewrite Hlen. eapply lookup_lt_Some. exact Hv. }
    destruct (IH (i + 1) st1) as (st' & Hrun & Hlen' & Hkeep & Hset & Hdel & Hnone).
    + intros k tok Hk. destruct (H (S k) tok Hk) as (f & w & Hf' & Hw & Hc).
      replace (i + 1 + Z.of_nat (S k)) with (i + 1 + 1 + Z.of_nat k) in * by lia.
      eauto.
    + unfold st1. cbn [fst]. now rewrite length_insert.
    + exists st'. split; [exact Hrun|]. split; [exact Hlen'|].
      assert (Hst1 : forall j : nat,
                 fst st1 !! j = vals !! j \/ fst st1 !! j = fst st !! j).
      { intros j. unfold st1. cbn [fst].
        destruct (decide (FieldInfo.Index field = j)) as [<-|Hne].
        - left. rewrite list_lookup_insert_eq by exact Hidx. now rewrite Hv.
        - right. now rewrite list_lookup_insert_ne by exact Hne. }
      split; [|split; [|split]].
      * intros j. destruct (Hkeep j) as [E|E]; [now left|].
        rewrite E. apply Hst1.
      * intros pos f Hpos Hf'.
        destruct (decide (pos = i + 1)) as [->|Hne].
        -- rewrite Hf in Hf'. injection Hf' as <-.
           destruct (Hkeep (FieldInfo.Index field)) as [E|E]; [exact E|].
           rewrite E. unfold st1. cbn [fst].
           rewrite list_lookup_insert_eq by exact Hidx. now rewrite Hv.
        -- apply (Hset pos f); [|exact Hf'].
           cbn [List.length] in Hpos. lia.
      * intros pos Hpos.
        destruct (decide (pos = i + 1)) as [->|Hne].
        -- apply Hnone. unfold st1. cbn [snd]. apply lookup_delete_eq.
        -- apply Hdel. cbn [List.length] in Hpos. lia.
      * intros pos Hp. apply Hnone. unfold st1. cbn [snd].
        destruct (decide (i + 1 = pos)) as [->|Hne]; [apply lookup_delete_eq|].
        now rewrite lookup_delete_ne by exact Hne.
Qed.

End UnmarshalSide.

Section RecordRoundTrip.

Context {L : GoLib}.

Variable fields : gmap Z FieldInfo.
Variable vals : list goValue.
Variable n : Z.
Hypothesis Hcont : contiguous fields n.
Hypothesis Hfields : roundTripFields fields vals.

(** What the hypotheses give at each position. *)
Lemma field_roundtrip (pos : Z) :
  1 <= pos <= n ->
  exists field v,
    fields !! pos = Some field
    /\ TagOptions.OmitEmpty (FieldInfo.Options field) = false
    /\ vals !! FieldInfo.Index field = Some v
    /\ FormatValue (fieldAt vals (FieldInfo.Index field)) = Ok (encodingAt fields vals pos)
    /\ element (encodingAt fields vals pos) (textAt fields vals pos)
    /\ (TagOptions.HasDefault (FieldInfo.Options field) = true ->
        textAt fields vals pos <> "")
    /\ forall name p,
         ConvertToType (textAt fields vals pos) (FieldInfo.Typ field) name p = Ok v.
Proof.
  intros Hpos. destruct (proj2 (Hcont pos) Hpos) as [field Hf].
  destruct (Hfields pos field Hf) as (Ho & v & Hv & Ht & Hr).
  destruct (FormatValue_roundTrips _ v Hr) as (encoded & Hfmt & Hel & Hdef & Hconv).
  exists field, v. unfold encodingAt, textAt, fieldAt. rewrite Hf, Hv. cbn [from_option id].
  rewrite Hfmt, <- Ht. repeat split; assumption.
Qed.

Lemma marshalStruct_roundtrip (t : GoType) (isZero : nat -> bool) :
  GetStructFields t = Ok fields ->
  exists literal tokens,
    marshalStruct t isZero (fun i => FormatValue (fieldAt vals i)) = Ok literal
    /\ ParseRowLiteral literal = Ok tokens
    /\ List.map Value tokens = List.map (textAt fields vals) (seqZ 1 n).
Proof.
  intros Hget. unfold marshalStruct. rewrite Hget. cbn [bind].
  destruct (Z.le_gt_cases n 0) as [Hn|Hn].
  - rewrite (contiguous_empty fields n Hcont Hn).
    exists "()", []. split; [reflexivity|]. split; [reflexivity|].
    unfold seqZ. replace (Z.to_nat n) with 0%nat by lia. reflexivity.
  - rewrite bool_decide_eq_false_2 by (apply (contiguous_size fields n Hcont); lia).
    rewrite (contiguous_sorted fields n Hcont) by lia.
    pose proof (marshalLoop_seq fields isZero (fun i => FormatValue (fieldAt vals i))
                  (encodingAt fields vals) (Z.to_nat n) 0 []) as Hloop.
    rewrite Z2Nat.id in Hloop by lia. change (0 + 1) with 1 in Hloop.
    rewrite Hloop; clear Hloop.
    + cbn [bind app].
      set (es := List.map (fun pos => (encodingAt fields vals pos, textAt fields vals pos))
                   (seqZ 1 n)).
      assert (Hfst : List.map fst es = List.map (encodingAt fields vals) (seqZ 1 n)).
      { unfold es. rewrite List.map_map. reflexivity. }
      assert (Hsnd : List.map snd es = List.map (textAt fields vals) (seqZ 1 n)).
      { unfold es. rewrite List.map_map. reflexivity. }
      destruct (ParseRowLiteral_elements es) as (tokens & Hparse & Hvals).
      * unfold es. apply Forall_forall. intros ev Hin.
        apply list_elem_of_In, in_map_iff in Hin as (pos & <- & Hin).
        apply list_elem_of_In, elem_of_seqZ in Hin. cbn [fst snd].
        destruct (field_roundtrip pos ltac:(lia)) as (f & v & _ & _ & _ & _ & Hel & _).
        exact Hel.
      * unfold es. rewrite seqZ_cons by lia. discriminate.
      * rewrite Hfst in Hparse. rewrite Hsnd in Hvals.
        exists (BuildRowLiteral (List.map (encodingAt fields vals) (seqZ 1 n))), tokens.
        repeat split; assumption.
    + intros pos Hpos.
      destruct (field_roundtrip pos ltac:(lia)) as (f & v & Hf & Ho & _ & Hfmt & _).
      exists f. repeat split; assumption.
Qed.

Variable rangeOrder : list Z -> list Z.
Hypothesis Hrange : rangeAdmissible rangeOrder.

Variable fresh : list goValue.
Hypothesis Hlen : List.length fresh = List.length vals.
Hypothesis Hfresh : forall i, untagged fields i -> fresh !! i = vals !! i.

Lemma unmarshalStruct_roundtrip (t : GoType) (literal : string) (tokens : list Token) :
  GetStructFields t = Ok fields ->
  ParseRowLiteral literal = Ok tokens ->
  List.map Value tokens = List.map (textAt fields vals) (seqZ 1 n) ->
  unmarshalStruct rangeOrder literal t fresh = (vals, None).
Proof.
  intros Hget Hparse Hvals. unfold unmarshalStruct. rewrite Hparse, Hget.
  assert (Hcount : Z.of_nat (List.length tokens) = Z.max 0 n).
  { apply (f_equal (@List.length string)) in Hvals.
    rewrite !List.length_map, length_seqZ in Hvals. lia. }
  destruct (assignLoop_roundtrip fields vals tokens 0
              (fresh, requiredFieldsOf rangeOrder fields))
    as (st & Hrun & _ & Hkeep & Hset & Hdel & Hnone).
  { intros k token Hk.
    assert (Hlt : (k < List.length tokens)%nat) by (eapply lookup_lt_Some; exact Hk).
    assert (Hpos : 1 <= 0 + 1 + Z.of_nat k <= n) by lia.
    destruct (field_roundtrip _ Hpos) as (f & v & Hf & _ & Hv & _ & _ & Hdef & Hconv).
    exists f, v. split; [exact Hf|]. split; [exact Hv|].
    assert (Hval : Value token = textAt fields vals (0 + 1 + Z.of_nat k)).
    { apply (f_equal (fun l => l !! k)) in Hvals.
      change (List.map Value tokens) with (Value <$> tokens) in Hvals.
      change (List.map (textAt fields vals) (seqZ 1 n))
        with (textAt fields vals <$> seqZ 1 n) in Hvals.
      rewrite !list_lookup_fmap, Hk, lookup_seqZ_lt in Hvals by lia.
      cbn in Hvals. injection Hvals as ->. f_equal; lia. }
    unfold valueStrOf. rewrite Hval.
    destruct (String.eqb_spec (textAt fields vals (0 + 1 + Z.of_nat k)) "") as [E|_];
      [|apply Hconv].
    destruct (TagOptions.HasDefault (FieldInfo.Options f)) eqn:Ed;
      [exfalso; now apply Hdef | apply Hconv]. }
  { exact Hlen. }
  rewrite Hrun.
  rewrite (defaultsLoop_skip fields).
  - assert (Hreq : snd st = ∅).
    { apply map_eq. intros pos. rewrite lookup_empty.
      destruct (requiredFieldsOf rangeOrder fields !! pos) as [x|] eqn:E.
      - assert (is_Some (fields !! pos)) as Hs
            by (eapply requiredFieldsOf_lookup; eauto).
        apply Hcont in Hs. apply Hdel. lia.
      - apply Hnone. exact E. }
    rewrite Hreq, (missingRequired_empty rangeOrder Hrange). f_equal.
    apply list_eq. intros j.
    destruct (Hkeep j) as [E|E]; [exact E|]. cbn [fst] in E. rewrite E.
    destruct (decide (map_Exists (fun _ f => FieldInfo.Index f = j) fields))
      as [(pos & f & Hf & Hj)|Hno].
    + rewrite <- E, <- Hj. apply (Hset pos f); [|exact Hf].
      assert (is_Some (fields !! pos)) as Hs by eauto. apply Hcont in Hs. lia.
    + apply Hfresh. intros pos f Hf Hj. apply Hno. exists pos, f. now split.
  - intros pos Hin. apply (rangeOrder_lookup rangeOrder Hrange) in Hin.
    apply Hcont in Hin. lia.
Qed.

End RecordRoundTrip.




(** ** The SQL builder *)

Module pgxFacts.
Import pgx.

Section Loops.

Variable f : Funcs.

Lemma seq_params (g : Z -> string) (n : Z) (k : nat) :
  List.map (fun i => g (n + Z.of_nat i)) (seq 0 (S k))
  = g n :: List.map (fun i => g (n + 1 + Z.of_nat i)) (seq 0 k).
Proof.
  cbn [seq List.map]. rewrite Z.add_0_r. f_equal.
  rewrite <- seq_shift, List.map_map. apply List.map_ext.
  intros i. f_equal. lia.
Qed.

(** The insert loop keeps the selected columns in declared order and
    numbers their placeholders consecutively. *)
Lemma insertLoop_spec (all : bool) (fs : list Field) :
  forall (n : Z) (fields vals : list string),
    let sel := List.filter (fun c => negb (Field.IsSequence c && negb all)) fs in
    insertLoop f all fs n fields vals
    = (fields ++ List.map (colname f) sel,
       vals ++ List.map (fun i => Funcs.nth f (n + Z.of_nat i))
                        (seq 0 (List.length sel))).
Proof.
  induction fs as [|c fs IH]; intros n fields vals; cbn [insertLoop List.filter].
  - cbn. now rewrite !app_nil_r.
  - destruct (Field.IsSequence c && negb all); cbn [negb].
    + apply IH.
    + rewrite IH. cbn [List.length List.map]. rewrite seq_params.
      now rewrite <- !app_assoc.
Qed.

(** Likewise for the update loop, over the columns that are not primary. *)
Lemma updateLoop_spec (prefix : string) (fs : list Field) :
  forall (n : Z) (fields : list string),
    let sel := List.filter (fun c => negb (Field.IsPrimary c)) fs in
    let val c i := if negb (String.eqb prefix "")
                   then prefix +:+ Field.SQLName c
                   else Funcs.nth f (n + Z.of_nat i) in
    updateLoop f prefix fs n fields
    = (n + Z.of_nat (List.length sel),
       fields ++ imap (fun i c => colname f c +:+ " = " +:+ val c i) sel).
Proof.
  induction fs as [|c fs IH]; intros n fields; cbn [updateLoop List.filter].
  - cbn. rewrite app_nil_r, Z.add_0_r. reflexivity.
  - destruct (Field.IsPrimary c); cbn [negb].
    + apply IH.
    + rewrite IH. cbn [List.length imap]. rewrite <- app_assoc. cbn [app].
      apply f_equal2; [rewrite Nat2Z.inj_succ; lia|]. apply f_equal. rewrite Z.add_0_r.
      apply f_equal. apply imap_ext. intros i x _. unfold compose.
      destruct (negb (String.eqb prefix "")); [reflexivity|].
      do 3 apply f_equal. lia.
Qed.

Lemma imap_assignments (g : Z -> string) (n : Z) (keys : list Field) :
  imap (fun i z => colname f z +:+ " = " +:+ g (n + Z.of_nat i)) keys
  = assignments (List.map (colname f) keys)
                (List.map (fun i => g (n + Z.of_nat i)) (seq 0 (List.length keys))).
Proof.
  revert n; induction keys as [|z keys IH]; intros n; [reflexivity|].
  cbn [imap List.length]. rewrite seq_params. unfold assignments.
  cbn [List.map List.combine fst snd]. rewrite Z.add_0_r. apply f_equal.
  fold (assignments (List.map (colname f) keys)
          (List.map (fun i => g (n + 1 + Z.of_nat i)) (seq 0 (List.length keys)))).
  rewrite <- (IH (n + 1)). apply imap_ext. intros i x _. unfold compose.
  do 3 apply f_equal. lia.
Qed.

Lemma imap_excluded (n : Z) (cols : list Field) :
  imap (fun (i : nat) c => colname f c +:+ " = " +:+ ("EXCLUDED." +:+ Field.SQLName c)) cols
  = assignments (List.map (colname f) cols)
                (List.map (fun c => "EXCLUDED." +:+ Field.SQLName c) cols).
Proof.
  induction cols as [|c cols IH]; [reflexivity|].
  cbn [imap]. unfold assignments in *. cbn [List.map List.combine fst snd].
  f_equal. exact IH.
Qed.

(** What [sqlstr_upsert] emits, line by line: the insert over all the
    columns, the conflict target, the bare list of assignments (the
    first line of the update statement, which carries its [UPDATE] and
    [SET] keywords, is cut off and nothing replaces it), and the
    [RETURNING] clause. *)
Lemma sqlstr_upsert_lines (t : Table) :
  sqlstr_upsert f (AnyTable t)
  = sqlstr_insert_base f true t
    ++ [" ON CONFLICT (" +:+ Str.join ", " (List.map Field.SQLName (Table.PrimaryKeys t))
        +:+ ") DO "]
    ++ [Str.join ", "
          (assignments (List.map (colname f) (nonPrimary t))
             (List.map (fun c => "EXCLUDED." +:+ Field.SQLName c) (nonPrimary t)))
        +:+ " "]
    ++ (if hasSequence t then [" RETURNING " +:+ colname f (seqField t)] else []).
Proof.
  unfold sqlstr_upsert, sqlstr_update_base.
  rewrite updateLoop_spec. cbn [app List.length List.tl].
  change (1 <? Z.of_nat 2) with true. cbv iota.
  change (negb (String.eqb "EXCLUDED." "")) with true. cbv iota.
  fold (nonPrimary t). rewrite (imap_excluded 0).
  destruct (hasSequence t); rewrite <- ?app_assoc; reflexivity.
Qed.

End Loops.

End pgxFacts.



(** C2 at the table [books]: the upsert that the code generates.  After
    [DO] come the assignments themselves; the keywords [UPDATE SET] that
    PostgreSQL requires there, and that the claim has, are missing. *)
Theorem sqlstr_upsert_books :
  pgx.sqlText (pgx.sqlstr_upsert pgx.postgres (pgx.AnyTable pgx.booksTable))
  = "INSERT INTO books (book_id, author_id, title, published_year, isbn, price) "
    +:+ "VALUES ($1, $2, $3, $4, $5, $6) ON CONFLICT (book_id) DO "
    +:+ "author_id = EXCLUDED.author_id, title = EXCLUDED.title, "
    +:+ "published_year = EXCLUDED.published_year, isbn = EXCLUDED.isbn, "
    +:+ "price = EXCLUDED.price  RETURNING book_id".
Proof. vm_compute. reflexivity. Qed.

(** ** The emission planner *)

Module plannerFacts.
Import planner.

Lemma find_snoc {A} (f : A -> bool) (l : list A) (x : A) :
  List.find f (l ++ [x])
  = match List.find f l with
    | Some y => Some y
    | None => if f x then Some x else None
    end.
Proof.
  induction l as [|a l IH]; simpl; [reflexivity|].
  destruct (f a); [reflexivity | exact IH].
Qed.

Lemma find_app {A} (f : A -> bool) (l1 l2 : list A) :
  List.find f (l1 ++ l2)
  = match List.find f l1 with
    | Some y => Some y
    | None => List.find f l2
    end.
Proof.
  induction l1 as [|a l1 IH]; simpl; [reflexivity|].
  destruct (f a); [reflexivity | exact IH].
Qed.

Lemma find_none_iff {A} (f : A -> bool) (l : list A) :
  List.find f l = None <-> forall x, In x l -> f x = false.
Proof.
  split; [apply List.find_none|].
  induction l as [|a l IH]; intros H; simpl; [reflexivity|].
  rewrite (H a) by now left. apply IH. intros x Hx. apply H. now right.
Qed.

Section Groups.

Variable ForceCamelIdentifier : string -> string.
Variable Singularize : string -> string.

#[local] Abbreviation cname p := (camelExport ForceCamelIdentifier [xo.Proc.Name p]).
#[local] Abbreviation leaderOf procs name :=
  (List.find (fun q => String.eqb (cname q) name) procs).

Lemma grouped_nil : grouped ForceCamelIdentifier [] (∅, []).
Proof.
  split; [|split]; simpl.
  - intros name. rewrite lookup_empty. split; [intros [] | intros [x Hx]; discriminate].
  - intros name. rewrite lookup_empty. split; intros [x Hx]; discriminate.
  - intros name procs first H. rewrite lookup_empty in H. discriminate.
Qed.

Lemma grouped_step seen st p :
  grouped ForceCamelIdentifier seen st -> grouped ForceCamelIdentifier (seen ++ [p]) (convertProc ForceCamelIdentifier st p).
Proof.
  destruct st as [om order]. intros (Horder & Hdom & Hhead).
  unfold convertProc. simpl in *.
  split; [|split]; simpl; intros name0; [split | split |].
  - intros Hin. destruct (decide ((cname p) = name0)) as [<-|Hne].
    + rewrite lookup_insert_eq. eauto.
    + rewrite lookup_insert_ne by assumption. apply Horder.
      destruct (om !! (cname p)); [assumption|].
      apply in_app_or in Hin as [Hin|[Hin|[]]]; [assumption | congruence].
  - intros Hsome. destruct (decide ((cname p) = name0)) as [<-|Hne].
    + destruct (om !! (cname p)) eqn:E.
      * apply Horder. rewrite E. eauto.
      * apply in_or_app. right. now left.
    + rewrite lookup_insert_ne in Hsome by assumption.
      apply Horder in Hsome. destruct (om !! (cname p)); [assumption|].
      apply in_or_app. now left.
  - intros Hsome. rewrite find_snoc.
    destruct (leaderOf seen name0) as [y|] eqn:El; [eauto|].
    destruct (decide ((cname p) = name0)) as [<-|Hne].
    + rewrite String.eqb_refl. eauto.
    + rewrite lookup_insert_ne in Hsome by assumption.
      apply Hdom in Hsome. rewrite El in Hsome. destruct Hsome; discriminate.
  - rewrite find_snoc. intros Hsome.
    destruct (decide ((cname p) = name0)) as [<-|Hne].
    + rewrite lookup_insert_eq. eauto.
    + rewrite lookup_insert_ne by assumption. apply Hdom.
      destruct (leaderOf seen name0) as [y|]; [eauto|].
      destruct (String.eqb_spec (cname p) name0); [contradiction|].
      destruct Hsome; discriminate.
  - intros procs first Hlook. rewrite find_snoc.
    destruct (decide ((cname p) = name0)) as [<-|Hne].
    + rewrite lookup_insert_eq in Hlook. injection Hlook as <-.
      destruct (leaderOf seen (cname p)) as [y|] eqn:El.
      * intros [= <-]. destruct (om !! (cname p)) as [old|] eqn:Eo.
        -- destruct (Hhead _ _ _ Eo El) as [rest ->]. simpl. eauto.
        -- assert (Hs : is_Some (om !! (cname p))) by (apply Hdom; rewrite El; eauto).
           rewrite Eo in Hs. destruct Hs; discriminate.
      * rewrite String.eqb_refl. intros [= <-].
        destruct (om !! (cname p)) as [old|] eqn:Eo.
        -- assert (Hs : is_Some (leaderOf seen (cname p))) by (apply Hdom; rewrite Eo; eauto).
           rewrite El in Hs. destruct Hs; discriminate.
        -- simpl. eauto.
    + rewrite lookup_insert_ne in Hlook by assumption.
      destruct (leaderOf seen name0) as [y|] eqn:El.
      * intros [= <-]. eapply Hhead; eassumption.
      * destruct (String.eqb_spec (cname p) name0); [contradiction | discriminate].
Qed.

Lemma grouped_fold ps :
  forall seen st,
    grouped ForceCamelIdentifier seen st ->
    grouped ForceCamelIdentifier (seen ++ ps) (List.fold_left (convertProc ForceCamelIdentifier) ps st).
Proof.
  induction ps as [|p ps IH]; intros seen st H; simpl.
  - now rewrite app_nil_r.
  - replace (seen ++ p :: ps) with ((seen ++ [p]) ++ ps)
      by now rewrite <- app_assoc.
    apply IH, grouped_step, H.
Qed.

(** The proc templates: one per group, named after its leader. *)
Lemma emitProcs_spec (procs : list xo.Proc.t) (tp : xo.Template.t) :
  let st := List.fold_left (convertProc ForceCamelIdentifier) procs (∅, []) in
  In tp (List.map (emitProc (fst st)) (snd st))
  <-> exists first,
      groupLeader ForceCamelIdentifier procs first = Some first
      /\ tp = xo.Template.mk "procs" (procDest ForceCamelIdentifier first) ""
                (procPrefix (xo.Proc.Typ first) +:+ cname first).
Proof.
  intros st.
  pose proof (grouped_fold procs [] (∅, []) grouped_nil) as (Horder & Hdom & Hhead).
  simpl in Horder, Hdom, Hhead. fold st in Horder, Hdom, Hhead.
  rewrite List.in_map_iff. split.
  - intros (name & <- & Hin).
    apply Horder in Hin as Hsome. destruct Hsome as [ps Hps].
    assert (Hl : is_Some (leaderOf procs name)) by (apply Hdom; rewrite Hps; eauto).
    destruct Hl as [first Hfirst].
    destruct (Hhead _ _ _ Hps Hfirst) as [rest ->].
    pose proof (List.find_some _ _ Hfirst) as [_ Heq].
    apply String.eqb_eq in Heq. exists first. split.
    + unfold groupLeader. now rewrite Heq.
    + unfold emitProc, procDest. rewrite Hps. simpl. now rewrite Heq.
  - intros (first & Hlead & ->). unfold groupLeader in Hlead.
    exists (cname first).
    assert (Hs : is_Some (fst st !! cname first)) by (apply Hdom; rewrite Hlead; eauto).
    destruct Hs as [ps Hps]. destruct (Hhead _ _ _ Hps Hlead) as [rest ->].
    split; [|apply Horder; rewrite Hps; eauto].
    unfold emitProc, procDest. rewrite Hps. reflexivity.
Qed.

(** The same for the list of expected files. *)
Lemma procFileNames_spec ps :
  forall seen procs files,
    (forall name, default false (procs !! name) = true
                  <-> is_Some (leaderOf seen name)) ->
    forall file,
      In file (procFileNames ForceCamelIdentifier ps procs files)
      <-> In file files
          \/ exists first,
              In first ps
              /\ leaderOf (seen ++ ps) (cname first) = Some first
              /\ leaderOf seen (cname first) = None
              /\ file = procDest ForceCamelIdentifier first.
Proof.
  induction ps as [|p ps IH]; intros seen procs files Hinv file; simpl.
  - split; [auto | intros [H|(first & [] & _)]; exact H].
  - idtac.
    replace (seen ++ p :: ps) with ((seen ++ [p]) ++ ps) by now rewrite <- app_assoc.
    destruct (default false (procs !! (cname p))) eqn:Eseen; cbn [negb].
    + (* the group of [p] already has its file *)
      assert (Hl : is_Some (leaderOf seen (cname p))) by now apply Hinv.
      rewrite (IH (seen ++ [p]) procs files).
      * split; (intros [H|(first & Hin & Hlead & Hnone & ->)]; [now left | right]).
        -- rewrite find_snoc in Hnone.
           destruct (leaderOf seen (cname first)) eqn:E; [discriminate|].
           exists first. repeat split; auto.
        -- destruct Hin as [->|Hin].
           ++ rewrite Hnone in Hl. destruct Hl; discriminate.
           ++ exists first. repeat split; auto.
              rewrite find_snoc, Hnone.
              destruct (String.eqb_spec (cname p) (cname first)) as [Heq|]; [|reflexivity].
              rewrite Heq, Hnone in Hl. destruct Hl; discriminate.
      * intros nm. rewrite find_snoc, Hinv.
        destruct (leaderOf seen nm) eqn:E; [reflexivity|].
        destruct (String.eqb_spec (cname p) nm) as [<-|]; [|reflexivity].
        rewrite E in Hl. destruct Hl; discriminate.
    + (* [p] leads a new group *)
      assert (Hl : leaderOf seen (cname p) = None).
      { destruct (leaderOf seen (cname p)) eqn:E; [|reflexivity].
        assert (default false (procs !! (cname p)) = true) by (apply Hinv; eauto).
        congruence. }
      rewrite (IH (seen ++ [p]) (<[(cname p) := true]> procs)).
      * rewrite List.in_app_iff. simpl.
        split.
        -- intros [[H|[<-|[]]]|(first & Hin & Hlead & Hnone & ->)].
           ++ now left.
           ++ right. exists p. repeat split; auto.
              rewrite find_app.
              now rewrite find_snoc, Hl, String.eqb_refl.
           ++ right. rewrite find_snoc in Hnone.
              destruct (leaderOf seen (cname first)) eqn:E; [discriminate|].
              exists first. repeat split; auto.
        -- intros [H|(first & [->|Hin] & Hlead & Hnone & ->)].
           ++ left. now left.
           ++ left. right. now left.
           ++ destruct (String.eqb_spec (cname p) (cname first)) as [Heq|Hne].
              ** rewrite find_app, find_snoc, Hnone in Hlead.
                 rewrite (proj2 (String.eqb_eq _ _) Heq) in Hlead.
                 injection Hlead as <-. left. right. now left.
              ** right. exists first. repeat split; auto.
                 rewrite find_snoc, Hnone.
                 destruct (String.eqb_spec (cname p) (cname first)); [contradiction|reflexivity].
      * intros nm. rewrite find_snoc.
        destruct (decide ((cname p) = nm)) as [<-|Hne].
        -- rewrite lookup_insert_eq, Hl, String.eqb_refl. simpl. split; eauto.
        -- rewrite lookup_insert_ne by assumption. rewrite Hinv.
           destruct (leaderOf seen nm); [reflexivity|].
           destruct (String.eqb_spec (cname p) nm); [contradiction | reflexivity].
Qed.

End Groups.

End plannerFacts.



(** ** Rows of escaped strings *)

Lemma ParseRowLiteral_escaped (values : list string) :
  exists tokens,
    ParseRowLiteral (BuildRowLiteral (List.map EscapeString values)) = Ok tokens
    /\ List.map Value tokens = values.
Proof.
  destruct values as [|v values].
  - exists []. split; reflexivity.
  - destruct (ParseRowLiteral_elements
                (List.map (fun s => (EscapeString s, s)) (v :: values)))
      as (tokens & Hparse & Hvals).
    + apply Forall_forall. intros ev Hin.
      apply list_elem_of_In, in_map_iff in Hin as (s & <- & _). apply element_quoted.
    + discriminate.
    + rewrite List.map_map in Hparse, Hvals. cbn [fst snd] in Hparse, Hvals.
      rewrite List.map_id in Hvals.
      exists tokens. split; [|exact Hvals].
      rewrite <- Hparse. f_equal.
Qed.

(** X1. A row built from the escaped forms of any list of strings is read
    back as one token per string, in order, each with the string as its
    value. *)
Theorem BuildRowLiteral_ParseRowLiteral_roundtrip (values : list string) :
  exists tokens,
    ParseRowLiteral (BuildRowLiteral (List.map EscapeString values)) = Ok tokens
    /\ List.map Value tokens = values.
Proof. apply ParseRowLiteral_escaped. Qed.

(** X2. [TokenCount] is -1 exactly on the inputs that [Valid] rejects and
    the number of tokens otherwise; a valid input is, once trimmed, enclosed
    in parentheses; and the row built from [n] escaped strings is valid and
    counts [n] tokens, the row of no string included. *)
Theorem Valid_TokenCount (data : string) (values : list string) :
  (Valid data = false <-> TokenCount data = -1)
  /\ (Valid data = true <-> 0 <= TokenCount data)
  /\ (Valid data = true ->
      exists body, Str.TrimSpace data = "(" +:+ body +:+ ")")
  /\ Valid (BuildRowLiteral (List.map EscapeString values)) = true
  /\ TokenCount (BuildRowLiteral (List.map EscapeString values))
     = Z.of_nat (List.length values).
Proof.
  split; [|split; [|split; [|split]]].
  - unfold Valid, TokenCount. destruct (ParseRowLiteral data); split; intros H;
      [discriminate | lia | reflexivity | reflexivity].
  - unfold Valid, TokenCount. destruct (ParseRowLiteral data); split; intros H;
      [lia | reflexivity | discriminate | lia].
  - unfold Valid, ParseRowLiteral.
    destruct (Str.TrimSpace data) as [|first rest] eqn:E; [discriminate|].
    destruct (Ascii.eqb_spec first Bytes.lparen) as [->|_]; [|discriminate].
    cbn [negb].
    destruct (lastByte (String Bytes.lparen rest)) as [last|] eqn:El; [|discriminate].
    destruct (Ascii.eqb_spec last Bytes.rparen) as [->|_]; [|discriminate].
    intros _. destruct rest as [|c rest]; [discriminate El|].
    destruct (lastByte_Some_app (String c rest) Bytes.rparen El) as (body & ->).
    exists body. reflexivity.
  - unfold Valid.
    destruct (ParseRowLiteral_escaped values) as (tokens & -> & _).
    reflexivity.
  - unfold TokenCount.
    destruct (ParseRowLiteral_escaped values) as (tokens & -> & <-).
    now rewrite List.length_map.
Qed.

Lemma forallb_append (p : ascii -> bool) (a b : string) :
  Str.forallb p (a +:+ b) = Str.forallb p a && Str.forallb p b.
Proof.
  induction a as [|c a IH]; [reflexivity|].
  cbn [String.append Str.forallb]. rewrite IH. apply andb_assoc.
Qed.

(** X3. The escaped form of a string is one line of printable text as far
    as the escaped bytes go: it holds no newline, carriage return, tab or
    NUL byte, whatever the string holds. *)
Theorem EscapeString_no_control (s : string) :
  Str.forallb (fun c => negb (controlByte c)) (EscapeString s) = true.
Proof.
  unfold EscapeString. cbn [Str.forallb]. rewrite forallb_append.
  change (Str.forallb (fun c => negb (controlByte c)) (Str.single Bytes.dquote)) with true.
  rewrite andb_true_r.
  change (negb (controlByte Bytes.dquote)) with true. cbn [andb].
  induction s as [|ch s IH]; [reflexivity|].
  cbn [escapeBytes]. rewrite forallb_append, IH, andb_true_r.
  destruct (Ascii.eqb ch Bytes.dquote); [reflexivity|].
  destruct (Ascii.eqb ch Bytes.backslash); [reflexivity|].
  unfold controlByte.
  destruct (Ascii.eqb ch Bytes.newline) eqn:E1; [reflexivity|].
  destruct (Ascii.eqb ch Bytes.creturn) eqn:E2; [reflexivity|].
  destruct (Ascii.eqb ch Bytes.tab) eqn:E3; [reflexivity|].
  destruct (Ascii.eqb ch Bytes.nul) eqn:E4; [reflexivity|].
  cbn [Str.single Str.forallb]. now rewrite E1, E2, E3, E4.
Qed.

(** ** More on the tag model *)

Section TagInvariants.

Lemma parseOption_Position tagValue opts part opts' :
  parseOption tagValue opts part = Ok opts' ->
  TagOptions.Position opts' = TagOptions.Position opts.
Proof.
  unfold parseOption.
  destruct (String.eqb (Str.TrimSpace part) ""); [now intros [= <-]|].
  destruct (indexEq (Str.TrimSpace part)).
  - destruct (String.eqb _ "default"); [now intros [= <-] | discriminate].
  - destruct (String.eqb _ "omitempty"); [now intros [= <-]|].
    destruct (String.eqb _ "required"); [now intros [= <-] | discriminate].
Qed.

Lemma parseOptions_Position tagValue parts :
  forall opts opts',
    parseOptions tagValue opts parts = Ok opts' ->
    TagOptions.Position opts' = TagOptions.Position opts.
Proof.
  induction parts as [|part rest IH]; intros opts opts'; cbn [parseOptions].
  - now intros [= <-].
  - destruct (parseOption tagValue opts part) as [o1|e] eqn:E; cbn [bind]; [|discriminate].
    intros H. apply IH in H. apply parseOption_Position in E. congruence.
Qed.

Lemma ParseTag_ok (tag : string) (opts : TagOptions) :
  ParseTag tag = Ok opts ->
  if String.eqb tag "" || String.eqb tag "-"
  then opts = TagOptions.zero
  else 1 <= TagOptions.Position opts
       /\ TagOptions.Required opts && TagOptions.OmitEmpty opts = false
       /\ TagOptions.Required opts && TagOptions.HasDefault opts = false.
Proof.
  unfold ParseTag.
  destruct (String.eqb tag "" || String.eqb tag "-"); [now intros [= <-]|].
  destruct (splitTagParts tag) as [|first rest]; [discriminate|].
  destruct (strconv.Atoi (Str.TrimSpace first)) as [e|pos]; [discriminate|].
  destruct (Z.ltb_spec pos 1); [discriminate|].
  destruct (parseOptions tag _ rest) as [o|e] eqn:E; cbn [bind]; [|discriminate].
  apply parseOptions_Position in E. cbn in E.
  destruct (TagOptions.Required o && TagOptions.OmitEmpty o) eqn:E1; [discriminate|].
  destruct (TagOptions.Required o && TagOptions.HasDefault o) eqn:E2; [discriminate|].
  intros [= <-]. repeat split; [lia | assumption..].
Qed.

End TagInvariants.

(** X4. Whatever [ParseTag] returns without an error is well formed: for
    the empty tag and the tag [-] it is the zero options (position 0); for
    any other tag the position is at least 1, and [required] is combined
    neither with [omitempty] nor with a default. *)
Theorem ParseTag_well_formed (tag : string) (opts : TagOptions) :
  ParseTag tag = Ok opts ->
  if String.eqb tag "" || String.eqb tag "-"
  then opts = TagOptions.zero
  else 1 <= TagOptions.Position opts
       /\ TagOptions.Required opts && TagOptions.OmitEmpty opts = false
       /\ TagOptions.Required opts && TagOptions.HasDefault opts = false.
Proof. apply ParseTag_ok. Qed.

Lemma ParseTag_well_formed_witness :
  1 <= 4
  /\ false && false = false
  /\ false && true = false.
Proof.
  exact (ParseTag_well_formed "4,default=0.0" (TagOptions.mk 4 false false "0.0" true)
           eq_refl).
Defined.

Section LayoutOrigin.

Lemma registered_Index i field info :
  registered i field = Some info -> FieldInfo.Index info = i.
Proof.
  unfold registered. destruct (StructField.Exported field); [|discriminate].
  destruct (StructField.Tag field) as [tv|]; [|discriminate].
  destruct (String.eqb tv "-"); [discriminate|].
  destruct (ParseTag tv); [|discriminate]. now intros [= <-].
Qed.

Lemma lookup_snoc_last (done : list StructField) (field sf : StructField) (i : nat) :
  (done ++ [field]) !! i = Some sf -> (List.length done <= i)%nat ->
  i = List.length done /\ sf = field.
Proof.
  intros Hsf Hge. apply lookup_app_Some in Hsf as [Hsf|[_ Hsf]].
  - apply lookup_lt_Some in Hsf. lia.
  - destruct (i - List.length done)%nat as [|k] eqn:Ek; [|destruct k; discriminate Hsf].
    injection Hsf as <-. split; [lia | reflexivity].
Qed.

Lemma getStructFieldsStep_origin (done : list StructField) (field : StructField) st st' :
  getStructFieldsStep (List.length done) field st = Ok st' ->
  layoutOf_fields done (fst st) -> sameKeys st ->
  layoutOf_fields (done ++ [field]) (fst st') /\ sameKeys st'.
Proof.
  intros Hstep Hinv Hkeys.
  assert (Hskip : registered (List.length done) field = None -> st' = st ->
                  layoutOf_fields (done ++ [field]) (fst st') /\ sameKeys st').
  { intros Hnone ->. split; [|exact Hkeys]. intros pos info. rewrite (Hinv pos info).
    split; intros (sf & Hsf & Hreg & Hpos).
    - exists sf. split; [|now split]. now apply lookup_app_l_Some.
    - destruct (le_lt_dec (List.length done) (FieldInfo.Index info)) as [Hge|Hlt].
      + exfalso. destruct (lookup_snoc_last _ _ _ _ Hsf Hge) as [Hi ->].
        rewrite Hi in Hreg. congruence.
      + rewrite lookup_app_l in Hsf by exact Hlt. exists sf. now split. }
  unfold getStructFieldsStep in Hstep. destruct st as [fields positions].
  destruct (StructField.Exported field) eqn:Ex; cbn [negb] in Hstep.
  2:{ injection Hstep as <-. apply Hskip; [|reflexivity].
      unfold registered. now rewrite Ex. }
  destruct (StructField.Tag field) as [tagValue|] eqn:Et.
  2:{ injection Hstep as <-. apply Hskip; [|reflexivity].
      unfold registered. now rewrite Ex, Et. }
  destruct (String.eqb tagValue "-") eqn:Ed.
  { injection Hstep as <-. apply Hskip; [|reflexivity].
    unfold registered. now rewrite Ex, Et, Ed. }
  destruct (ParseTag tagValue) as [opts|e] eqn:Etag; [|destruct e; discriminate].
  clear Hskip.
  destruct (positions !! TagOptions.Position opts) eqn:Epos; [discriminate|].
  injection Hstep as <-. cbn [fst snd] in *.
  set (info0 := FieldInfo.mk (StructField.Name field) (List.length done)
                             (StructField.Typ field) opts true).
  assert (Hreg0 : registered (List.length done) field = Some info0).
  { unfold registered. now rewrite Ex, Et, Ed, Etag. }
  assert (Hfree : fields !! TagOptions.Position opts = None).
  { destruct (fields !! TagOptions.Position opts) eqn:Ef; [|reflexivity].
    destruct (proj1 (Hkeys (TagOptions.Position opts))) as [x Hx]; [cbn; eauto|].
    cbn in Hx. congruence. }
  split.
  - intros pos info. split.
    + intros Hl. destruct (decide (TagOptions.Position opts = pos)) as [<-|Hne].
      * rewrite lookup_insert_eq in Hl. injection Hl as <-.
        exists field. split; [now apply list_lookup_middle|]. now split.
      * rewrite lookup_insert_ne in Hl by exact Hne.
        apply Hinv in Hl as (sf & Hsf & Hreg & Hpos).
        exists sf. split; [now apply lookup_app_l_Some | now split].
    + intros (sf & Hsf & Hreg & Hpos).
      destruct (le_lt_dec (List.length done) (FieldInfo.Index info)) as [Hge|Hlt].
      * destruct (lookup_snoc_last _ _ _ _ Hsf Hge) as [Hi ->].
        rewrite Hi, Hreg0 in Hreg. injection Hreg as <-.
        cbn in Hpos. subst pos. apply lookup_insert_eq.
      * rewrite lookup_app_l in Hsf by exact Hlt.
        assert (Hl : fields !! pos = Some info) by (apply Hinv; eauto).
        rewrite lookup_insert_ne; [exact Hl|]. intros <-. congruence.
  - intros p. cbn [fst snd].
    destruct (decide (TagOptions.Position opts = p)) as [<-|Hne].
    + rewrite !lookup_insert_eq. split; eauto.
    + rewrite !lookup_insert_ne by exact Hne. apply Hkeys.
Qed.

Lemma getStructFieldsLoop_origin (fs : list StructField) :
  forall (done : list StructField) st st',
    getStructFieldsLoop (List.length done) fs st = Ok st' ->
    layoutOf_fields done (fst st) -> sameKeys st ->
    layoutOf_fields (done ++ fs) (fst st').
Proof.
  induction fs as [|field rest IH]; intros done st st' Hloop Hinv Hkeys.
  - injection Hloop as <-. now rewrite List.app_nil_r.
  - cbn [getStructFieldsLoop] in Hloop.
    destruct (getStructFieldsStep (List.length done) field st) as [st1|e] eqn:E;
      cbn [bind] in Hloop; [|discriminate].
    destruct (getStructFieldsStep_origin done field st st1 E Hinv Hkeys) as [Hinv1 Hkeys1].
    replace (done ++ field :: rest) with ((done ++ [field]) ++ rest)
      by now rewrite <- List.app_assoc.
    apply (IH (done ++ [field]) st1 st'); [|assumption..].
    rewrite List.length_app. cbn [List.length].
    replace (List.length done + 1)%nat with (S (List.length done)) by lia.
    exact Hloop.
Qed.

Lemma GetStructFields_origin name methods sfields fields :
  GetStructFields (TStruct name methods sfields) = Ok fields ->
  layoutOf_fields sfields fields.
Proof.
  unfold GetStructFields. cbn.
  destruct (getStructFieldsLoop 0 sfields (∅, ∅)) as [st|e] eqn:E; cbn [bind];
    [|discriminate].
  intros [= <-].
  apply (getStructFieldsLoop_origin sfields [] (∅, ∅) st E).
  - intros pos info. cbn [fst]. rewrite lookup_empty. split; [discriminate|].
    intros (sf & Hsf & _). discriminate Hsf.
  - intros p. cbn. rewrite !lookup_empty. split; intros [x Hx]; discriminate Hx.
Qed.

End LayoutOrigin.

(** X5. The layout [GetStructFields] returns for a struct holds exactly
    the entries of its exported fields that carry a row tag other than
    [-]: each under the position its tag parses to, with the name, index
    and type of the field and the parsed options; no entry is lost or
    overwritten, and distinct positions point to distinct fields. *)
Theorem GetStructFields_layout (name : string) (methods : Methods)
        (sfields : list StructField) (fields : gmap Z FieldInfo) :
  GetStructFields (TStruct name methods sfields) = Ok fields ->
  layoutOf_fields sfields fields
  /\ layoutIndexed (List.length sfields) fields.
Proof.
  intros H. split; [eapply GetStructFields_origin | eapply GetStructFields_indexed]; exact H.
Qed.

Lemma GetStructFields_layout_witness :
  layoutOf_fields (structFields addressStruct) (layoutOf addressStruct)
  /\ layoutIndexed 3 (layoutOf addressStruct).
Proof.
  exact (GetStructFields_layout "Address" noMethods (structFields addressStruct)
           (layoutOf addressStruct) eq_refl).
Defined.

(** ** Positions *)

(** X6. [GetMaxPosition] returns the largest key of the layout, and 0 for
    a layout without a positive key: the result is never negative, no key
    exceeds it, and it is 0 or a key. *)
Theorem GetMaxPosition_is_maximum (fields : gmap Z FieldInfo) :
  0 <= GetMaxPosition fields
  /\ (forall pos, is_Some (fields !! pos) -> pos <= GetMaxPosition fields)
  /\ (GetMaxPosition fields = 0 \/ is_Some (fields !! GetMaxPosition fields)).
Proof. apply GetMaxPosition_spec. Qed.

Lemma seqZ_sorted (len : nat) :
  forall m, StronglySorted Z.lt (seqZ m (Z.of_nat len)).
Proof.
  induction len as [|len IH]; intros m; [constructor|].
  rewrite seqZ_cons by lia.
  replace (Z.pred (Z.of_nat (S len))) with (Z.of_nat len) by lia.
  constructor; [apply IH|].
  apply Forall_forall. intros x Hx. apply elem_of_seqZ in Hx. lia.
Qed.

Lemma filter_sorted (p : Z -> bool) (l : list Z) :
  StronglySorted Z.lt l -> StronglySorted Z.lt (List.filter p l).
Proof.
  induction 1 as [|x l Hs IH Hall]; [constructor|].
  cbn [List.filter]. destruct (p x); [|exact IH].
  constructor; [exact IH|].
  apply Forall_forall. intros y Hy.
  apply list_elem_of_In, filter_In in Hy as [Hy _].
  rewrite Forall_forall in Hall. apply Hall. now apply list_elem_of_In.
Qed.

(** X7. [GetSortedPositions] lists, in strictly increasing order, exactly
    the keys of the layout that are at least 1; a key 0, which an empty
    tag registers, is never listed. *)
Theorem GetSortedPositions_sorted_keys (fields : gmap Z FieldInfo) :
  StronglySorted Z.lt (GetSortedPositions fields)
  /\ (forall pos, In pos (GetSortedPositions fields)
                  <-> 1 <= pos /\ is_Some (fields !! pos)).
Proof.
  unfold GetSortedPositions.
  destruct (bool_decide (size fields = 0%nat)) eqn:Esize.
  - apply bool_decide_eq_true_1, map_size_empty_iff in Esize. subst fields.
    split; [constructor|]. intros pos. split; [intros []|].
    intros [_ [x Hx]]. rewrite lookup_empty in Hx. discriminate.
  - destruct (GetMaxPosition_spec fields) as (H0 & Hle & _).
    split.
    + apply filter_sorted.
      rewrite <- (Z2Nat.id (GetMaxPosition fields)) by exact H0. apply seqZ_sorted.
    + intros pos. rewrite filter_In, <- list_elem_of_In, elem_of_seqZ.
      rewrite bool_decide_eq_true. split.
      * intros [Hr Hs]. split; [lia | exact Hs].
      * intros [H1 Hs]. split; [|exact Hs]. specialize (Hle pos Hs). lia.
Qed.

(** ** More on the value converter *)

(** X8. Every error that [ConvertToType] returns, for whatever text and
    target type, nested pointers, slices and wrappers included, is a type
    mismatch that carries the position it was asked for. *)
Theorem ConvertToType_errors_are_mismatches {L : GoLib} (value : string) (t : GoType)
        (name : string) (pos : Z) (e : error) :
  ConvertToType value t name pos = Err e -> mismatchAt pos e.
Proof. apply ConvertToType_err. Qed.

Lemma ConvertToType_errors_are_mismatches_witness :
  mismatchAt 3 (TypeMismatchError "ZipCode" 3 "z" "int"
                  (ReasonNumError "ParseInt" "z" ErrSyntax)).
Proof.
  exact (ConvertToType_errors_are_mismatches (L := textLib) "z" (TInt Int) "ZipCode" 3
           _ eq_refl).
Defined.

(** X9. The empty text is converted without an error to the zero value of
    a string, an integer, a boolean, a float, a time, a pointer (nil) and a
    nullable wrapper (invalid); for a slice it gives an empty slice that is
    not nil, which [IsZeroValue] does not count as zero; and for a struct
    without a scanner it is a type mismatch like any other text. *)
Theorem ConvertToType_empty {L : GoLib} (name : string) (pos : Z)
        (k : IntKind) (u : UintKind) (nk : NullKind) (elem : GoType)
        (sname : string) (sfields : list StructField) :
  ConvertToType "" TString name pos = Ok (VString "")
  /\ ConvertToType "" (TInt k) name pos = Ok (VInt k 0)
  /\ ConvertToType "" (TUint u) name pos = Ok (VUint u 0)
  /\ ConvertToType "" TBool name pos = Ok (VBool false)
  /\ ConvertToType "" TFloat32 name pos = Ok (VFloat32 floatZero)
  /\ ConvertToType "" TFloat64 name pos = Ok (VFloat64 floatZero)
  /\ ConvertToType "" TTime name pos = Ok (VTime timeZero)
  /\ ConvertToType "" (TPtr elem) name pos = Ok (VPtr elem None)
  /\ ConvertToType "" (TNull nk) name pos = Ok (invalidNull nk)
  /\ ConvertToType "" (TSlice elem) name pos = Ok (VSlice elem (Some []))
  /\ IsZeroValue (VSlice elem (Some [])) = false
  /\ IsZeroValue (VPtr elem None) = true
  /\ ConvertToType "" (TStruct sname noMethods sfields) name pos
     = Err (TypeMismatchError name pos "" (typeString (TStruct sname noMethods sfields))
              (ReasonText "unsupported struct type")).
Proof. repeat split; reflexivity. Qed.

(** ** More on Unmarshal *)

Section Frames.

Context {L : GoLib}.

Variable fields : gmap Z FieldInfo.

(** The assignment pass writes to the fields of the layout only, and
    keeps the number of fields. *)
Lemma assignLoop_frame (tokens : list Token) :
  forall (i : Z) (st st' : state) err,
    assignLoop fields tokens i st = (st', err) ->
    List.length (fst st') = List.length (fst st)
    /\ forall idx, untagged fields idx -> fst st' !! idx = fst st !! idx.
Proof.
  induction tokens as [|token rest IH]; intros i st st' err Hloop;
    cbn [assignLoop] in Hloop.
  - injection Hloop as <- <-. now split.
  - destruct (fields !! (i + 1)) as [field|] eqn:Ef; [|now apply IH in Hloop].
    destruct (ConvertToType _ _ _ _) as [converted|e].
    + apply IH in Hloop as [Hlen Hframe]. cbn [fst] in *.
      rewrite length_insert in Hlen. split; [exact Hlen|].
      intros idx Hidx. rewrite Hframe by exact Hidx.
      apply list_lookup_insert_ne. exact (Hidx _ _ Ef).
    + injection Hloop as <- <-. now split.
Qed.

Lemma defaultsLoop_frame (ntokens : Z) (order : list Z) :
  forall (st st' : state) err,
    defaultsLoop fields ntokens order st = (st', err) ->
    List.length (fst st') = List.length (fst st)
    /\ forall idx, untagged fields idx -> fst st' !! idx = fst st !! idx.
Proof.
  induction order as [|pos rest IH]; intros st st' err Hloop;
    cbn [defaultsLoop] in Hloop.
  - injection Hloop as <- <-. now split.
  - destruct (fields !! pos) as [field|] eqn:Ef; [|now apply IH in Hloop].
    destruct ((ntokens <? pos) && TagOptions.HasDefault (FieldInfo.Options field));
      [|now apply IH in Hloop].
    destruct (ConvertToType _ _ _ _) as [converted|e].
    + apply IH in Hloop as [Hlen Hframe]. cbn [fst] in *.
      rewrite length_insert in Hlen. split; [exact Hlen|].
      intros idx Hidx. rewrite Hframe by exact Hidx.
      apply list_lookup_insert_ne. exact (Hidx _ _ Ef).
    + injection Hloop as <- <-. now split.
Qed.

Variable rangeOrder : list Z -> list Z.

Lemma unmarshalStruct_frame (data : string) (t : GoType) (vals : list goValue) :
  GetStructFields t = Ok fields \/ (exists e, GetStructFields t = Err e) ->
  List.length (fst (unmarshalStruct rangeOrder data t vals)) = List.length vals
  /\ forall idx,
       (GetStructFields t = Ok fields -> untagged fields idx) ->
       fst (unmarshalStruct rangeOrder data t vals) !! idx = vals !! idx.
Proof.
  intros Hget. unfold unmarshalStruct.
  destruct (ParseRowLiteral data) as [tokens|e]; [|now split].
  destruct Hget as [Hget|[e Hget]]; rewrite Hget; [|now split].
  destruct (assignLoop fields tokens 0 (vals, requiredFieldsOf rangeOrder fields))
    as [st1 err1] eqn:E1.
  apply assignLoop_frame in E1 as [Hlen1 Hframe1]. cbn [fst] in *.
  destruct err1 as [err1|]; cbn [fst].
  { split; [exact Hlen1|]. intros idx Hidx. apply Hframe1. now apply Hidx. }
  destruct (defaultsLoop fields _ _ st1) as [st2 err2] eqn:E2.
  apply defaultsLoop_frame in E2 as [Hlen2 Hframe2].
  destruct err2; cbn [fst]; (split; [congruence|]); intros idx Hidx;
    (rewrite Hframe2, Hframe1; [reflexivity | now apply Hidx..]).
Qed.

End Frames.

(** X11. [Unmarshal] never changes a field that carries no row tag, nor
    the number of fields, whatever the row holds and whatever it returns;
    and a target that is not a pointer to a struct value is left as it
    is. *)
Theorem Unmarshal_frame {L : GoLib} (rangeOrder : list Z -> list Z) (data : string)
        (elem : GoType) (name : string) (methods : Methods)
        (sfields : list StructField) (vals : list goValue) (v : option goValue) :
  (exists vals' err,
      Unmarshal rangeOrder data (Some (VPtr elem (Some (VStruct name methods sfields vals))))
      = (Some (VPtr elem (Some (VStruct name methods sfields vals'))), err)
      /\ List.length vals' = List.length vals
      /\ forall idx,
           untagged (layoutOf (TStruct name methods sfields)) idx ->
           vals' !! idx = vals !! idx)
  /\ (fst (Unmarshal rangeOrder data v) = v
      \/ exists elem' name' methods' sfields' vals0,
           v = Some (VPtr elem' (Some (VStruct name' methods' sfields' vals0)))).
Proof.
  split.
  - unfold Unmarshal, withStructPointer.
    destruct (unmarshalStruct rangeOrder data (TStruct name methods sfields) vals)
      as [vals' err] eqn:E.
    exists vals', err. split; [reflexivity|].
    pose proof (unmarshalStruct_frame (layoutOf (TStruct name methods sfields))
                  rangeOrder data (TStruct name methods sfields) vals) as H.
    rewrite E in H. cbn [fst] in H. unfold layoutOf in *.
    destruct (GetStructFields (TStruct name methods sfields)) as [fields|e] eqn:Eg.
    + destruct H as [Hlen Hframe]; [now left|]. split; [exact Hlen|].
      intros idx Hidx. apply Hframe. intros _. exact Hidx.
    + destruct H as [Hlen Hframe]; [right; eauto|]. split; [exact Hlen|].
      intros idx _. apply Hframe. discriminate.
  - unfold Unmarshal, withStructPointer.
    destruct v as [w|]; [|now left].
    destruct w; try (now left).
    destruct target as [t|]; [|now left].
    destruct t; try (right; do 5 eexists; reflexivity);
      try (left; match goal with |- context [if ?c then _ else _] => destruct c end;
           reflexivity).
Qed.

Section RequiredFacts.

Context {L : GoLib}.

Variable rangeOrder : list Z -> list Z.
Hypothesis Hrange : rangeAdmissible rangeOrder.

Variable fields : gmap Z FieldInfo.

Lemma lookup_rangeOrder {A} (m : gmap Z A) (pos : Z) :
  is_Some (m !! pos) -> In pos (rangeOrder (mapKeys m)).
Proof.
  intros [x Hx]. eapply Permutation_in; [symmetry; apply Hrange|].
  unfold mapKeys. apply in_map_iff. exists (pos, x). split; [reflexivity|].
  now apply list_elem_of_In, elem_of_map_to_list.
Qed.

(** Every required field is recorded as required. *)
Lemma requiredFieldsOf_complete (pos : Z) (field : FieldInfo) :
  fields !! pos = Some field ->
  TagOptions.Required (FieldInfo.Options field) = true ->
  is_Some (requiredFieldsOf rangeOrder fields !! pos).
Proof.
  intros Hf Hreq. unfold requiredFieldsOf.
  assert (Hin : In pos (rangeOrder (mapKeys fields))) by (apply lookup_rangeOrder; eauto).
  revert Hin. generalize (rangeOrder (mapKeys fields)) as order.
  assert (Hgen : forall order (required : gmap Z string),
             is_Some (required !! pos) \/ In pos order ->
             is_Some (fold_left
                        (fun required pos =>
                           match fields !! pos with
                           | Some field =>
                               if TagOptions.Required (FieldInfo.Options field)
                               then <[pos := FieldInfo.Name field]> required
                               else required
                           | None => required
                           end) order required !! pos)).
  { induction order as [|p order IH]; intros required Hor; cbn [fold_left].
    - destruct Hor as [H|[]]. exact H.
    - apply IH. destruct (decide (p = pos)) as [->|Hne].
      + left. rewrite Hf, Hreq, lookup_insert_eq. eauto.
      + destruct Hor as [H|[H|H]]; [|contradiction|now right].
        left. destruct (fields !! p) as [f|]; [|exact H].
        destruct (TagOptions.Required (FieldInfo.Options f)); [|exact H].
        now rewrite lookup_insert_ne. }
  intros order Hin. apply Hgen. now right.
Qed.

(** The assignment pass strikes out only positions of tokens. *)
Lemma assignLoop_keeps (tokens : list Token) :
  forall (i : Z) (st st' : state) err (pos : Z),
    assignLoop fields tokens i st = (st', err) ->
    ~ (i < pos <= i + Z.of_nat (List.length tokens)) ->
    snd st' !! pos = snd st !! pos.
Proof.
  induction tokens as [|token rest IH]; intros i st st' err pos Hloop Hout;
    cbn [assignLoop] in Hloop.
  - now injection Hloop as <- <-.
  - cbn [List.length] in Hout.
    destruct (fields !! (i + 1)) as [field|] eqn:Ef.
    + destruct (ConvertToType _ _ _ _) as [converted|e].
      * apply (IH _ _ _ _ pos) in Hloop; [|lia]. rewrite Hloop. cbn [snd].
        apply lookup_delete_ne. lia.
      * injection Hloop as <- <-. cbn [snd]. apply lookup_delete_ne. lia.
    + apply (IH _ _ _ _ pos) in Hloop; [exact Hloop | lia].
Qed.

(** The defaults pass strikes out only positions of fields with a
    default. *)
Lemma defaultsLoop_keeps (ntokens : Z) (order : list Z) :
  forall (st st' : state) err (pos : Z) (field : FieldInfo),
    defaultsLoop fields ntokens order st = (st', err) ->
    fields !! pos = Some field ->
    TagOptions.HasDefault (FieldInfo.Options field) = false ->
    snd st' !! pos = snd st !! pos.
Proof.
  induction order as [|p rest IH]; intros st st' err pos field Hloop Hf Hd;
    cbn [defaultsLoop] in Hloop.
  - now injection Hloop as <- <-.
  - destruct (fields !! p) as [f|] eqn:Ef; [|eapply IH; eassumption].
    destruct ((ntokens <? p) && TagOptions.HasDefault (FieldInfo.Options f)) eqn:Ec;
      [|eapply IH; eassumption].
    apply andb_prop in Ec as [_ Ehd].
    assert (Hne : p <> pos) by (intros ->; congruence).
    destruct (ConvertToType _ _ _ _) as [converted|e].
    + rewrite (IH _ _ _ pos field Hloop Hf Hd). cbn [snd]. now apply lookup_delete_ne.
    + now injection Hloop as <- <-.
Qed.

(** The last check passes only when no required field is left. *)
Lemma missingRequired_None (required : gmap Z string) :
  missingRequired rangeOrder required = None -> required = ∅.
Proof.
  unfold missingRequired. intros H. apply map_eq. intros pos. rewrite lookup_empty.
  destruct (required !! pos) as [x|] eqn:E; [exfalso|reflexivity].
  assert (Hin : In pos (rangeOrder (mapKeys required))) by (apply lookup_rangeOrder; eauto).
  destruct (rangeOrder (mapKeys required)) as [|p rest] eqn:Eo; [destruct Hin|].
  assert (Hp : is_Some (required !! p)).
  { apply (rangeOrder_lookup rangeOrder Hrange). rewrite Eo. now left. }
  destruct Hp as [y Hy]. rewrite Hy in H. discriminate.
Qed.

End RequiredFacts.

(** A required field of a layout has no default. *)
Lemma required_no_default (name : string) (methods : Methods)
      (sfields : list StructField) (fields : gmap Z FieldInfo)
      (pos : Z) (field : FieldInfo) :
  GetStructFields (TStruct name methods sfields) = Ok fields ->
  fields !! pos = Some field ->
  TagOptions.Required (FieldInfo.Options field) = true ->
  TagOptions.HasDefault (FieldInfo.Options field) = false.
Proof.
  intros Hget Hf Hreq.
  apply GetStructFields_origin in Hget.
  apply Hget in Hf as (sf & _ & Hreg & _).
  unfold registered in Hreg.
  destruct (StructField.Exported sf); [|discriminate].
  destruct (StructField.Tag sf) as [tag|]; [|discriminate].
  destruct (String.eqb tag "-"); [discriminate|].
  destruct (ParseTag tag) as [opts|e] eqn:Etag; [|discriminate].
  injection Hreg as Hreg. rewrite <- Hreg in Hreq |- *. cbn in *.
  apply ParseTag_ok in Etag.
  destruct (String.eqb tag "" || String.eqb tag "-").
  - subst opts. reflexivity.
  - destruct Etag as (_ & _ & H). rewrite Hreq in H. exact H.
Qed.

(** X12. When [Unmarshal] returns no error, every required field of the
    struct had a token of its own in the row, whatever order the maps are
    ranged over: its position is at most the number of tokens. *)
Theorem Unmarshal_success_required {L : GoLib} (rangeOrder : list Z -> list Z)
        (data : string) (elem : GoType) (name : string) (methods : Methods)
        (sfields : list StructField) (vals : list goValue)
        (tokens : list Token) (fields : gmap Z FieldInfo) :
  rangeAdmissible rangeOrder ->
  ParseRowLiteral data = Ok tokens ->
  GetStructFields (TStruct name methods sfields) = Ok fields ->
  snd (Unmarshal rangeOrder data
         (Some (VPtr elem (Some (VStruct name methods sfields vals))))) = None ->
  forall pos field,
    fields !! pos = Some field ->
    TagOptions.Required (FieldInfo.Options field) = true ->
    1 <= pos <= Z.of_nat (List.length tokens).
Proof.
  intros Hrange Hparse Hget Hrun pos field Hf Hreq.
  unfold Unmarshal, withStructPointer, unmarshalStruct in Hrun.
  rewrite Hparse, Hget in Hrun.
  destruct (assignLoop fields tokens 0 (vals, requiredFieldsOf rangeOrder fields))
    as [st1 [err1|]] eqn:E1; [discriminate Hrun|].
  destruct (defaultsLoop fields _ _ st1) as [st2 [err2|]] eqn:E2; [discriminate Hrun|].
  cbn [snd fst] in Hrun. apply (missingRequired_None rangeOrder Hrange) in Hrun.
  destruct (decide (0 < pos <= 0 + Z.of_nat (List.length tokens))) as [Hin|Hout]; [lia|].
  exfalso.
  pose proof (requiredFieldsOf_complete rangeOrder Hrange fields pos field Hf Hreq)
    as [x Hx].
  pose proof (assignLoop_keeps fields tokens 0 _ _ _ pos E1 Hout) as H1.
  pose proof (defaultsLoop_keeps fields _ _ _ _ _ pos field E2 Hf
                (required_no_default _ _ _ _ _ _ Hget Hf Hreq)) as H2.
  cbn [snd] in H1. rewrite Hrun, H1, Hx, lookup_empty in H2. discriminate H2.
Qed.

Lemma Unmarshal_success_required_witness :
  1 <= 2 <= Z.of_nat (List.length (tokensOf "(a,b)")).
Proof.
  apply (Unmarshal_success_required (L := textLib) ascending "(a,b)"
           requiredPair "Pair" noMethods (structFields requiredPair)
           [VString ""; VString ""] (tokensOf "(a,b)") (layoutOf requiredPair)
           ascending_admissible eq_refl eq_refl eq_refl 2
           (FieldInfo.mk "B" 1 TString (TagOptions.mk 2 false true "" false) true)).
  - vm_compute. reflexivity.
  - reflexivity.
Defined.

Lemma withStructPointer_success {L : GoLib} (v v' : option goValue)
      (f g : GoType -> list goValue -> list goValue * option error) :
  (forall t vals, snd (f t vals) = None -> f t vals = g t vals) ->
  withStructPointer v f = (v', None) -> withStructPointer v g = (v', None).
Proof.
  intros Hfg. unfold withStructPointer.
  destruct v as [w|]; [|exact (fun H => H)].
  destruct w; try exact (fun H => H).
  destruct target as [t|]; [|exact (fun H => H)].
  destruct t;
    try (cbn [typeOf]; destruct (isStructKind _); [|exact (fun H => H)];
         intros Hrun; injection Hrun as <- Hnone;
         now rewrite <- (Hfg _ _ Hnone), Hnone).
  match goal with
  | |- context [f ?t ?vals] =>
      destruct (f t vals) as [vals1 err1] eqn:Ef;
      intros Hrun; injection Hrun as <- ->;
      rewrite <- (Hfg t vals), Ef; [reflexivity|]; now rewrite Ef
  end.
Qed.

(** X13. When [UnmarshalStrict] returns no error, [Unmarshal] on the same
    input returns no error and leaves the same value; and for a pointer to
    a struct value the row then has no more tokens than the largest
    position of the layout. *)
Theorem UnmarshalStrict_success {L : GoLib} (rangeOrder : list Z -> list Z)
        (data : string) (v v' : option goValue) :
  UnmarshalStrict rangeOrder data v = (v', None) ->
  Unmarshal rangeOrder data v = (v', None)
  /\ forall elem name methods sfields vals,
       v = Some (VPtr elem (Some (VStruct name methods sfields vals))) ->
       TokenCount data <= GetMaxPosition (layoutOf (TStruct name methods sfields)).
Proof.
  intros Hrun. split.
  - unfold UnmarshalStrict, Unmarshal in *.
    eapply withStructPointer_success; [|exact Hrun].
    intros t vals. cbv beta.
    destruct (ParseRowLiteral data) as [tokens|e]; [|discriminate].
    destruct (GetStructFields t) as [fields|e]; [|discriminate].
    destruct (GetMaxPosition fields <? Z.of_nat (List.length tokens));
      [discriminate | reflexivity].
  - intros elem name methods sfields vals ->.
    unfold UnmarshalStrict, withStructPointer in Hrun.
    unfold TokenCount, layoutOf.
    destruct (ParseRowLiteral data) as [tokens|e].
    2:{ injection Hrun as _ H. discriminate H. }
    destruct (GetStructFields (TStruct name methods sfields)) as [layout|e].
    2:{ injection Hrun as _ H. discriminate H. }
    destruct (Z.ltb_spec (GetMaxPosition layout) (Z.of_nat (List.length tokens)));
      [injection Hrun as _ Herr; discriminate Herr | lia].
Qed.

Lemma UnmarshalStrict_success_witness :
  Unmarshal (L := textLib) ascending "(a,b)" (pointerTo requiredPair [VString ""; VString ""])
  = (pointerTo requiredPair [VString "a"; VString "b"], None).
Proof.
  apply (UnmarshalStrict_success (L := textLib) ascending "(a,b)").
  vm_compute. reflexivity.
Defined.

(** ** MarshalWith *)

Section MarshalWithFacts.

Context {L : GoLib}.

Variable fields : gmap Z FieldInfo.
Variable vals : list goValue.

Let isZero := fun i : nat => IsZeroValue (fieldAt vals i).
Let formatted := fun i : nat => FormatValue (fieldAt vals i).

(** With [FillGaps] every position of the loop contributes one value. *)
Lemma marshalWithLoop_filled (positions : list Z) :
  forall values out,
    marshalWithLoop fields isZero formatted (MarshalOptions.mk false true)
                    positions values = Ok out ->
    out = values ++ List.map (slotAt fields vals) positions.
Proof.
  induction positions as [|pos rest IH]; intros values out Hloop;
    cbn [marshalWithLoop List.map] in *.
  - injection Hloop as <-. now rewrite List.app_nil_r.
  - unfold slotAt at 1. unfold leftOut. unfold fillGap in Hloop.
    cbn [MarshalOptions.FillGaps MarshalOptions.IncludeEmpty negb andb] in Hloop.
    destruct (fields !! pos) as [field|].
    + fold (isZero (FieldInfo.Index field)).
      destruct (TagOptions.OmitEmpty (FieldInfo.Options field)
                && isZero (FieldInfo.Index field)).
      * apply IH in Hloop. now rewrite Hloop, <- List.app_assoc.
      * unfold formatted in Hloop at 1.
        destruct (FormatValue (fieldAt vals (FieldInfo.Index field))); [|discriminate].
        apply IH in Hloop. now rewrite Hloop, <- List.app_assoc.
    + apply IH in Hloop. now rewrite Hloop, <- List.app_assoc.
Qed.

(** The placeholders of a gap without fields. *)
Lemma gapFill_empty (j k : Z) :
  j <= k -> (forall q, j < q <= k -> fields !! q = None) ->
  gapFill fields isZero j (k + 1) = List.repeat emptyQuoted (Z.to_nat (k - j)).
Proof.
  intros Hjk Hnone. unfold gapFill.
  replace (k + 1 - j - 1) with (Z.of_nat (Z.to_nat (k - j))) by lia.
  assert (Hgen : forall (len : nat) (m : Z),
             (forall q, m <= q < m + Z.of_nat len -> fields !! q = None) ->
             concat (List.map (fun i => match fields !! i with
                                        | Some skipField =>
                                            if omitted isZero skipField then []
                                            else [emptyQuoted]
                                        | None => [emptyQuoted]
                                        end) (seqZ m (Z.of_nat len)))
             = List.repeat emptyQuoted len).
  { induction len as [|len IH]; intros m Hm; [reflexivity|].
    rewrite seqZ_cons by lia.
    replace (Z.pred (Z.of_nat (S len))) with (Z.of_nat len) by lia.
    cbn [List.map concat List.repeat]. rewrite (Hm m) by lia.
    rewrite IH; [reflexivity|]. intros q Hq. apply Hm. lia. }
  apply Hgen. intros q Hq. apply Hnone. lia.
Qed.

Hypothesis Hkept : forall pos field, fields !! pos = Some field -> leftOut vals field = false.

(** The loop of [Marshal] over the sorted positions and the loop of
    [MarshalWith] over all positions, with [FillGaps], build the same
    values when no field is left out. *)
Lemma loops_agree (includeEmpty : bool) (len : nat) :
  forall (k j : Z) (values : list string),
    j <= k ->
    (forall q, j < q <= k -> fields !! q = None) ->
    (len = 0%nat /\ j = k) \/ ((0 < len)%nat /\ is_Some (fields !! (k + Z.of_nat len))) ->
    marshalLoop fields isZero formatted
      (List.filter (fun i => bool_decide (is_Some (fields !! i)))
                   (seqZ (k + 1) (Z.of_nat len))) values j
    = marshalWithLoop fields isZero formatted (MarshalOptions.mk includeEmpty true)
        (seqZ (k + 1) (Z.of_nat len))
        (values ++ List.repeat emptyQuoted (Z.to_nat (k - j))).
Proof.
  induction len as [|len IH]; intros k j values Hjk Hgap Hend.
  - destruct Hend as [[_ ->]|[Hlt _]]; [|lia].
    cbn. replace (Z.to_nat (k - k)) with 0%nat by lia. cbn.
    now rewrite List.app_nil_r.
  - destruct Hend as [[Hlen _]|[_ Hlast]]; [discriminate|].
    rewrite seqZ_cons by lia.
    replace (Z.pred (Z.of_nat (S len))) with (Z.of_nat len) by lia.
    replace (Z.succ (k + 1)) with (k + 1 + 1) by lia.
    cbn [List.filter marshalWithLoop].
    destruct (fields !! (k + 1)) as [field|] eqn:Ef.
    + rewrite bool_decide_eq_true_2 by eauto.
      cbn [marshalLoop]. rewrite Ef.
      pose proof (Hkept _ _ Ef) as Hk. unfold leftOut in Hk.
      unfold omitted. fold (isZero (FieldInfo.Index field)) in Hk. rewrite Hk.
      cbn [MarshalOptions.IncludeEmpty].
      replace (negb includeEmpty && TagOptions.OmitEmpty (FieldInfo.Options field)
               && isZero (FieldInfo.Index field)) with false
        by (rewrite <- andb_assoc, Hk; now rewrite andb_false_r).
      rewrite gapFill_empty by assumption.
      destruct (formatted (FieldInfo.Index field)) as [text|reason]; [|reflexivity].
      rewrite (IH (k + 1) (k + 1)); [| lia | intros q Hq; lia |].
      * replace (Z.to_nat (k + 1 - (k + 1))) with 0%nat by lia.
        cbn [List.repeat]. now rewrite List.app_nil_r.
      * destruct len as [|len']; [left; split; [reflexivity | lia]|].
        right. split; [lia|].
        replace (k + 1 + Z.of_nat (S len')) with (k + Z.of_nat (S (S len'))) by lia.
        exact Hlast.
    + rewrite bool_decide_eq_false_2 by (intros [x Hx]; discriminate).
      unfold fillGap. cbn [MarshalOptions.FillGaps].
      rewrite (IH (k + 1) j); [| lia | |].
      * rewrite <- List.app_assoc. do 2 f_equal.
        replace (Z.to_nat (k + 1 - j)) with (Z.to_nat (k - j) + 1)%nat by lia.
        now rewrite List.repeat_app.
      * intros q Hq. destruct (decide (q = k + 1)) as [->|Hne]; [exact Ef|].
        apply Hgap. lia.
      * destruct len as [|len'].
        -- exfalso. replace (k + Z.of_nat 1) with (k + 1) in Hlast by lia.
           rewrite Ef in Hlast. destruct Hlast as [x Hx]. discriminate.
        -- right. split; [lia|].
           replace (k + 1 + Z.of_nat (S len')) with (k + Z.of_nat (S (S len'))) by lia.
           exact Hlast.
Qed.

End MarshalWithFacts.

Lemma marshalStruct_marshalWithStruct {L : GoLib} (t : GoType) (vals : list goValue)
      (includeEmpty : bool) :
  (forall pos field, layoutOf t !! pos = Some field -> leftOut vals field = false) ->
  marshalStruct t (fun i => IsZeroValue (fieldAt vals i))
                (fun i => FormatValue (fieldAt vals i))
  = marshalWithStruct t (fun i => IsZeroValue (fieldAt vals i))
                      (fun i => FormatValue (fieldAt vals i))
                      (MarshalOptions.mk includeEmpty true).
Proof.
  intros Hkept. unfold marshalStruct, marshalWithStruct, layoutOf in *.
  destruct (GetStructFields t) as [fields|e]; [|reflexivity]. cbn [bind].
  unfold GetSortedPositions.
  destruct (bool_decide (size fields = 0%nat)); [reflexivity|].
  destruct (GetMaxPosition_spec fields) as (H0 & _ & Hmax).
  pose proof (loops_agree fields vals Hkept includeEmpty
                (Z.to_nat (GetMaxPosition fields)) 0 0 []) as H.
  rewrite Z2Nat.id in H by exact H0. change (0 + 1) with 1 in H.
  cbn [Z.sub Z.to_nat List.repeat app] in H.
  rewrite H; [reflexivity | lia | intros q Hq; lia |].
  destruct Hmax as [Hz|Hs].
  - left. rewrite Hz. split; reflexivity.
  - destruct (Z.to_nat (GetMaxPosition fields)) as [|n] eqn:En; [left; split; [reflexivity|lia]|].
    right. split; [lia|]. exact Hs.
Qed.

(** X14. With [FillGaps] set and [IncludeEmpty] clear, a row that
    [MarshalWith] writes for a struct with tagged fields has exactly one
    value for every position from 1 to the largest: the encoding of the
    field there, and the quoted empty string where there is no field or
    the field is left out by omitempty. *)
Theorem MarshalWith_FillGaps_positions {L : GoLib} (name : string) (methods : Methods)
        (sfields : list StructField) (vals : list goValue)
        (fields : gmap Z FieldInfo) (literal : string) :
  GetStructFields (TStruct name methods sfields) = Ok fields ->
  size fields <> 0%nat ->
  MarshalWith (Some (VStruct name methods sfields vals)) (MarshalOptions.mk false true)
  = Ok literal ->
  literal = BuildRowLiteral (List.map (slotAt fields vals) (seqZ 1 (GetMaxPosition fields)))
  /\ Z.of_nat (List.length (List.map (slotAt fields vals) (seqZ 1 (GetMaxPosition fields))))
     = GetMaxPosition fields.
Proof.
  intros Hget Hsize. cbn [MarshalWith MarshalWith_deref]. unfold marshalWithStruct.
  rewrite Hget. cbn [bind]. rewrite bool_decide_eq_false_2 by exact Hsize.
  destruct (marshalWithLoop _ _ _ _ _ _) as [values|e] eqn:E; cbn [bind]; [|discriminate].
  intros [= <-]. apply marshalWithLoop_filled in E. cbn [app] in E. subst values.
  split; [reflexivity|].
  rewrite List.length_map, length_seqZ.
  destruct (GetMaxPosition_spec fields) as (H0 & _). lia.
Qed.

Lemma MarshalWith_FillGaps_positions_witness :
  BuildRowLiteral [EscapeString "a"; EscapeString ""; EscapeString ""]
  = BuildRowLiteral (List.map (slotAt (L := textLib) (layoutOf sparseStruct) sparseZero)
                              (seqZ 1 (GetMaxPosition (layoutOf sparseStruct))))
  /\ Z.of_nat (List.length
                 (List.map (slotAt (L := textLib) (layoutOf sparseStruct) sparseZero)
                           (seqZ 1 (GetMaxPosition (layoutOf sparseStruct)))))
     = GetMaxPosition (layoutOf sparseStruct).
Proof.
  apply (MarshalWith_FillGaps_positions (L := textLib) "Sparse" noMethods sparseFields
           sparseZero (layoutOf sparseStruct)).
  - reflexivity.
  - vm_compute. discriminate.
  - vm_compute. reflexivity.
Defined.

(** X15. For a struct none of whose tagged fields is left out by
    omitempty, [Marshal] and [MarshalWith] with [FillGaps] return the same
    thing, literal or error, whether [IncludeEmpty] is set or not. *)
Theorem Marshal_MarshalWith_FillGaps {L : GoLib} (name : string) (methods : Methods)
        (sfields : list StructField) (vals : list goValue) (includeEmpty : bool) :
  (forall pos field,
      layoutOf (TStruct name methods sfields) !! pos = Some field ->
      leftOut vals field = false) ->
  Marshal (Some (VStruct name methods sfields vals))
  = MarshalWith (Some (VStruct name methods sfields vals))
                (MarshalOptions.mk includeEmpty true).
Proof.
  intros Hkept. cbn [Marshal Marshal_deref MarshalWith MarshalWith_deref].
  now apply marshalStruct_marshalWithStruct.
Qed.

Lemma Marshal_MarshalWith_FillGaps_witness :
  Marshal (L := textLib) (Some (VStruct "Sparse" noMethods sparseFields sparseSet))
  = MarshalWith (Some (VStruct "Sparse" noMethods sparseFields sparseSet))
                (MarshalOptions.mk false true).
Proof.
  apply (Marshal_MarshalWith_FillGaps (L := textLib) "Sparse" noMethods sparseFields
           sparseSet false).
  intros pos field Hf. apply lookup_In in Hf. vm_compute in Hf.
  destruct Hf as [E|[E|[]]]; injection E as <- <-; reflexivity.
Defined.

(** ** Rows as PostgreSQL writes them *)

Section PgQuote.

Import StrFacts.

Variable content : string.
Variable startPos : Z.

(** The quoted scanner reads a doubled quote as one quote and a doubled
    backslash as one backslash. *)
Lemma quotedLoop_pgBytes_tail (tail : string) (s : string) :
  Str.startsWith Bytes.dquote tail = false ->
  forall (tokenStart pos : Z) (value : string),
    quotedLoop content startPos tokenStart
               (pgBytes s +:+ String Bytes.dquote tail) pos false value
    = Ok (mkToken (value +:+ s)
                  (Str.slice tokenStart (pos + Str.len (pgBytes s) + 1) content)
                  true (startPos + tokenStart),
          pos + Str.len (pgBytes s) + 1).
Proof.
  intros Htail. induction s as [|ch s IH]; intros tokenStart pos value.
  - simpl. rewrite app_nil_r.
    replace (pos + Str.len "" + 1) with (pos + 1) by (unfold Str.len; simpl; lia).
    destruct tail as [|ch2 tail']; [reflexivity|].
    simpl in Htail. now rewrite Htail.
  - assert (Hgo : forall esc pos',
               pgBytes (String ch s) = esc +:+ pgBytes s ->
               pos' = pos + Str.len esc ->
               quotedLoop content startPos tokenStart
                          (esc +:+ pgBytes s +:+ String Bytes.dquote tail)
                          pos false value
               = quotedLoop content startPos tokenStart
                            (pgBytes s +:+ String Bytes.dquote tail)
                            pos' false (value +:+ Str.single ch) ->
               quotedLoop content startPos tokenStart
                          (pgBytes (String ch s) +:+ String Bytes.dquote tail)
                          pos false value
               = Ok (mkToken (value +:+ String ch s)
                       (Str.slice tokenStart
                          (pos + Str.len (pgBytes (String ch s)) + 1) content)
                       true (startPos + tokenStart),
                     pos + Str.len (pgBytes (String ch s)) + 1)).
    { intros esc pos' Hesc -> Hstep.
      rewrite Hesc, app_assoc, Hstep, IH, len_app, app_assoc. simpl.
      replace (pos + Str.len esc + Str.len (pgBytes s) + 1)
        with (pos + (Str.len esc + Str.len (pgBytes s)) + 1) by lia.
      reflexivity. }
    destruct (Ascii.eqb_spec ch Bytes.dquote) as [->|Hq];
      [apply (Hgo (String Bytes.dquote (Str.single Bytes.dquote)) (pos + 2));
       [reflexivity | unfold Str.len; simpl; lia | reflexivity]|].
    destruct (Ascii.eqb_spec ch Bytes.backslash) as [->|Hb];
      [apply (Hgo (String Bytes.backslash (Str.single Bytes.backslash)) (pos + 1 + 1));
       [reflexivity | unfold Str.len; simpl; lia | reflexivity]|].
    apply (Hgo (Str.single ch) (pos + 1)).
    + simpl. rewrite (proj2 (Ascii.eqb_neq _ _) Hq), (proj2 (Ascii.eqb_neq _ _) Hb).
      reflexivity.
    + unfold Str.len; simpl; lia.
    + simpl. rewrite (proj2 (Ascii.eqb_neq _ _) Hq), (proj2 (Ascii.eqb_neq _ _) Hb).
      reflexivity.
Qed.

End PgQuote.

Lemma parseTokens_pgQuote (s : string) (startPos : Z) :
  parseTokens (pgQuote s) startPos = Ok [mkToken s (pgQuote s) true startPos].
Proof.
  unfold parseTokens.
  set (content := pgQuote s).
  assert (Hlen : Str.len content = Str.len (pgBytes s) + 2).
  { unfold content, pgQuote. rewrite StrFacts.len_cons, StrFacts.len_app.
    unfold Str.len; simpl; lia. }
  pose proof (StrFacts.len_nonneg (pgBytes s)) as Hnn.
  cbn [parseTokensLoop].
  destruct (Z.ltb_spec 0 (Str.len content)) as [_|]; [|lia]. cbn [negb].
  assert (H0 : Str.drop (Z.to_nat 0) content
               = String Bytes.dquote (pgBytes s +:+ Str.single Bytes.dquote))
    by reflexivity.
  assert (Hskip : skipSpaceAt content 0 = 0)
    by (unfold skipSpaceAt; rewrite H0; reflexivity).
  rewrite Hskip.
  destruct (Z.leb_spec (Str.len content) 0) as [|_]; [lia|].
  unfold scanAt, byteAt, parseQuotedString. rewrite H0.
  change (Ascii.eqb Bytes.dquote Bytes.dquote) with true. cbv iota.
  change (Str.single Bytes.dquote) with (String Bytes.dquote "").
  rewrite quotedLoop_pgBytes_tail by reflexivity. cbn [bind].
  replace (0 + 1 + Str.len (pgBytes s) + 1) with (Str.len content) by lia.
  rewrite skipSpaceAt_end by lia.
  destruct (Z.ltb_spec (Str.len content) (Str.len content)); [lia|].
  rewrite parseTokensLoop_end by lia.
  unfold Str.slice. simpl Str.drop. rewrite StrFacts.take_all.
  - simpl. now rewrite Z.add_0_r.
  - unfold Str.len. lia.
Qed.

(** X16. The parser reads PostgreSQL's own quoting: for every string, the
    row whose only field is the string between double quotes, with its
    double quotes and backslashes doubled, parses to one quoted token
    whose value is the string. *)
Theorem pgQuote_ParseRowLiteral (s : string) :
  ParseRowLiteral ("(" +:+ pgQuote s +:+ ")") = Ok [mkToken s (pgQuote s) true 1].
Proof.
  unfold ParseRowLiteral.
  change ("(" +:+ pgQuote s +:+ ")")
    with (String Bytes.lparen (pgQuote s +:+ Str.single Bytes.rparen)).
  rewrite StrFacts.TrimSpace_id by reflexivity.
  cbv iota. change (Ascii.eqb Bytes.lparen Bytes.lparen) with true. cbn [negb].
  change (String Bytes.lparen (pgQuote s +:+ Str.single Bytes.rparen))
    with (String Bytes.lparen (pgQuote s) +:+ Str.single Bytes.rparen) at 1.
  rewrite StrFacts.lastByte_app_single.
  change (Ascii.eqb Bytes.rparen Bytes.rparen) with true. cbn [negb].
  assert (Hc : Str.slice 1 (Str.len (String Bytes.lparen
                   (pgQuote s +:+ Str.single Bytes.rparen)) - 1)
                 (String Bytes.lparen (pgQuote s +:+ Str.single Bytes.rparen))
               = pgQuote s).
  { unfold Str.slice. change (Z.to_nat 1) with 1%nat. cbn [Str.drop].
    rewrite StrFacts.len_cons, StrFacts.len_app.
    replace (Z.to_nat (1 + (Str.len (pgQuote s) + Str.len (Str.single Bytes.rparen)) - 1 - 1))
      with (String.length (pgQuote s)) by (unfold Str.len; simpl; lia).
    apply StrFacts.take_app_length. }
  rewrite Hc.
  unfold pgQuote at 1. rewrite StrFacts.TrimSpace_id by reflexivity.
  cbn [String.eqb]. apply parseTokens_pgQuote.
Qed.

(** ** More of the SQL builder *)

Module pgxsqlFacts.
Import pgx pgxsql.

Lemma nthList_placeholders (f : Funcs) (count : nat) :
  Funcs.nth f = NthParam -> nthList f count = placeholders 0 count.
Proof.
  intros Hnth. unfold nthList, placeholders. apply List.map_ext.
  intros i. rewrite Hnth. unfold NthParam. reflexivity.
Qed.

Lemma keyConditions_placeholders (f : Funcs) (keys : list Field) :
  Funcs.nth f = NthParam ->
  keyConditions f 0 keys
  = assignments (List.map (colname f) keys) (placeholders 0 (List.length keys)).
Proof.
  intros Hnth. unfold keyConditions.
  rewrite (pgxFacts.imap_assignments f (Funcs.nth f) 0 keys).
  f_equal. unfold placeholders. apply List.map_ext.
  intros i. rewrite Hnth. reflexivity.
Qed.

(** The loop of [buildSqlstr] from a line that is not the first. *)
Lemma buildLoop_middle (n : Z) (middle : list string) :
  forall (i : Z) (last : string) (res : list string),
    0 < i -> i + Z.of_nat (List.length middle) = n - 1 ->
    buildLoop n i (middle ++ [last]) res
    = res ++ List.map middleLine middle ++ [lastLine last].
Proof.
  induction middle as [|m middle IH]; intros i last res Hi Hn;
    cbn [app buildLoop List.map List.length] in *.
  - destruct (Z.eqb_spec i 0); [lia|]. destruct (Z.eqb_spec i (n - 1)); [|lia].
    reflexivity.
  - destruct (Z.eqb_spec i 0); [lia|]. destruct (Z.eqb_spec i (n - 1)); [lia|].
    rewrite IH by lia. now rewrite <- List.app_assoc.
Qed.

End pgxsqlFacts.

(** X17. Under PostgreSQL's placeholder numbering, the statement of an
    index selects every column of its table and compares the index fields,
    in order, with [$1], [$2], ...; the call of a stored procedure is
    [CALL name($1, ..., $n)] and that of a function
    [SELECT * FROM name($1, ..., $n)], with one placeholder per
    parameter. *)
Theorem sqlstr_index_proc_shapes (f : pgx.Funcs) (x : pgxsql.Index.t) (p : pgxsql.Proc.t) :
  pgx.Funcs.nth f = pgx.NthParam ->
  pgxsql.sqlstr_index f (pgxsql.ArgIndex x)
  = [ "SELECT ";
      Str.join ", " (List.map (pgx.colname f)
                       (pgx.Table.Fields (pgxsql.Index.Table x))) +:+ " ";
      "FROM " +:+ pgx.schemafn f [pgx.Table.SQLName (pgxsql.Index.Table x)] +:+ " ";
      "WHERE " +:+
      Str.join " AND "
        (pgx.assignments (List.map (pgx.colname f) (pgxsql.Index.Fields x))
           (pgx.placeholders 0 (List.length (pgxsql.Index.Fields x)))) ]
  /\ pgxsql.sqlstr_proc f (pgxsql.ArgProc p)
     = [ (if String.eqb (pgxsql.Proc.Typ p) "function" then "SELECT * FROM " else "CALL ")
         +:+ pgx.schemafn f [pgxsql.Proc.SQLName p] +:+ "("
         +:+ Str.join ", " (pgx.placeholders 0 (List.length (pgxsql.Proc.Params p)))
         +:+ ")" ].
Proof.
  intros Hnth. split.
  - unfold pgxsql.sqlstr_index.
    now rewrite pgxsqlFacts.keyConditions_placeholders.
  - unfold pgxsql.sqlstr_proc, pgxsql.sqlstr_func.
    rewrite pgxsqlFacts.nthList_placeholders by exact Hnth.
    destruct (String.eqb (pgxsql.Proc.Typ p) "function"); reflexivity.
Qed.

Lemma sqlstr_index_proc_shapes_witness :
  pgx.sqlText (pgxsql.sqlstr_index pgx.postgres (pgxsql.ArgIndex pgxsql.booksIsbnIndex))
  = "SELECT book_id, author_id, title, published_year, isbn, price FROM books WHERE isbn = $1"
  /\ pgxsql.sqlstr_proc pgx.postgres (pgxsql.ArgProc pgxsql.archiveBooks)
     = ["CALL archive_books($1, $2)"].
Proof.
  destruct (sqlstr_index_proc_shapes pgx.postgres pgxsql.booksIsbnIndex pgxsql.archiveBooks)
    as [Hi Hp]; [reflexivity|].
  rewrite Hi, Hp. split; reflexivity.
Defined.

(** X18. [buildSqlstr] writes a statement of two or more lines as a
    constant whose lines are joined by [+]: the first after
    [const sqlstr =], the last without a plus sign.  A statement of one
    line is written like a first line, with a plus sign after it and
    nothing to follow; that is the case of every stored procedure call. *)
Theorem buildSqlstr_shape (f : pgx.Funcs) (first last : string) (middle : list string)
        (p : pgxsql.Proc.t) :
  pgxsql.buildSqlstr (first :: middle ++ [last])
  = Str.join (Str.single Bytes.newline)
      (pgxsql.firstLine first :: List.map pgxsql.middleLine middle
       ++ [pgxsql.lastLine last])
  /\ pgxsql.buildSqlstr [first] = pgxsql.firstLine first
  /\ pgxsql.buildSqlstr [] = ""
  /\ exists call,
       pgxsql.sqlstr_proc f (pgxsql.ArgProc p) = [call]
       /\ pgxsql.sqlstr f "proc" (pgxsql.ArgProc p) = "const sqlstr = `" +:+ call +:+ "` +".
Proof.
  split; [|split; [|split]].
  - unfold pgxsql.buildSqlstr. cbn [pgxsql.buildLoop List.length]. cbn [Z.eqb].
    rewrite pgxsqlFacts.buildLoop_middle; [reflexivity | lia|].
    rewrite List.length_app. cbn [List.length]. lia.
  - reflexivity.
  - reflexivity.
  - unfold pgxsql.sqlstr. cbn [String.eqb Ascii.eqb Bool.eqb].
    unfold pgxsql.sqlstr_proc, pgxsql.sqlstr_func.
    destruct (String.eqb (pgxsql.Proc.Typ p) "function"); eexists; split; reflexivity.
Qed.

(** ** Names *)

Module namingFacts.

Lemma lastUnderscore_word (w : string) :
  naming.isWord w = true ->
  forall i found, planner.lastUnderscore w i found = found.
Proof.
  induction w as [|c w IH]; intros Hw i found; [reflexivity|].
  cbn [naming.isWord Str.forallb] in Hw. apply andb_prop in Hw as [Hc Hw].
  cbn [planner.lastUnderscore]. apply negb_true_iff in Hc. rewrite Hc.
  now apply IH.
Qed.

Lemma lastUnderscore_last (a w : string) :
  naming.isWord w = true ->
  forall i found,
    planner.lastUnderscore (a +:+ String "_" w) i found = Some (i + Str.len a).
Proof.
  intros Hw. induction a as [|c a IH]; intros i found.
  - cbn [String.append planner.lastUnderscore].
    change (Ascii.eqb "_" "_") with true. cbv iota.
    rewrite lastUnderscore_word by exact Hw. f_equal. unfold Str.len. cbn. lia.
  - cbn [String.append planner.lastUnderscore]. rewrite IH. f_equal.
    rewrite StrFacts.len_cons. lia.
Qed.

End namingFacts.

(** X19. [singularize] hands only the last word of a name in snake case to
    the inflector and keeps what comes before it, the underscore
    included; a name without an underscore is handed over whole. *)
Theorem singularize_last_word (Singularize : string -> string) (a w : string) :
  naming.isWord w = true ->
  planner.singularize Singularize (a +:+ "_" +:+ w) = a +:+ "_" +:+ Singularize w
  /\ planner.singularize Singularize w = Singularize w.
Proof.
  intros Hw. unfold planner.singularize. split.
  - change (a +:+ "_" +:+ w) with (a +:+ String "_" w).
    rewrite namingFacts.lastUnderscore_last by exact Hw.
    unfold Str.slice.
    replace (Z.to_nat (0 + Str.len a + 1 - 0)) with (String.length (a +:+ "_"))
      by (rewrite StrFacts.length_app; unfold Str.len; cbn; lia).
    replace (Z.to_nat (0 + Str.len a + 1)) with (String.length (a +:+ "_"))
      by (rewrite StrFacts.length_app; unfold Str.len; cbn; lia).
    change (Z.to_nat 0) with 0%nat. cbn [Str.drop].
    replace (a +:+ String "_" w) with ((a +:+ "_") +:+ w)
      by (rewrite StrFacts.app_assoc; reflexivity).
    rewrite StrFacts.take_app_length, StrFacts.drop_app_length.
    rewrite StrFacts.take_all.
    + now rewrite StrFacts.app_assoc.
    + rewrite StrFacts.len_app. unfold Str.len.
      rewrite !StrFacts.length_app. cbn. lia.
  - now rewrite namingFacts.lastUnderscore_word.
Qed.

Lemma singularize_last_word_witness :
  planner.singularize planner.singularizeRegular ("book" +:+ "_" +:+ "tags")
  = "book" +:+ "_" +:+ planner.singularizeRegular "tags"
  /\ planner.singularize planner.singularizeRegular "tags"
     = planner.singularizeRegular "tags".
Proof.
  exact (singularize_last_word planner.singularizeRegular "book" "tags" eq_refl).
Defined.

(** X20. [buildOverloadedName] fails, with a run-time panic, exactly for a
    proc without parameters; for one parameter the name is the name of the
    proc, [By] and the name that stands for the parameter, and for more
    the names of all but the last parameter follow [By] and the last one
    follows [And]. *)
Theorem buildOverloadedName_shape (ForceCamelIdentifier : string -> string)
        (procName : string) (params front : list naming.Param.t)
        (first last : naming.Param.t) :
  (naming.buildOverloadedName ForceCamelIdentifier procName params = None
   <-> params = [])
  /\ naming.buildOverloadedName ForceCamelIdentifier procName [first]
     = Some (procName +:+ "By" +:+ naming.paramName ForceCamelIdentifier 0 first)
  /\ naming.buildOverloadedName ForceCamelIdentifier procName (first :: front ++ [last])
     = Some (procName +:+ "By"
             +:+ Str.join "" (imap (naming.paramName ForceCamelIdentifier) (first :: front))
             +:+ "And"
             +:+ naming.paramName ForceCamelIdentifier (S (List.length front)) last).
Proof.
  split; [|split].
  - unfold naming.buildOverloadedName. destruct params as [|p [|q rest]].
    + split; reflexivity.
    + split; discriminate.
    + split; discriminate.
  - reflexivity.
  - unfold naming.buildOverloadedName.
    change (first :: front ++ [last]) with ((first :: front) ++ [last]).
    rewrite imap_app. cbn [imap].
    set (names := imap (naming.paramName ForceCamelIdentifier) (first :: front)).
    set (l := naming.paramName ForceCamelIdentifier (List.length (first :: front) + 0) last).
    assert (Hl : l = naming.paramName ForceCamelIdentifier (S (List.length front)) last).
    { unfold l. cbn [List.length]. now rewrite Nat.add_0_r. }
    rewrite List.removelast_last, List.last_last, <- Hl.
    subst names. cbn [imap app].
    destruct (imap (naming.paramName ForceCamelIdentifier ∘ S) front); reflexivity.
Qed.

(** ** The Go type of a column *)

Module gotypeFacts.
Import gotype.

Section Facts.

Variable ForceCamelIdentifier : string -> string.
Variable itype : string.

Lemma isPrefix_drop (p s : string) :
  Str.isPrefix p s = true ->
  (String.length (Str.drop (String.length p) s) + String.length p)%nat
  = String.length s.
Proof.
  revert s. induction p as [|a p IH]; intros s H; [cbn; lia|].
  destruct s as [|b s]; [discriminate|].
  cbn [Str.isPrefix] in H. apply andb_prop in H as [_ H].
  cbn [String.length Str.drop]. specialize (IH s H). lia.
Qed.

(** Fuel above the length of the type name is not used up. *)
Lemma pgxGoType_fuel (fuel1 : nat) :
  forall (fuel2 : nat) (typ : Typ.t),
    (String.length (Typ.Name typ) < fuel1)%nat ->
    (String.length (Typ.Name typ) < fuel2)%nat ->
    pgxGoTypeFuel ForceCamelIdentifier itype fuel1 typ
    = pgxGoTypeFuel ForceCamelIdentifier itype fuel2 typ.
Proof.
  induction fuel1 as [|fuel1 IH]; intros fuel2 typ H1 H2; [lia|].
  destruct fuel2 as [|fuel2]; [lia|].
  cbn [pgxGoTypeFuel].
  destruct (Str.isPrefix setofPrefix (Typ.Name typ)) eqn:Ep; [|reflexivity].
  apply isPrefix_drop in Ep. change (String.length setofPrefix) with 6%nat in *.
  rewrite (IH fuel2); [reflexivity | cbn [Typ.Name]; lia..].
Qed.

(** The prefix [SETOF ] wraps the type of what follows it in a
    slice. *)
Lemma pgxGoType_SETOF (name : string) (nullable isArray : bool) :
  pgxGoType ForceCamelIdentifier itype
            (Typ.mk (setofPrefix +:+ name) nullable isArray)
  = ("[]" +:+ fst (pgxGoType ForceCamelIdentifier itype
                     (Typ.mk name nullable isArray)), "nil").
Proof.
  unfold pgxGoType. cbn [Typ.Name pgxGoTypeFuel Typ.Nullable Typ.IsArray].
  change (Str.isPrefix setofPrefix (setofPrefix +:+ name)) with true. cbv iota.
  change (Str.drop (String.length setofPrefix) (setofPrefix +:+ name)) with name.
  rewrite (pgxGoType_fuel _ (S (String.length name))); [reflexivity | cbn; lia..].
Qed.

(** For an array the flag [Nullable] is not read. *)
Lemma pgxGoType_array_nullable (fuel : nat) :
  forall (name : string) (nullable : bool),
    pgxGoTypeFuel ForceCamelIdentifier itype fuel (Typ.mk name nullable true)
    = pgxGoTypeFuel ForceCamelIdentifier itype fuel (Typ.mk name false true).
Proof.
  induction fuel as [|fuel IH]; intros name nullable; [reflexivity|].
  cbn [pgxGoTypeFuel Typ.Name Typ.Nullable Typ.IsArray].
  destruct (Str.isPrefix setofPrefix name); [now rewrite IH|].
  cbn [negb]. now rewrite andb_false_r.
Qed.

(** The type of an array that is not a set is one of the nine slice
    types. *)
Lemma pgxGoType_array_slice (name : string) (nullable : bool) :
  Str.isPrefix setofPrefix name = false ->
  In (fst (pgxGoType ForceCamelIdentifier itype (Typ.mk name nullable true)))
     sliceTypes.
Proof.
  intros Hp. unfold pgxGoType. cbn [pgxGoTypeFuel Typ.Name Typ.Nullable Typ.IsArray].
  rewrite Hp.
  destruct (scalarType ForceCamelIdentifier itype name (specialType name)
                       (nullable && negb true)) as [goType zeroValue].
  unfold pgxArrMapping, sliceTypes.
  repeat match goal with
         | |- context [String.eqb goType ?s] => destruct (String.eqb goType s)
         end; cbn; tauto.
Qed.

Lemma pgxGoType_array_zero (fuel : nat) (name : string) (nullable : bool) :
  snd (pgxGoTypeFuel ForceCamelIdentifier itype (S fuel) (Typ.mk name nullable true))
  = "nil".
Proof.
  cbn [pgxGoTypeFuel Typ.Name Typ.Nullable Typ.IsArray].
  destruct (Str.isPrefix setofPrefix name); [reflexivity|].
  destruct (scalarType _ _ _ _ _) as [goType zeroValue].
  destruct (pgxArrMapping goType); reflexivity.
Qed.

End Facts.

End gotypeFacts.

(** X21. [pgxGoType] on an array column: the flag [Nullable] makes no
    difference, the zero value is [nil], and, unless the type is a set,
    the Go type is one of the slices of the eight mapped element types or
    [[]byte]; on a type name that starts with [SETOF ] the Go type is the
    slice of the type of the rest of the name, with zero value [nil]. *)
Theorem pgxGoType_arrays_and_sets (ForceCamelIdentifier : string -> string)
        (itype name : string) (nullable isArray : bool) :
  gotype.pgxGoType ForceCamelIdentifier itype (gotype.Typ.mk name nullable true)
  = gotype.pgxGoType ForceCamelIdentifier itype (gotype.Typ.mk name false true)
  /\ snd (gotype.pgxGoType ForceCamelIdentifier itype (gotype.Typ.mk name nullable true))
     = "nil"
  /\ (Str.isPrefix gotype.setofPrefix name = false ->
      In (fst (gotype.pgxGoType ForceCamelIdentifier itype
                 (gotype.Typ.mk name nullable true)))
         gotype.sliceTypes)
  /\ gotype.pgxGoType ForceCamelIdentifier itype
       (gotype.Typ.mk (gotype.setofPrefix +:+ name) nullable isArray)
     = ("[]" +:+ fst (gotype.pgxGoType ForceCamelIdentifier itype
                        (gotype.Typ.mk name nullable isArray)), "nil").
Proof.
  split; [|split; [|split]].
  - apply gotypeFacts.pgxGoType_array_nullable.
  - apply gotypeFacts.pgxGoType_array_zero.
  - apply gotypeFacts.pgxGoType_array_slice.
  - apply gotypeFacts.pgxGoType_SETOF.
Qed.

(** ** The errors of the entry points *)

Section LexerErrors.

Variable content : string.
Variable startPos : Z.

Lemma quotedLoop_err_bounded (k : nat) :
  forall rest tokenStart pos escaped value e,
    (String.length rest <= k)%nat ->
    quotedLoop content startPos tokenStart rest pos escaped value = Err e ->
    isParseError e.
Proof.
  induction k as [|k IH]; intros rest tokenStart pos escaped value e Hk H.
  { destruct rest; simpl in *; [|lia]. injection H as <-. do 3 eexists; reflexivity. }
  destruct rest as [|ch rest']; simpl in H, Hk.
  { injection H as <-. do 3 eexists; reflexivity. }
  destruct escaped.
  { apply IH in H; [exact H | lia]. }
  destruct (Ascii.eqb ch Bytes.backslash).
  { apply IH in H; [exact H | lia]. }
  destruct (Ascii.eqb ch Bytes.dquote).
  - destruct rest' as [|ch2 rest'']; [discriminate|].
    destruct (Ascii.eqb ch2 Bytes.dquote); [|discriminate].
    apply IH in H; [exact H | simpl in Hk; lia].
  - apply IH in H; [exact H | lia].
Qed.

Lemma unquotedLoop_err (rest : string) :
  forall pos value e,
    unquotedLoop content startPos rest pos value = Err e -> isParseError e.
Proof.
  induction rest as [|ch rest IH]; intros pos value e H; simpl in H; [discriminate|].
  destruct (Ascii.eqb ch Bytes.comma || Ascii.eqb ch Bytes.rparen || Bytes.isSpace ch);
    [discriminate|].
  destruct (Ascii.eqb ch Bytes.dquote).
  - injection H as <-. do 3 eexists; reflexivity.
  - eapply IH; eassumption.
Qed.

Lemma scanAt_err (pos : Z) (e : error) :
  scanAt content startPos pos = Err e -> isParseError e.
Proof.
  assert (Hu : parseUnquotedValue content startPos pos = Err e -> isParseError e).
  { unfold parseUnquotedValue.
    destruct (unquotedLoop content startPos (Str.drop (Z.to_nat pos) content) pos "")
      as [[v p]|e'] eqn:E; cbn [bind]; [discriminate|].
    intros [= <-]. eapply unquotedLoop_err; eassumption. }
  unfold scanAt. destruct (byteAt content pos) as [ch|]; [|exact Hu].
  destruct (Ascii.eqb ch Bytes.dquote); [|exact Hu].
  unfold parseQuotedString.
  destruct (Str.drop (Z.to_nat pos) content) as [|c rest].
  { intros [= <-]. do 3 eexists; reflexivity. }
  destruct (Ascii.eqb c Bytes.dquote).
  - apply (quotedLoop_err_bounded (String.length rest)). lia.
  - intros [= <-]. do 3 eexists; reflexivity.
Qed.

Lemma parseTokensLoop_err (fuel : nat) :
  forall pos tokens e,
    parseTokensLoop content startPos fuel pos tokens = Err e -> isParseError e.
Proof.
  induction fuel as [|fuel IH]; intros pos tokens e H; cbn [parseTokensLoop] in H;
    [discriminate|].
  destruct (negb (pos <? Str.len content)); [discriminate|].
  destruct (Str.len content <=? skipSpaceAt content pos); [discriminate|].
  destruct (scanAt content startPos (skipSpaceAt content pos)) as [[token pos']|e'] eqn:E;
    cbn [bind] in H.
  2:{ injection H as <-. eapply scanAt_err; eassumption. }
  destruct (skipSpaceAt content pos' <? Str.len content); [|eapply IH; eassumption].
  destruct (byteAt content (skipSpaceAt content pos')) as [ch|];
    [|eapply IH; eassumption].
  destruct (Ascii.eqb ch Bytes.comma); [eapply IH; eassumption|].
  injection H as <-. do 3 eexists; reflexivity.
Qed.

End LexerErrors.

Lemma ParseRowLiteral_err (input : string) (e : error) :
  ParseRowLiteral input = Err e -> e = ErrEmptyInput \/ isParseError e.
Proof.
  unfold ParseRowLiteral.
  destruct (Str.TrimSpace input) as [|first rest]; [intros [= <-]; now left|].
  destruct (negb (Ascii.eqb first Bytes.lparen)).
  { intros [= <-]. right. do 3 eexists; reflexivity. }
  destruct (negb _).
  { intros [= <-]. right. do 3 eexists; reflexivity. }
  destruct (String.eqb _ _); [discriminate|].
  intros H. right. eapply parseTokensLoop_err. exact H.
Qed.

Lemma GetStructFields_err (t : GoType) (e : error) :
  GetStructFields t = Err e -> e = ErrNotStruct \/ isValidationError e.
Proof.
  unfold GetStructFields.
  destruct (negb (isStructKind _)); [intros [= <-]; now left|].
  destruct (getStructFieldsLoop 0 _ (∅, ∅)) as [st|e'] eqn:E; cbn [bind]; [discriminate|].
  intros [= <-]. right. eapply getStructFieldsLoop_err. exact E.
Qed.

Section CodecErrors.

Context {L : GoLib}.

Lemma mismatchAt_kind (pos : Z) (e : error) : mismatchAt pos e -> isTypeMismatchError e.
Proof. intros (n & v & x & r & ->). do 5 eexists; reflexivity. Qed.

Lemma assignLoop_err_kind (fields : gmap Z FieldInfo) (tokens : list Token) :
  forall i st st' e,
    assignLoop fields tokens i st = (st', Some e) -> isTypeMismatchError e.
Proof.
  induction tokens as [|token rest IH]; intros i st st' e H; cbn [assignLoop] in H;
    [discriminate|].
  destruct (fields !! (i + 1)) as [field|]; [|eapply IH; eassumption].
  destruct (ConvertToType _ _ _ _) as [converted|e'] eqn:Ec; [eapply IH; eassumption|].
  injection H as _ <-. eapply mismatchAt_kind, ConvertToType_err. exact Ec.
Qed.

Lemma unmarshalStruct_err (rangeOrder : list Z -> list Z) (data : string) (t : GoType)
      (vals : list goValue) (e : error) :
  snd (unmarshalStruct rangeOrder data t vals) = Some e ->
  e = ErrNotStruct \/ e = ErrEmptyInput \/ isParseError e \/ isValidationError e
  \/ isTypeMismatchError e.
Proof.
  unfold unmarshalStruct.
  destruct (ParseRowLiteral data) as [tokens|e1] eqn:Ep.
  2:{ intros [= <-]. apply ParseRowLiteral_err in Ep as [->|H]; auto. }
  destruct (GetStructFields t) as [fields|e1] eqn:Eg.
  2:{ intros [= <-]. apply GetStructFields_err in Eg as [->|H]; auto. }
  destruct (assignLoop fields tokens 0 _) as [st1 [e1|]] eqn:E1.
  { intros [= <-]. apply assignLoop_err_kind in E1. auto 6. }
  destruct (defaultsLoop fields _ _ st1) as [st2 [e2|]] eqn:E2.
  { intros [= <-]. apply defaultsLoop_error in E2 as (pos & _ & H).
    apply mismatchAt_kind in H. auto 6. }
  cbn [snd]. intros H. apply missingRequired_error in H. auto 6.
Qed.

Lemma marshalLoop_err (fields : gmap Z FieldInfo) (isZero : nat -> bool)
      (formatted : nat -> res Reason string) (positions : list Z) :
  forall values last e,
    marshalLoop fields isZero formatted positions values last = Err e ->
    isMarshalError e.
Proof.
  induction positions as [|pos rest IH]; intros values last e H; cbn [marshalLoop] in H;
    [discriminate|].
  destruct (fields !! pos) as [field|]; [|eapply IH; eassumption].
  destruct (omitted isZero field); [eapply IH; eassumption|].
  destruct (formatted (FieldInfo.Index field)) as [text|reason];
    [eapply IH; eassumption|].
  injection H as <-. do 3 eexists; reflexivity.
Qed.

Lemma marshalStruct_err (t : GoType) (isZero : nat -> bool)
      (formatted : nat -> res Reason string) (e : error) :
  marshalStruct t isZero formatted = Err e ->
  e = ErrNotStruct \/ isValidationError e \/ isMarshalError e.
Proof.
  unfold marshalStruct.
  destruct (GetStructFields t) as [fields|e1] eqn:Eg; cbn [bind].
  2:{ intros [= <-]. apply GetStructFields_err in Eg as [->|H]; auto. }
  destruct (bool_decide _); [discriminate|].
  destruct (marshalLoop _ _ _ _ _ _) as [values|e1] eqn:El; cbn [bind]; [discriminate|].
  intros [= <-]. apply marshalLoop_err in El. auto.
Qed.

Lemma Marshal_deref_err :
  forall (v : goValue) (e : error),
    Marshal_deref v = Err e ->
    e = ErrNilPointer \/ e = ErrNotStruct \/ isValidationError e \/ isMarshalError e.
Proof.
  fix IH 1. intros v e. destruct v; cbn [Marshal_deref];
    try (intros [= <-]; auto; fail);
    try (intros H; apply marshalStruct_err in H as [->|[H|H]]; auto; fail).
  destruct target as [target|]; [apply IH | intros [= <-]; auto].
Qed.

End CodecErrors.

(** X22. The errors of [Unmarshal] are of six kinds: the nil-pointer and
    the not-a-struct error for the target, the empty-input error and a
    parse error for the row, a validation error for a tag or a missing
    required field, and a type mismatch for a value; it never returns a
    marshal error. *)
Theorem Unmarshal_errors {L : GoLib} (rangeOrder : list Z -> list Z) (data : string)
        (v : option goValue) (e : error) :
  snd (Unmarshal rangeOrder data v) = Some e ->
  e = ErrNilPointer \/ e = ErrNotStruct \/ e = ErrEmptyInput \/ isParseError e
  \/ isValidationError e \/ isTypeMismatchError e.
Proof.
  unfold Unmarshal, withStructPointer.
  destruct v as [w|]; [|intros [= <-]; auto].
  destruct w; try (intros [= <-]; auto; fail).
  destruct target as [t|]; [|intros [= <-]; auto].
  destruct t;
    try (destruct (isStructKind _); [|intros [= <-]; auto]; cbn [snd];
         intros H; apply unmarshalStruct_err in H; intuition auto; fail).
  match goal with
  | |- context [unmarshalStruct ?ro ?d ?t ?vals] =>
      pose proof (unmarshalStruct_err ro d t vals e) as Hk;
      destruct (unmarshalStruct ro d t vals) as [vals' err]
  end.
  cbn [snd] in *. intros H. apply Hk in H. intuition auto.
Qed.

Lemma Unmarshal_errors_witness :
  ErrEmptyInput = ErrNilPointer \/ ErrEmptyInput = ErrNotStruct
  \/ ErrEmptyInput = ErrEmptyInput \/ isParseError ErrEmptyInput
  \/ isValidationError ErrEmptyInput \/ isTypeMismatchError ErrEmptyInput.
Proof.
  apply (Unmarshal_errors (L := textLib) ascending "  "
           (pointerTo requiredPair [VString ""; VString ""])).
  vm_compute. reflexivity.
Defined.

(** X23. The errors of [Marshal] are of four kinds: the nil-pointer error,
    the not-a-struct error, a validation error for a tag, and a marshal
    error for a field whose value cannot be written. *)
Theorem Marshal_errors {L : GoLib} (v : option goValue) (e : error) :
  Marshal v = Err e ->
  e = ErrNilPointer \/ e = ErrNotStruct \/ isValidationError e \/ isMarshalError e.
Proof.
  destruct v as [w|]; cbn [Marshal]; [apply Marshal_deref_err | intros [= <-]; auto].
Qed.

Lemma Marshal_errors_witness :
  ErrNotStruct = ErrNilPointer \/ ErrNotStruct = ErrNotStruct
  \/ isValidationError ErrNotStruct \/ isMarshalError ErrNotStruct.
Proof.
  exact (Marshal_errors (L := textLib) (Some (VString "x")) ErrNotStruct eq_refl).
Defined.

(** ** Splitting tags and slice elements *)

Section SplitFacts.

Lemma splitLoop_plain (s : string) :
  Str.forallb partByte s = true ->
  forall (rest current : string) (parts : list string),
    splitLoop (s +:+ rest) false false current parts
    = splitLoop rest false false (current +:+ s) parts.
Proof.
  induction s as [|c s IH]; intros Hs rest current parts.
  - cbn [String.append]. now rewrite StrFacts.app_nil_r.
  - cbn [Str.forallb] in Hs. apply andb_prop in Hs as [Hc Hs].
    unfold partByte in Hc. apply andb_prop in Hc as [Hc Hb].
    apply andb_prop in Hc as [Hcomma Hq].
    apply negb_true_iff in Hcomma, Hq, Hb.
    cbn [String.append splitLoop]. rewrite Hb, Hq, Hcomma.
    rewrite IH by exact Hs. f_equal.
    rewrite StrFacts.app_assoc. reflexivity.
Qed.

Lemma splitLoop_join (ps : list string) :
  Forall (fun p => isPart p = true) ps ->
  forall (p : string) (current : string) (parts : list string),
    isPart p = true ->
    splitLoop (Str.join "," (p :: ps)) false false current parts
    = parts ++ (current +:+ p) :: ps.
Proof.
  induction 1 as [|q ps Hq Hall IH]; intros p current parts Hp;
    unfold isPart in Hp; apply andb_prop in Hp as [Hne Hp].
  - cbn [Str.join]. rewrite <- (StrFacts.app_nil_r p) at 1.
    rewrite splitLoop_plain by exact Hp. cbn [splitLoop].
    destruct (current +:+ p) eqn:E; [|reflexivity].
    exfalso. destruct current; [|discriminate E]. cbn in E. subst p. discriminate Hne.
  - change (Str.join "," (p :: q :: ps)) with (p +:+ String Bytes.comma (Str.join "," (q :: ps))).
    rewrite splitLoop_plain by exact Hp. cbn [splitLoop].
    change (Ascii.eqb Bytes.comma Bytes.backslash) with false.
    change (Ascii.eqb Bytes.comma Bytes.dquote) with false.
    change (Ascii.eqb Bytes.comma Bytes.comma) with true. cbv iota.
    rewrite IH by exact Hq. cbn [String.append]. now rewrite <- List.app_assoc.
Qed.

End SplitFacts.



Lemma word_part (w : string) :
  w <> "" -> Str.forallb wordByte w = true -> isPart w = true.
Proof.
  intros Hne Hw. unfold isPart. apply andb_true_intro. split.
  - destruct w; [contradiction | reflexivity].
  - clear Hne. induction w as [|c w IH]; [reflexivity|].
    cbn [Str.forallb] in *. apply andb_prop in Hw as [Hc Hw].
    rewrite IH by exact Hw. rewrite andb_true_r.
    clear -Hc. destruct c as [[] [] [] [] [] [] [] []]; vm_compute in Hc |- *;
      (reflexivity || discriminate Hc).
Qed.

(** X10. A tag that is the decimal numeral of a position from 1 to
    2^63 - 1 parses to that position with no option set; the numerals of
    0 and of the negative numbers are rejected. *)
Theorem ParseTag_numeral (pos : Z) :
  (1 <= pos < 2 ^ 63 ->
   ParseTag (strconv.Itoa pos) = Ok (TagOptions.mk pos false false "" false))
  /\ (- 2 ^ 63 <= pos < 1 ->
      ParseTag (strconv.Itoa pos)
      = Err (ValidationError "" (strconv.Itoa pos) "position must be >= 1 (1-indexed)")).
Proof.
  assert (Hcommon : - 2 ^ 63 <= pos < 2 ^ 63 ->
            ParseTag (strconv.Itoa pos)
            = if pos <? 1
              then Err (ValidationError "" (strconv.Itoa pos)
                          "position must be >= 1 (1-indexed)")
              else Ok (TagOptions.mk pos false false "" false)).
  { intros Hr. unfold ParseTag, strconv.Itoa.
    destruct (strconvFacts.FormatInt_word pos) as [Hne Hw].
    destruct (String.eqb_spec (strconv.FormatInt pos) "") as [E|_]; [contradiction|].
    destruct (String.eqb_spec (strconv.FormatInt pos) "-") as [E|_].
    { exfalso. destruct pos as [|p|p]; [discriminate E| |].
      - rewrite strconvFacts.FormatInt_pos in E.
        destruct (strconvFacts.digits_first p) as (c & r & Ed & _ & Hm).
        rewrite Ed in E. injection E as -> _. discriminate Hm.
      - rewrite strconvFacts.FormatInt_neg in E. injection E as E.
        destruct (strconvFacts.digits_first p) as (c & r & Ed & _).
        rewrite Ed in E. discriminate E. }
    cbn [orb].
    assert (Hsplit : splitTagParts (strconv.FormatInt pos) = [strconv.FormatInt pos]).
    { unfold splitTagParts.
      rewrite <- (StrFacts.app_nil_r (strconv.FormatInt pos)) at 1.
      pose proof (word_part _ Hne Hw) as Hp. unfold isPart in Hp.
      apply andb_prop in Hp as [_ Hp].
      rewrite splitLoop_plain by exact Hp. cbn.
      destruct (strconv.FormatInt pos); [contradiction | reflexivity]. }
    rewrite Hsplit. rewrite TrimSpace_word by exact Hw.
    unfold strconv.Atoi, strconv.IntSize.
    rewrite strconvFacts.ParseInt_FormatInt; [reflexivity | lia|].
    unfold intInRange. change (64 - 1) with 63.
    apply andb_true_intro. split; [apply Z.leb_le | apply Z.ltb_lt]; lia. }
  split; intros Hr; rewrite Hcommon by lia.
  - destruct (Z.ltb_spec pos 1); [lia | reflexivity].
  - destruct (Z.ltb_spec pos 1); [reflexivity | lia].
Qed.

(** ** Booleans and integers *)

Lemma toLower_toUpper (c : ascii) : Bytes.toLower (Bytes.toUpper c) = Bytes.toLower c.
Proof. destruct c as [[] [] [] [] [] [] [] []]; vm_compute; reflexivity. Qed.

Lemma ToLower_ToUpper (s : string) : Str.ToLower (Str.ToUpper s) = Str.ToLower s.
Proof.
  unfold Str.ToLower, Str.ToUpper. induction s as [|c s IH]; [reflexivity|].
  cbn [Str.map]. now rewrite toLower_toUpper, IH.
Qed.

(** X25. [convertToBool] does not tell the case of ASCII letters apart:
    a text and the same text with its ASCII letters in upper case are
    converted alike, to the same boolean or to the same error; so [TRUE],
    [Yes] and [oN] are read as true. *)
Theorem convertToBool_case_insensitive {L : GoLib} (value name : string) (pos : Z) :
  convertToBool (Str.ToUpper value) name pos = convertToBool value name pos
  /\ ConvertToType (Str.ToUpper value) TBool name pos = ConvertToType value TBool name pos
  /\ convertToBool "TRUE" name pos = Ok true
  /\ convertToBool "Yes" name pos = Ok true
  /\ convertToBool "oN" name pos = Ok true.
Proof.
  assert (H : convertToBool (Str.ToUpper value) name pos = convertToBool value name pos).
  { unfold convertToBool. rewrite ToLower_ToUpper.
    destruct value; reflexivity. }
  split; [exact H|]. split; [|repeat split].
  cbn [ConvertToType convertSQLNull]. now rewrite H.
Qed.

(** X26. An integer within the range of its type, signed or unsigned, of
    any size, is written by [FormatValue] as a text that [ConvertToType]
    reads back as the same integer. *)
Theorem integer_text_roundtrip {L : GoLib} (k : IntKind) (u : UintKind) (n : Z)
        (name : string) (pos : Z) :
  (intInRange (intBitSize k) n = true ->
   exists text, FormatValue (VInt k n) = Ok text
                /\ ConvertToType text (TInt k) name pos = Ok (VInt k n))
  /\ (uintInRange (uintBitSize u) n = true ->
      exists text, FormatValue (VUint u n) = Ok text
                   /\ ConvertToType text (TUint u) name pos = Ok (VUint u n)).
Proof.
  split; intros Hr.
  - exists (strconv.FormatInt n). split; [reflexivity|].
    cbn [ConvertToType convertSQLNull]. now rewrite convertToInt_FormatInt.
  - exists (strconv.FormatUint n). split; [reflexivity|].
    cbn [ConvertToType convertSQLNull]. now rewrite convertToUint_FormatUint.
Qed.
